(** * Tab service store (requestly, componentsV2/Tabs/store/tabServiceStore.ts)

    A shallow embedding of the tab registry kept by the API-client tab bar:
    the zustand store of [tabServiceStore.ts] (actions [openTab],
    [upsertTabSource], [closeTabById], [setPreviewTab], ...) and the
    session-storage adapter handed to zustand's [persist] middleware
    ([setItem], [getItem], [onRehydrateStorage]).

    Conventions of the embedding.
    - A JavaScript [Map] is an insertion-ordered list of entries with
      pairwise distinct keys ([JsMap]); iteration order is observable in
      [getItem] and [setItem], so it is kept.
    - [TabId = number]: identifiers are integers, modelled in [Z]
      (exact while below 2^53, far beyond any session).  Truthiness of
      a number is [≠ 0]; [undefined] is [None].
    - The store is threaded explicitly: an action maps a [World] (the
      store's state and the trace of calls that leave the store) to a
      [World]. *)

From stdpp Require Import base decidable option list numbers strings.
From Stdlib Require Import ZArith Lia.

Local Open Scope string_scope.
Local Open Scope Z_scope.
Local Open Scope list_scope.

(** ** JavaScript [Map]: insertion-ordered finite maps *)

Module JsMap.
Section defs.
Context {K V : Type} `{EqDecision K}.

(** [m.get(k)] *)
Fixpoint get (k : K) (m : list (K * V)) : option V :=
  match m with
  | [] => None
  | (k', v) :: m' => if decide (k = k') then Some v else get k m'
  end.

(** [m.has(k)] *)
Definition has (k : K) (m : list (K * V)) : bool :=
  match get k m with Some _ => true | None => false end.

(** [m.set(k, v)]: an existing key keeps its position, a new key goes last. *)
Fixpoint set (k : K) (v : V) (m : list (K * V)) : list (K * V) :=
  match m with
  | [] => [(k, v)]
  | (k', v') :: m' =>
      if decide (k = k') then (k, v) :: m' else (k', v') :: set k v m'
  end.

(** [m.delete(k)]: the entry under [k], which is the only one, goes. *)
Definition delete (k : K) (m : list (K * V)) : list (K * V) :=
  filter (λ kv, kv.1 ≠ k) m.

(** [Array.from(m.keys())], [Array.from(m.values())] *)
Definition keys (m : list (K * V)) : list K := m.*1.
Definition values (m : list (K * V)) : list V := m.*2.

(** [m.size] *)
Definition size (m : list (K * V)) : nat := length m.

(** [new Map(entries)]: entries are set from left to right. *)
Definition of_entries (l : list (K * V)) : list (K * V) :=
  foldl (λ m kv, set kv.1 kv.2 m) [] l.
End defs.
End JsMap.

(** ** Data model *)

Abbreviation TabId := Z (only parsing).
Abbreviation SourceName := string (only parsing).
Abbreviation SourceId := string (only parsing).

(** JavaScript truthiness of an optional number / string. *)
Definition truthy (o : option Z) : bool :=
  match o with Some n => bool_decide (n ≠ 0) | None => false end.

Definition truthy_str (o : option string) : bool :=
  match o with Some s => bool_decide (s ≠ EmptyString) | None => false end.

(** Modelled from the spec: [AbstractTabSource] (helpers/tabSource) is not
    among the sources.  A source is the logical content identity backing a
    tab: a kind name and a source-specific id; it carries the declared
    [type] and the [metadata] from which the persistence adapter rebuilds
    it, a default title, and an optional context id
    ([source.metadata.context?.id]). *)
Record Metadata := {
  md_context_id : option string;
  md_payload : string;
}.

Record AbstractTabSource := {
  type : string;
  metadata : Metadata;
  getSourceId : SourceId;
  getSourceName : SourceName;
  getDefaultTitle : string;
}.

(** Modelled from the spec: a blocker is a registered confirmation gate; the
    store only reads [details.title], [details.onCancel] and
    [details.onConfirm].  Callbacks are opaque closures, named here by a
    string. *)
Record BlockerDetails := {
  b_title : option string;
  onCancel : option string;
  onConfirm : option string;
}.

(** Modelled from the spec: [TabState] and [createTabStore] live in
    tabStore.ts, which is not among the sources.  A tab has an identifier,
    a source, a title, an icon, a preview flag, an unsaved flag and a
    closability flag; [getActiveBlocker()] is the blocker currently
    registered on it, if any. *)
Record TabState := {
  id : TabId;
  source : AbstractTabSource;
  title : string;
  icon : string;
  preview : bool;
  unsaved : bool;
  closable : bool;
  getActiveBlocker : option BlockerDetails;
}.

(** Modelled from the spec: [createTabStore(id, source, title, preview?)]
    is not among the sources.  A new tab is neither unsaved nor blocked, is
    closable, and is a preview tab only when the fourth argument says so. *)
Definition createTabStore (i : TabId) (s : AbstractTabSource) (t : string)
    (p : option bool) : TabState :=
  {| id := i; source := s; title := t; icon := EmptyString;
     preview := default false p; unsaved := false; closable := true;
     getActiveBlocker := None |}.

(** Modelled from the spec: the setters of a tab store change their field. *)
Definition setTitle (t : string) (s : TabState) : TabState :=
  {| id := id s; source := source s; title := t; icon := icon s;
     preview := preview s; unsaved := unsaved s; closable := closable s;
     getActiveBlocker := getActiveBlocker s |}.

Definition setPreview (p : bool) (s : TabState) : TabState :=
  {| id := id s; source := source s; title := title s; icon := icon s;
     preview := p; unsaved := unsaved s; closable := closable s;
     getActiveBlocker := getActiveBlocker s |}.

Definition setIcon (i : string) (s : TabState) : TabState :=
  {| id := id s; source := source s; title := title s; icon := i;
     preview := preview s; unsaved := unsaved s; closable := closable s;
     getActiveBlocker := getActiveBlocker s |}.

Record TabConfig := { cfg_preview : bool }.

(** [config?.preview] *)
Definition config_preview (config : option TabConfig) : option bool :=
  cfg_preview <$> config.

(** [Partial<Pick<TabState, "preview" | "unsaved" | "title" | "icon">>] *)
Record TabUpdates := {
  upd_preview : option bool;
  upd_unsaved : option bool;
  upd_title : option string;
  upd_icon : option string;
}.

Record TabServiceState := {
  tabIdSequence : TabId;
  activeTabId : option TabId;
  activeTabSource : option AbstractTabSource;
  previewTabId : option TabId;
  previewTabSource : option AbstractTabSource;
  tabsIndex : list (SourceName * list (SourceId * TabId));
  tabs : list (TabId * TabState);
  tabOrder : list TabId;
  ignorePath : bool;
  _version : Z;
}.

Definition initialState : TabServiceState :=
  {| tabIdSequence := 0; activeTabId := None; activeTabSource := None;
     previewTabId := None; previewTabSource := None;
     tabsIndex := []; tabs := []; tabOrder := [];
     ignorePath := false; _version := 0 |}.

(** Calls that leave the store. *)
Inductive Effect :=
  | SetLastUsedContextId (contextId : string)
  | WindowConfirm (message : string)
  | Callback (name : string)
  | ClearStorage
  | SentryCaptureException (tag message : string).

Record World := {
  store : TabServiceState;
  effects : list Effect;
}.

Definition initialWorld : World := {| store := initialState; effects := [] |}.

(** ** The store: zustand [set] / [get] and in-place mutation *)

(** [set({ activeTabId, activeTabSource })] *)
Definition set_active (i : option TabId) (s : option AbstractTabSource)
    (st : TabServiceState) : TabServiceState :=
  {| tabIdSequence := tabIdSequence st; activeTabId := i; activeTabSource := s;
     previewTabId := previewTabId st; previewTabSource := previewTabSource st;
     tabsIndex := tabsIndex st; tabs := tabs st; tabOrder := tabOrder st;
     ignorePath := ignorePath st; _version := _version st |}.

(** [set({ previewTabId, previewTabSource })] *)
Definition set_preview (i : option TabId) (s : option AbstractTabSource)
    (st : TabServiceState) : TabServiceState :=
  {| tabIdSequence := tabIdSequence st; activeTabId := activeTabId st;
     activeTabSource := activeTabSource st;
     previewTabId := i; previewTabSource := s;
     tabsIndex := tabsIndex st; tabs := tabs st; tabOrder := tabOrder st;
     ignorePath := ignorePath st; _version := _version st |}.

(** [set({ tabs: new Map(tabs), tabOrder })] *)
Definition set_tabs (m : list (TabId * TabState)) (o : list TabId)
    (st : TabServiceState) : TabServiceState :=
  {| tabIdSequence := tabIdSequence st; activeTabId := activeTabId st;
     activeTabSource := activeTabSource st;
     previewTabId := previewTabId st; previewTabSource := previewTabSource st;
     tabsIndex := tabsIndex st; tabs := m; tabOrder := o;
     ignorePath := ignorePath st; _version := _version st |}.

(** The index is a [Map] mutated in place; the store keeps pointing at it. *)
Definition set_tabsIndex (ix : list (SourceName * list (SourceId * TabId)))
    (st : TabServiceState) : TabServiceState :=
  {| tabIdSequence := tabIdSequence st; activeTabId := activeTabId st;
     activeTabSource := activeTabSource st;
     previewTabId := previewTabId st; previewTabSource := previewTabSource st;
     tabsIndex := ix; tabs := tabs st; tabOrder := tabOrder st;
     ignorePath := ignorePath st; _version := _version st |}.

(** [set({ tabIdSequence })] *)
Definition set_tabIdSequence (n : TabId) (st : TabServiceState) : TabServiceState :=
  {| tabIdSequence := n; activeTabId := activeTabId st;
     activeTabSource := activeTabSource st;
     previewTabId := previewTabId st; previewTabSource := previewTabSource st;
     tabsIndex := tabsIndex st; tabs := tabs st; tabOrder := tabOrder st;
     ignorePath := ignorePath st; _version := _version st |}.

(** [set({ _version })] *)
Definition set_version (n : Z) (st : TabServiceState) : TabServiceState :=
  {| tabIdSequence := tabIdSequence st; activeTabId := activeTabId st;
     activeTabSource := activeTabSource st;
     previewTabId := previewTabId st; previewTabSource := previewTabSource st;
     tabsIndex := tabsIndex st; tabs := tabs st; tabOrder := tabOrder st;
     ignorePath := ignorePath st; _version := n |}.

(** [set({ ignorePath })] *)
Definition set_ignorePath (b : bool) (st : TabServiceState) : TabServiceState :=
  {| tabIdSequence := tabIdSequence st; activeTabId := activeTabId st;
     activeTabSource := activeTabSource st;
     previewTabId := previewTabId st; previewTabSource := previewTabSource st;
     tabsIndex := tabsIndex st; tabs := tabs st; tabOrder := tabOrder st;
     ignorePath := b; _version := _version st |}.

Definition upd (f : TabServiceState → TabServiceState) (w : World) : World :=
  {| store := f (store w); effects := effects w |}.

Definition emit (e : Effect) (w : World) : World :=
  {| store := store w; effects := effects w ++ [e] |}.

(** [if (contextId) setLastUsedContextId(contextId)] *)
Definition noteContext (s : AbstractTabSource) (w : World) : World :=
  match md_context_id (metadata s) with
  | Some c => if decide (c ≠ EmptyString) then emit (SetLastUsedContextId c) w else w
  | None => w
  end.

(** [arr.indexOf(x)]: the first position of [x], or [-1]. *)
Definition indexOf (x : TabId) (l : list TabId) : Z :=
  match list_find (λ y, y = x) l with
  | Some (i, _) => Z.of_nat i
  | None => -1
  end.

(** [arr.includes(x)] *)
Definition includes (x : TabId) (l : list TabId) : bool := bool_decide (x ∈ l).

(** [tabsIndex.get(sourceName)?.delete(sourceId)]: the inner map is mutated
    in place and stays in the index even when it becomes empty. *)
Definition index_delete (sourceName : SourceName) (sourceId : SourceId)
    (ix : list (SourceName * list (SourceId * TabId)))
    : list (SourceName * list (SourceId * TabId)) :=
  match JsMap.get sourceName ix with
  | Some sm => JsMap.set sourceName (JsMap.delete sourceId sm) ix
  | None => ix
  end.

(** Lines 99-103: [tabsIndex.get(sourceName).set(sourceId, tabId)], or a new
    inner map when the source name is not indexed yet. *)
Definition index_set (sourceName : SourceName) (sourceId : SourceId) (t : TabId)
    (ix : list (SourceName * list (SourceId * TabId)))
    : list (SourceName * list (SourceId * TabId)) :=
  match JsMap.get sourceName ix with
  | Some sm => JsMap.set sourceName (JsMap.set sourceId t sm) ix
  | None => JsMap.set sourceName (JsMap.set sourceId t []) ix
  end.

(** Line 216: [if (tabsIndex.get(sourceName)?.size === 0) tabsIndex.delete(sourceName)] *)
Definition index_prune (sourceName : SourceName)
    (ix : list (SourceName * list (SourceId * TabId)))
    : list (SourceName * list (SourceId * TabId)) :=
  match JsMap.get sourceName ix with
  | Some sm => if decide (JsMap.size sm = 0%nat)
               then JsMap.delete sourceName ix else ix
  | None => ix
  end.

(** ** Actions of the store

    Each action keeps the name it has in the store.  [cleanupCloseBlockers],
    which runs the confirm callbacks of the registered blockers and leaves
    the state alone, comes further down, with what an action reports. *)

Definition setIgnorePath (b : bool) (w : World) : World := upd (set_ignorePath b) w.

Definition consumeIgnorePath (w : World) : bool * World :=
  if ignorePath (store w) then (true, upd (set_ignorePath false) w) else (false, w).

Definition reset (ignore : bool) (w : World) : World :=
  emit ClearStorage
    {| store := set_ignorePath ignore initialState; effects := effects w |}.

Definition getTabIdBySource (sourceId : SourceId) (sourceName : SourceName)
    (st : TabServiceState) : option TabId :=
  JsMap.get sourceName (tabsIndex st) ≫= JsMap.get sourceId.

Definition getTabStateBySource (sourceId : SourceId) (sourceName : SourceName)
    (st : TabServiceState) : option TabState :=
  let tabId := getTabIdBySource sourceId sourceName st in
  if truthy tabId then tabId ≫= λ t, JsMap.get t (tabs st) else None.

Definition incrementVersion (w : World) : World :=
  upd (λ st, set_version (_version st + 1) st) w.

Definition _generateNewTabId (w : World) : TabId * World :=
  let nextId := tabIdSequence (store w) + 1 in
  (nextId, upd (set_tabIdSequence nextId) w).

Definition setActiveTab (i : option TabId) (w : World) : World :=
  match i ≫= λ t, JsMap.get t (tabs (store w)) with
  | Some tabState =>
      noteContext (source tabState)
        (upd (set_active i (Some (source tabState))) w)
  | None => upd (set_active None None) w
  end.

Definition resetPreviewTab (w : World) : World := upd (set_preview None None) w.

Definition setPreviewTab (i : TabId) (w : World) : World :=
  match JsMap.get i (tabs (store w)) with
  | Some tabState => upd (set_preview (Some i) (Some (source tabState))) w
  | None => resetPreviewTab w
  end.

Definition upsertTabSource (tabId : option TabId) (src : AbstractTabSource)
    (config : option TabConfig) (w : World) : World :=
  let sourceId := getSourceId src in
  let sourceName := getSourceName src in
  match tabId with
  | Some t =>
      if decide (t = 0) then w
      else
        let tab := createTabStore t src (getDefaultTitle src) (config_preview config) in
        let ix' := index_set sourceName sourceId t (tabsIndex (store w)) in
        let tabs' := JsMap.set t tab (tabs (store w)) in
        let order := tabOrder (store w) in
        let newTabOrder := if includes t order then order else order ++ [t] in
        setActiveTab (Some t)
          (upd (set_tabs tabs' newTabOrder) (upd (set_tabsIndex ix') w))
  | None => w
  end.

Definition updateTabBySource (sourceId : SourceId) (sourceName : SourceName)
    (updates : TabUpdates) (w : World) : World :=
  let tabId := getTabIdBySource sourceId sourceName (store w) in
  if truthy tabId then
    match tabId ≫= λ t, (λ s, (t, s)) <$> JsMap.get t (tabs (store w)) with
    | Some (t, tabState) =>
        let s1 := setTitle (default (title tabState) (upd_title updates)) tabState in
        let s2 := setPreview (default (preview tabState) (upd_preview updates)) s1 in
        let s3 := setIcon (default (icon tabState) (upd_icon updates)) s2 in
        incrementVersion
          (upd (λ st, set_tabs (JsMap.set t s3 (tabs st)) (tabOrder st) st) w)
    | None => w
    end
  else w.

(** Lines 148-152 of [openTab]: the source of the tab in the preview slot
    leaves the index. *)
Definition evictPreviewSource (st : TabServiceState) (w : World) : World :=
  match previewTabId st, previewTabSource st with
  | Some p, Some old =>
      if decide (p = 0) then w
      else
        upd (set_tabsIndex
               (index_delete (getSourceName old) (getSourceId old)
                  (tabsIndex st))) w
  | _, _ => w
  end.

(** Line 153: [previewTabId ?? _generateNewTabId()] *)
Definition previewOrNewTabId (st : TabServiceState) (w : World) : TabId * World :=
  match previewTabId st with
  | Some p => (p, w)
  | None => _generateNewTabId w
  end.

Definition openTab (src : AbstractTabSource) (config : option TabConfig)
    (w0 : World) : World :=
  let sourceId := getSourceId src in
  let sourceName := getSourceName src in
  let w := noteContext src w0 in
  let st := store w in
  let existingTabId := getTabIdBySource sourceId sourceName st in
  if truthy existingTabId then setActiveTab existingTabId w
  else if default false (config_preview config) then
    let w1 := evictPreviewSource st w in
    let r := previewOrNewTabId st w1 in
    setPreviewTab r.1 (upsertTabSource (Some r.1) src config r.2)
  else
    let r := _generateNewTabId w in
    upsertTabSource (Some r.1) src None r.2.

Definition updateTabOrder (newOrder : list TabId) (w : World) : World :=
  upd (λ st, set_version (_version st + 1) (set_tabs (tabs st) newOrder st)) w.

Definition defaultPrompt : string :=
  "Discard changes? Changes you made will not be saved.".

(** [cb?.()] *)
Definition call (cb : option string) (w : World) : World :=
  match cb with Some f => emit (Callback f) w | None => w end.

(** Lines 220-228 of [closeTabById]: the tab to activate once [tabId] is
    gone: the active tab when it is another one, otherwise the tab at the
    closed tab's index in the new order, or at the index before it. *)
Definition newActiveTabId (tabId : TabId) (active : option TabId)
    (order newTabOrder : list TabId) : option TabId :=
  if decide (active ≠ Some tabId) then active
  else if decide (length newTabOrder = 0%nat) then None
  else
    let currentIndex := indexOf tabId order in
    let nextIndex :=
      if decide (currentIndex < Z.of_nat (length newTabOrder))
      then currentIndex else currentIndex - 1 in
    if decide (0 ≤ nextIndex)
    then newTabOrder !! Z.to_nat nextIndex else None.

(** Lines 215-232 of [closeTabById]: the tab leaves the index, the order
    and the map, and the active tab is recomputed. *)
Definition removeTab (tabId : TabId) (tabState : TabState) (st : TabServiceState)
    (w : World) : World :=
  let sourceName := getSourceName (source tabState) in
  let sourceId := getSourceId (source tabState) in
  let ix2 := index_prune sourceName (index_delete sourceName sourceId (tabsIndex st)) in
  let newTabOrder := filter (λ i, i ≠ tabId) (tabOrder st) in
  setActiveTab (newActiveTabId tabId (activeTabId st) (tabOrder st) newTabOrder)
    (upd (set_tabs (JsMap.delete tabId (tabs st)) newTabOrder)
       (upd (set_tabsIndex ix2) w)).

(** [activeBlocker?.details.title || "Discard changes? ..."] *)
Definition promptMessage (activeBlocker : option BlockerDetails) : string :=
  let t := activeBlocker ≫= b_title in
  if truthy_str t then default defaultPrompt t else defaultPrompt.

Section Close.
(** [window.confirm]: the user's answer to the prompt with a given message. *)
Variable confirm : string → bool.

Definition closeTabById (tabId : TabId) (skipUnsavedPrompt : bool)
    (w : World) : World :=
  let st := store w in
  match JsMap.get tabId (tabs st) with
  | None => w
  | Some tabState =>
      if skipUnsavedPrompt then removeTab tabId tabState st w
      else
        let activeBlocker := getActiveBlocker tabState in
        if bool_decide (is_Some activeBlocker) || unsaved tabState then
          let message := promptMessage activeBlocker in
          let w1 := emit (WindowConfirm message) w in
          if confirm message
          then removeTab tabId tabState st (call (activeBlocker ≫= onConfirm) w1)
          else call (activeBlocker ≫= onCancel) w1
        else removeTab tabId tabState st w
  end.

Definition closeTab (src : AbstractTabSource) (skipUnsavedPrompt : bool)
    (w : World) : World :=
  let existingTabId := getTabIdBySource (getSourceId src) (getSourceName src) (store w) in
  match existingTabId with
  | Some t => if decide (t = 0) then w else closeTabById t skipUnsavedPrompt w
  | None => w
  end.

Definition closeTabBySource (sourceId : SourceId) (sourceName : SourceName)
    (skipUnsavedPrompt : bool) (w : World) : World :=
  match getTabIdBySource sourceId sourceName (store w) with
  | Some t => if decide (t = 0) then w else closeTabById t skipUnsavedPrompt w
  | None => w
  end.

(** [tabs.forEach((_, tabId) => closeTabById(tabId, skipUnsavedPrompt))]:
    the map read at the start is walked once; each close works on the
    store's current copy. *)
Definition closeAllTabs (skipUnsavedPrompt : bool) (w : World) : World :=
  foldl (λ w' tabId, closeTabById tabId skipUnsavedPrompt w') w
    (JsMap.keys (tabs (store w))).

Definition closeTabByContext (contextId : option string)
    (skipUnsavedPrompt : bool) (w : World) : World :=
  let tabsToClose :=
    filter (λ t, md_context_id (metadata (source t)) = contextId)
      (JsMap.values (tabs (store w))) in
  foldl (λ w' t, closeTabById (id t) skipUnsavedPrompt w') w tabsToClose.
End Close.

(** ** Persistence adapter (the [storage] option of [persist]) *)

(** A call either returns or throws; a thrown value is kept as the text a
    template literal prints for it. *)
Inductive Result (A : Type) :=
  | Ok (a : A)
  | Throw (error : string).
Arguments Ok {A} a.
Arguments Throw {A} error.

(** [new Error(message)] *)
Definition newError (message : string) : string := "Error: " +:+ message.

Definition rbind {A B} (r : Result A) (f : A → Result B) : Result B :=
  match r with Ok a => f a | Throw e => Throw e end.

Fixpoint rmap {A B} (f : A → Result B) (l : list A) : Result (list B) :=
  match l with
  | [] => Ok []
  | a :: l' => rbind (f a) (λ b, rbind (rmap f l') (λ bs, Ok (b :: bs)))
  end.

(** [try { body } catch (error) { throw new Error(`${prefix}${error}`) }] *)
Definition rethrow {A} (prefix : string) (body : Result A) : Result A :=
  match body with Ok a => Ok a | Throw e => Throw (newError (prefix +:+ e)) end.

(** What [JSON.stringify] keeps of a tab's state: its data fields. *)
Record PersistedSource := {
  ps_type : string;
  ps_metadata : Metadata;
}.

Record PersistedTab := {
  pt_id : TabId;
  pt_source : PersistedSource;
  pt_title : string;
  pt_icon : string;
  pt_preview : bool;
  pt_unsaved : bool;
  pt_closable : bool;
}.

(** The persisted format:
    [{ tabIdSequence, activeTabId, tabsIndex: [[sourceName, [[sourceId, tabId], ...]], ...],
       tabs: [[tabId, tabSnapshot], ...], tabOrder: [tabId, ...], _version }]. *)
Record PersistedState := {
  p_tabIdSequence : TabId;
  p_activeTabId : option TabId;
  p_tabsIndex : list (SourceName * list (SourceId * TabId));
  p_tabs : list (TabId * PersistedTab);
  p_tabOrder : option (list TabId);
  p_version : Z;
}.

(** [StorageValue]: the state under [state], the middleware's [version]. *)
Record StoredValue := {
  sv_state : PersistedState;
  sv_version : option Z;
}.

(** The fields [partialize] keeps, as [setItem] receives them. *)
Record PartialState := {
  kept_tabIdSequence : TabId;
  kept_activeTabId : option TabId;
  kept_tabsIndex : list (SourceName * list (SourceId * TabId));
  kept_tabs : list (TabId * TabState);
  kept_tabOrder : list TabId;
  kept__version : Z;
}.

Definition partialize (st : TabServiceState) : PartialState :=
  {| kept_tabIdSequence := tabIdSequence st; kept_activeTabId := activeTabId st;
     kept_tabsIndex := tabsIndex st; kept_tabs := tabs st;
     kept_tabOrder := tabOrder st; kept__version := _version st |}.

(** What [getItem] hands back to the middleware under [state]. *)
Record HydratedState := {
  h_tabIdSequence : TabId;
  h_activeTabId : option TabId;
  h_tabsIndex : list (SourceName * list (SourceId * TabId));
  h_tabs : list (TabId * TabState);
  h_activeTabSource : option AbstractTabSource;
  h_tabOrder : list TabId;
  h_version : Z;
}.

(** [JSON.stringify(tabStore.getState())]: functions are dropped. *)
Definition snapshot (s : TabState) : PersistedTab :=
  {| pt_id := id s;
     pt_source := {| ps_type := type (source s); ps_metadata := metadata (source s) |};
     pt_title := title s; pt_icon := icon s; pt_preview := preview s;
     pt_unsaved := unsaved s; pt_closable := closable s |}.

(** Lines 339-344 of [getItem]: the stored order is filtered to the ids of
    the rebuilt map, then the map's ids missing from it are appended. *)
Definition validTabOrder (storedTabOrder validTabIds : list TabId) : list TabId :=
  filter (λ i, i ∈ validTabIds) storedTabOrder.

Definition missingTabs (storedTabOrder validTabIds : list TabId) : list TabId :=
  filter (λ i, i ∉ validTabOrder storedTabOrder validTabIds) validTabIds.

Definition finalTabOrder (storedTabOrder validTabIds : list TabId) : list TabId :=
  validTabOrder storedTabOrder validTabIds ++ missingTabs storedTabOrder validTabIds.

(** Lines 301-312 of [setItem]: the object handed to [JSON.stringify],
    [{ ...newValue, state: { ...newValue.state, tabs, tabsIndex } }], with
    the two maps turned into arrays of entries. *)
Definition serializable (newValue : PartialState) (version : option Z) : StoredValue :=
  let tabs' := (λ e : TabId * TabState, (e.1, snapshot e.2)) <$> kept_tabs newValue in
  let tabsIndex' := kept_tabsIndex newValue in
  {| sv_state :=
       {| p_tabIdSequence := kept_tabIdSequence newValue;
          p_activeTabId := kept_activeTabId newValue;
          p_tabsIndex := tabsIndex';
          p_tabs := tabs';
          p_tabOrder := Some (kept_tabOrder newValue);
          p_version := kept__version newValue |};
     sv_version := version |}.

Definition setItemFailed : string := "Tab service setItem failed - error: ".
Definition getItemFailed : string := "Tab service getItem failed - error: ".
Definition rehydrationFailed : string := "Tabs rehydration failed - error:".

Section Persistence.
(** The browser and the constants module are parameters:
    - [JSON.stringify] and [JSON.parse]; [JSON_parse s] throws on text that
      is not JSON and stands as well for a parsed value that lacks the
      shape the adapter dereferences (a [TypeError] in the same [try]);
    - [sessionStorage.setItem], which throws when the quota is exceeded;
    - [TAB_SOURCES_MAP] (../constants), the registry of source
      constructors keyed by the declared source type. *)
Variable JSON_stringify : StoredValue → Result string.
Variable JSON_parse : string → Result StoredValue.
Variable quotaExceeded : list (string * string) → bool.
Variable TAB_SOURCES_MAP : string → option (Metadata → AbstractTabSource).

Definition sessionStorage_setItem (name value : string)
    (storage : list (string * string)) : Result (list (string * string)) :=
  let storage' := JsMap.set name value storage in
  if quotaExceeded storage' then Throw "QuotaExceededError" else Ok storage'.

Definition setItem (name : string) (newValue : PartialState) (version : option Z)
    (storage : list (string * string)) : Result (list (string * string)) :=
  rethrow setItemFailed
    (rbind (JSON_stringify (serializable newValue version))
       (λ stateString, sessionStorage_setItem name stateString storage)).

(** [new TAB_SOURCES_MAP[tabState.source.type](tabState.source.metadata)]:
    a type without a constructor is a [TypeError]. *)
Definition newSource (ps : PersistedSource) : Result AbstractTabSource :=
  match TAB_SOURCES_MAP (ps_type ps) with
  | Some ctor => Ok (ctor (ps_metadata ps))
  | None => Throw "TypeError: TAB_SOURCES_MAP[tabState.source.type] is not a constructor"
  end.

Definition rebuildTab (e : TabId * PersistedTab) : Result (TabId * TabState) :=
  rbind (newSource (pt_source e.2))
    (λ src, Ok (e.1, createTabStore e.1 src (pt_title e.2) None)).

Definition getItem (name : string) (storage : list (string * string))
    : Result (option (HydratedState * option Z)) :=
  rethrow getItemFailed
    (match JsMap.get name storage with
     | None => Ok None
     | Some stateString =>
         if decide (stateString = EmptyString) then Ok None
         else
           rbind (JSON_parse stateString) (λ existingValue,
             let ps := sv_state existingValue in
             let tabsIndex' :=
               JsMap.of_entries
                 ((λ e : SourceName * list (SourceId * TabId),
                     (e.1, JsMap.of_entries e.2)) <$> p_tabsIndex ps) in
             rbind (rmap rebuildTab (p_tabs ps)) (λ entries,
               let tabs' := JsMap.of_entries entries in
               let activeTabId' := p_activeTabId ps in
               let activeTabSource' :=
                 if truthy activeTabId'
                 then source <$> (activeTabId' ≫= λ t, JsMap.get t tabs')
                 else None in
               let storedTabOrder := default [] (p_tabOrder ps) in
               let validTabIds := JsMap.keys tabs' in
               Ok (Some
                     ({| h_tabIdSequence := p_tabIdSequence ps;
                         h_activeTabId := activeTabId';
                         h_tabsIndex := tabsIndex';
                         h_tabs := tabs';
                         h_activeTabSource := activeTabSource';
                         h_tabOrder := finalTabOrder storedTabOrder validTabIds;
                         h_version := p_version ps |},
                      sv_version existingValue))))
     end).

(** [onRehydrateStorage]'s callback [(store, error) => ...]: a failure is
    reported to Sentry and nothing else happens. *)
Definition onRehydrateStorage (error : option string) (w : World) : World :=
  match error with
  | Some e =>
      emit (SentryCaptureException "tabs_rehydration_failed"
              (rehydrationFailed +:+ e)) w
  | None => w
  end.

(** The middleware's default merge, [{ ...currentState, ...persistedState }]. *)
Definition merge (h : HydratedState) (st : TabServiceState) : TabServiceState :=
  {| tabIdSequence := h_tabIdSequence h; activeTabId := h_activeTabId h;
     activeTabSource := h_activeTabSource h;
     previewTabId := previewTabId st; previewTabSource := previewTabSource st;
     tabsIndex := h_tabsIndex h; tabs := h_tabs h; tabOrder := h_tabOrder h;
     ignorePath := ignorePath st; _version := h_version h |}.

(** Initialization as zustand's [persist] runs it (the middleware is a
    dependency, not part of the repository): the stored value is read
    with [getItem]; a value of the current version is merged into the
    store; whatever [getItem] throws goes to the rehydration callback and
    the store keeps the state it was created with. *)
Definition hydrate (name : string) (storage : list (string * string))
    (w : World) : World :=
  match getItem name storage with
  | Throw e => onRehydrateStorage (Some e) w
  | Ok None => onRehydrateStorage None w
  | Ok (Some (h, version)) =>
      if decide (version = None ∨ version = Some 0)
      then onRehydrateStorage None (upd (merge h) w)
      else onRehydrateStorage None w
  end.
End Persistence.

(** ** Runs of the store *)

(** The actions by which a client of the store changes its state.  A
    close carries the answer the user gives if the confirmation prompt is
    shown.  [cleanupCloseBlockers], which changes no state, and the calls
    that return a value are added to these in [StoreCall]. *)
Inductive Op :=
  | OpenTab (src : AbstractTabSource) (config : option TabConfig)
  | CloseTabById (tabId : TabId) (skipUnsavedPrompt answer : bool)
  | CloseTab (src : AbstractTabSource) (skipUnsavedPrompt answer : bool)
  | CloseTabBySource (sourceId : SourceId) (sourceName : SourceName)
      (skipUnsavedPrompt answer : bool)
  | CloseAllTabs (skipUnsavedPrompt answer : bool)
  | CloseTabByContext (contextId : option string) (skipUnsavedPrompt answer : bool)
  | SetActiveTab (i : option TabId)
  | UpdateTabOrder (newOrder : list TabId)
  | UpdateTabBySource (sourceId : SourceId) (sourceName : SourceName)
      (updates : TabUpdates)
  | UpsertTabSource (tabId : option TabId) (src : AbstractTabSource)
      (config : option TabConfig)
  | SetPreviewTab (i : TabId)
  | ResetPreviewTab
  | IncrementVersion
  | SetIgnorePath (b : bool)
  | Reset (ignore : bool).

Definition step (w : World) (op : Op) : World :=
  match op with
  | OpenTab src config => openTab src config w
  | CloseTabById t skip answer => closeTabById (λ _, answer) t skip w
  | CloseTab src skip answer => closeTab (λ _, answer) src skip w
  | CloseTabBySource sid sn skip answer =>
      closeTabBySource (λ _, answer) sid sn skip w
  | CloseAllTabs skip answer => closeAllTabs (λ _, answer) skip w
  | CloseTabByContext contextId skip answer =>
      closeTabByContext (λ _, answer) contextId skip w
  | SetActiveTab i => setActiveTab i w
  | UpdateTabOrder newOrder => updateTabOrder newOrder w
  | UpdateTabBySource sid sn updates => updateTabBySource sid sn updates w
  | UpsertTabSource t src config => upsertTabSource t src config w
  | SetPreviewTab i => setPreviewTab i w
  | ResetPreviewTab => resetPreviewTab w
  | IncrementVersion => incrementVersion w
  | SetIgnorePath b => setIgnorePath b w
  | Reset ignore => reset ignore w
  end.

Definition run (ops : list Op) (w : World) : World := foldl step w ops.



(** ** Invariants of the data model *)

(** Tab Order contains exactly the keys of the tab map, no duplicates. *)
Definition order_inv (st : TabServiceState) : Prop :=
  NoDup (tabOrder st) ∧ ∀ t, t ∈ tabOrder st ↔ t ∈ JsMap.keys (tabs st).

(** Every entry of the Source Index resolves to an existing tab (under an
    identifier issued by the sequence, which starts at 1). *)
Definition index_resolves (st : TabServiceState) : Prop :=
  ∀ sourceId sourceName t,
    getTabIdBySource sourceId sourceName st = Some t →
    t ≠ 0 ∧ is_Some (JsMap.get t (tabs st)).

(** Identifiers in use were issued by the sequence. *)
Definition ids_issued (st : TabServiceState) : Prop :=
  0 ≤ tabIdSequence st
  ∧ (∀ t, t ∈ JsMap.keys (tabs st) → 0 < t ≤ tabIdSequence st)
  ∧ (∀ p, previewTabId st = Some p → 0 < p ≤ tabIdSequence st).

(** The number of tabs whose preview flag is set. *)
Definition previewCount (st : TabServiceState) : nat :=
  length (filter (λ s, preview s = true) (JsMap.values (tabs st))).

(** Only the tab in the preview slot carries the preview flag. *)
Definition preview_slot_inv (st : TabServiceState) : Prop :=
  NoDup (JsMap.keys (tabs st))
  ∧ ∀ t s, JsMap.get t (tabs st) = Some s → preview s = true →
           previewTabId st = Some t.

(** The tab-store part of a source's identity. *)
Definition same_source (a b : AbstractTabSource) : Prop :=
  getSourceName a = getSourceName b ∧ getSourceId a = getSourceId b.


(** Every entry of the Source Index points at a tab of that very source. *)
Definition index_sound (st : TabServiceState) : Prop :=
  ∀ sourceId sourceName t,
    getTabIdBySource sourceId sourceName st = Some t →
    ∃ tabState, JsMap.get t (tabs st) = Some tabState
                ∧ getSourceName (source tabState) = sourceName
                ∧ getSourceId (source tabState) = sourceId.

(** While the tab of the preview slot exists, [previewTabSource] is its
    source. *)
Definition preview_linked (st : TabServiceState) : Prop :=
  ∀ p tabState,
    previewTabId st = Some p → JsMap.get p (tabs st) = Some tabState →
    ∃ old, previewTabSource st = Some old ∧ same_source old (source tabState).

(** The invariants of the data model, together. *)
Definition data_model (st : TabServiceState) : Prop :=
  order_inv st ∧ ids_issued st ∧ index_sound st ∧ preview_linked st.

(** What a client of the store may do in a given world: any action but a
    direct [upsertTabSource] (the store calls it from [openTab] only), and
    [updateTabOrder] with a permutation of the current order, as its
    caller is required to supply. *)
Definition client_op (w : World) (op : Op) : Prop :=
  match op with
  | UpsertTabSource _ _ _ => False
  | UpdateTabOrder newOrder => newOrder ≡ₚ tabOrder (store w)
  | _ => True
  end.

(** The worlds the store goes through, from its creation on.  What a
    component changes on a single tab through the tab's own store (title,
    unsaved flag, blockers) leaves the registry alone and is no step
    here. *)
Inductive reachable : World → Prop :=
  | reachable_initial : reachable initialWorld
  | reachable_step w op : reachable w → client_op w op → reachable (step w op).



(** A decidable form of [order_inv], to check it on a concrete state. *)
Definition order_invb (st : TabServiceState) : bool :=
  bool_decide (NoDup (tabOrder st)
               ∧ Forall (λ t, t ∈ JsMap.keys (tabs st)) (tabOrder st)
               ∧ Forall (λ t, t ∈ tabOrder st) (JsMap.keys (tabs st))).

(** A decidable form of [index_resolves]. *)
Definition index_resolvesb (st : TabServiceState) : bool :=
  bool_decide
    (Forall (λ e : SourceName * list (SourceId * TabId),
               Forall (λ e' : SourceId * TabId,
                         e'.2 ≠ 0 ∧ is_Some (JsMap.get e'.2 (tabs st))) e.2)
       (tabsIndex st)).

(** ** Sample sources and worlds *)

Definition request (sourceId : string) : AbstractTabSource :=
  {| type := "request";
     metadata := {| md_context_id := Some "workspace-1"; md_payload := sourceId |};
     getSourceId := sourceId; getSourceName := "request";
     getDefaultTitle := "Untitled request" |}.

Definition asPreview : option TabConfig := Some {| cfg_preview := true |}.

(** Two plain tabs, ids 1 and 2, the second one active. *)
Definition twoTabs : World :=
  run [OpenTab (request "a") None; OpenTab (request "b") None] initialWorld.

(** Three plain tabs, ids 1, 2 and 3, the third one active. *)
Definition threeTabs : World :=
  run [OpenTab (request "a") None; OpenTab (request "b") None;
       OpenTab (request "c") None] initialWorld.

(** Three plain tabs, ids 1, 2 and 3, the middle one active. *)
Definition threeTabsMiddle : World :=
  run [OpenTab (request "a") None; OpenTab (request "b") None;
       OpenTab (request "c") None; SetActiveTab (Some 2)] initialWorld.

(** [updateTabBySource(..., { preview: true })] *)
Definition markPreview : TabUpdates :=
  {| upd_preview := Some true; upd_unsaved := None;
     upd_title := None; upd_icon := None |}.

(** A tab with unsaved changes guarded by a blocker. *)
Definition blockedTab : TabState :=
  {| id := 1; source := request "a"; title := "Untitled request"; icon := EmptyString;
     preview := false; unsaved := true; closable := true;
     getActiveBlocker :=
       Some {| b_title := Some "Discard the unsaved request?";
               onCancel := Some "keepEditing"; onConfirm := Some "discardDraft" |} |}.

Definition blockedWorld : World :=
  {| store :=
       {| tabIdSequence := 1; activeTabId := Some 1;
          activeTabSource := Some (request "a");
          previewTabId := None; previewTabSource := None;
          tabsIndex := [("request", [("a", 1)])];
          tabs := [(1, blockedTab)]; tabOrder := [1];
          ignorePath := false; _version := 0 |};
     effects := [] |}.

(** A browser for the examples: one parsable stored string, a registry
    with the [request] constructor, a session storage of two entries. *)
Definition samplePersistedTab (i : TabId) (sourceType sourceId : string)
    (isPreview isUnsaved : bool) : TabId * PersistedTab :=
  (i, {| pt_id := i;
         pt_source := {| ps_type := sourceType;
                         ps_metadata := {| md_context_id := None;
                                           md_payload := sourceId |} |};
         pt_title := "Untitled request"; pt_icon := EmptyString;
         pt_preview := isPreview; pt_unsaved := isUnsaved; pt_closable := true |}).

Definition sampleStored : StoredValue :=
  {| sv_state :=
       {| p_tabIdSequence := 7; p_activeTabId := Some 4;
          p_tabsIndex := [("request", [("a", 2); ("b", 4); ("c", 5)])];
          p_tabs := [samplePersistedTab 2 "request" "a" false false;
                     samplePersistedTab 4 "request" "b" true true;
                     samplePersistedTab 5 "request" "c" false false];
          p_tabOrder := Some [4; 9; 2];
          p_version := 3 |};
     sv_version := Some 0 |}.

Definition staleStored : StoredValue :=
  {| sv_state :=
       {| p_tabIdSequence := 1; p_activeTabId := Some 1;
          p_tabsIndex := [("history", [("h", 1)])];
          p_tabs := [samplePersistedTab 1 "history" "h" false false];
          p_tabOrder := Some [1];
          p_version := 1 |};
     sv_version := Some 0 |}.

Definition sampleParse (text : string) : Result StoredValue :=
  if decide (text = "{sample}") then Ok sampleStored
  else if decide (text = "{stale}") then Ok staleStored
  else Throw "SyntaxError: Unexpected token".

Definition sampleStringify (v : StoredValue) : Result string :=
  if decide (sv_version v = Some 0) then Ok "{sample}"
  else Throw "TypeError: cyclic object value".

Definition sampleQuota (storage : list (string * string)) : bool :=
  bool_decide (2 < length storage)%nat.

Definition sampleSources (sourceType : string)
    : option (Metadata → AbstractTabSource) :=
  if decide (sourceType = "request") then Some (λ md, request (md_payload md))
  else None.

Definition storeName : string := "rq_tabs_store".

(** The session storage of the examples: the store's key holds the
    parsable string. *)
Definition sampleStorage : list (string * string) :=
  [("rq_tabs_store", "{sample}"); ("theme", "dark")].

(** A session storage whose entry for the store is not JSON. *)
Definition corruptStorage : list (string * string) :=
  [("rq_tabs_store", "{tabs:")].

(** A session storage whose entry names a source type that has no
    constructor any more. *)
Definition staleStorage : list (string * string) :=
  [("rq_tabs_store", "{stale}")].

(** One plain tab (id 1) and a preview tab (id 2) for source "b". *)
Definition withPreview : World :=
  run [OpenTab (request "a") None; OpenTab (request "b") asPreview] initialWorld.

(** ** The tab bar (components/TabsContainer.tsx) *)

(** [Array.prototype.splice]: where a [start] argument lands in an array of
    [len] entries (a negative one counts from the end). *)
Definition spliceStart (start : Z) (len : nat) : nat :=
  if decide (start < 0) then Z.to_nat (Z.max (Z.of_nat len + start) 0)
  else Z.to_nat (Z.min start (Z.of_nat len)).

(** Lines 108-110 of [onDragEnd] (and lines 207-209 of [moveTab] in the
    variant of the tab bar that orders the map itself):
    [const [moved] = arr.splice(from, 1); arr.splice(to, 0, moved)].
    When nothing is removed [moved] is [undefined], and that is what the
    second splice inserts: the entries of the result are optional. *)
Definition reorder {A} (from to : Z) (arr : list A) : list (option A) :=
  let a := spliceStart from (length arr) in
  let moved := arr !! a in
  let rest := take a arr ++ drop (S a) arr in
  let b := spliceStart to (length rest) in
  (Some <$> take b rest) ++ moved :: (Some <$> drop b rest).

(** Lines 79-91, the effect that follows the route.  [useMatchedTabSource]
    is a hook outside the sources: what it matched, as the source its
    factory builds, is the argument. *)
Definition syncMatchedSource (matchedTabSource : option AbstractTabSource)
    (w : World) : World :=
  let r := consumeIgnorePath w in
  match matchedTabSource with
  | None => r.2
  | Some src =>
      if r.1 then r.2
      else
        let existingTabId :=
          getTabIdBySource (getSourceId src) (getSourceName src) (store r.2) in
        if truthy existingTabId then setActiveTab existingTabId r.2
        else openTab src None r.2
  end.

(** Lines 116-166, [tabItems].  The items are memoized on
    [[tabs, tabOrder, ...]]: they are computed from the state of the store
    at the time [tabs] or [tabOrder] was last replaced, [memo] below, and
    are not computed again when only the state of a tab changes.  There is
    one item for each entry of the tab order that has a tab in the map,
    [tabOrder.map(...).filter(Boolean)]; an item carries the entry and the
    state the tab had then, [tabStore.getState()], whose [id] is its [key]. *)
Definition tabItems (memo : TabServiceState) : list (TabId * TabState) :=
  omap (λ tabId, (λ s, (tabId, s)) <$> JsMap.get tabId (tabs memo)) (tabOrder memo).

(** Line 190: [onClick={() => setActiveTab(parseInt(item.key))}], where
    [item.key] is [tabState.id.toString()] of the state the item holds. *)
Definition onTabClick (item : TabId * TabState) (w : World) : World :=
  setActiveTab (Some (id item.2)) w.

(** Lines 128-134, the double click on the title of an item:
    [if (tabState.preview) { tabState.setPreview(false); incrementVersion();
    resetPreviewTab() }].  The flag that is tested is the one of the state
    the item holds; the setter changes the tab of the item's entry in
    place, as it is in the store now. *)
Definition onDoubleClick (item : TabId * TabState) (w : World) : World :=
  if preview item.2 then
    resetPreviewTab
      (incrementVersion
         (upd (λ st, set_tabs
                       match JsMap.get item.1 (tabs st) with
                       | Some current =>
                           JsMap.set item.1 (setPreview false current) (tabs st)
                       | None => tabs st
                       end (tabOrder st) st) w))
  else w.

(** [updateTabBySource(..., { preview: false })] *)
Definition unmarkPreview : TabUpdates :=
  {| upd_preview := Some false; upd_unsaved := None;
     upd_title := None; upd_icon := None |}.

(** ** Further invariants *)

(** The active tab is a tab of the map, and [activeTabSource] is its
    source; without an active tab there is no active source. *)
Definition active_linked (st : TabServiceState) : Prop :=
  match activeTabId st with
  | Some t => ∃ tabState, JsMap.get t (tabs st) = Some tabState
                          ∧ activeTabSource st = Some (source tabState)
  | None => activeTabSource st = None
  end.

(** The keys of the tab map are distinct and each tab records its key as
    its [id]. *)
Definition keyed_by_id (st : TabServiceState) : Prop :=
  NoDup (JsMap.keys (tabs st)) ∧ Forall (λ e, id e.2 = e.1) (tabs st).

(** A source opened in a given context. *)
Definition requestIn (contextId sourceId : string) : AbstractTabSource :=
  {| type := "request";
     metadata := {| md_context_id := Some contextId; md_payload := sourceId |};
     getSourceId := sourceId; getSourceName := "request";
     getDefaultTitle := "Untitled request" |}.

(** Tabs of two workspaces: ids 1 and 3 in "team", id 2 in "private". *)
Definition mixedContexts : World :=
  run [OpenTab (requestIn "team" "a") None; OpenTab (requestIn "private" "b") None;
       OpenTab (requestIn "team" "c") None] initialWorld.

(** The actions [client_op] allows in every world. *)
Definition unconstrained_op (op : Op) : bool :=
  match op with
  | UpsertTabSource _ _ _ | UpdateTabOrder _ => false
  | _ => true
  end.

(** ** Writing the store and reading it back *)

(** The maps of the index hold each key once. *)
Definition index_keys_distinct (st : TabServiceState) : Prop :=
  NoDup (JsMap.keys (tabsIndex st))
  ∧ Forall (λ e : SourceName * list (SourceId * TabId), NoDup (JsMap.keys e.2))
      (tabsIndex st).

(** The registry of source constructors rebuilds the source of every tab
    from its declared type and its metadata. *)
Definition sources_registered
    (TAB_SOURCES_MAP : string → option (Metadata → AbstractTabSource))
    (st : TabServiceState) : Prop :=
  Forall (λ e : TabId * TabState,
            ∃ ctor, TAB_SOURCES_MAP (type (source e.2)) = Some ctor
                    ∧ ctor (metadata (source e.2)) = source e.2)
    (tabs st).

(** The tab [getItem] creates for a tab that [setItem] stored (lines
    327-334): the same identifier, source and title, and nothing else of
    the tab's state. *)
Definition rebuilt (e : TabId * TabState) : TabId * TabState :=
  (e.1, createTabStore e.1 (source e.2) (title e.2) None).

(** A parser that knows the text [sampleStringify] writes for the store
    of [twoTabs]. *)
Definition twoTabsStored : StoredValue :=
  serializable (partialize (store twoTabs)) (Some 0).

Definition twoTabsParse (text : string) : Result StoredValue :=
  if decide (text = "{sample}") then Ok twoTabsStored
  else Throw "SyntaxError: Unexpected token".

(** ** The store that keeps the tab order in the map itself

    A second version of the store is among the sources (with the tab bar
    that uses it): it has no [tabOrder]; the order of the tabs is the
    insertion order of the [tabs] map, which [setTabs] replaces.  It tests
    identifiers with [== null] where the other version tests truthiness,
    applies the [unsaved] field of an update, bumps the version when the
    preview slot changes, and its persistence adapter stores the order as
    [tabIds] and reads the preview and closable flags back.  The actions
    and the parts of the adapter that read as in the other version are not
    repeated. *)

(** Modelled from the spec: two more setters of a tab store (tabStore.ts
    is not among the sources); each changes its field. *)
Definition setUnsaved (u : bool) (s : TabState) : TabState :=
  {| id := id s; source := source s; title := title s; icon := icon s;
     preview := preview s; unsaved := u; closable := closable s;
     getActiveBlocker := getActiveBlocker s |}.

Definition setClosable (c : bool) (s : TabState) : TabState :=
  {| id := id s; source := source s; title := title s; icon := icon s;
     preview := preview s; unsaved := unsaved s; closable := c;
     getActiveBlocker := getActiveBlocker s |}.

(** ** What an action reports *)

(** What [if (contextId) setLastUsedContextId(contextId)] reports for a
    source. *)
Definition contextEffects (s : AbstractTabSource) : list Effect :=
  match md_context_id (metadata s) with
  | Some c => if decide (c ≠ EmptyString) then [SetLastUsedContextId c] else []
  | None => []
  end.

(** What [setActiveTab(i)] reports, given the tab map it looks [i] up in. *)
Definition activationEffects (i : option TabId) (m : list (TabId * TabState))
    : list Effect :=
  match i ≫= λ t, JsMap.get t m with
  | Some tabState => contextEffects (source tabState)
  | None => []
  end.

(** A prompt or a callback, as opposed to a report. *)
Definition asksUser (e : Effect) : bool :=
  match e with
  | WindowConfirm _ | Callback _ => true
  | _ => false
  end.

(** The actions that may ask: the closes made without [skipUnsavedPrompt]. *)
Definition mayAsk (op : Op) : bool :=
  match op with
  | CloseTabById _ skip _ | CloseTab _ skip _ | CloseTabBySource _ _ skip _
  | CloseAllTabs skip _ | CloseTabByContext _ skip _ => negb skip
  | _ => false
  end.

(** [w'] comes after [w] and nothing was asked in between. *)
Definition nothingAsked (w w' : World) : Prop :=
  ∃ tail, effects w' = effects w ++ tail ∧ existsb asksUser tail = false.

(** The prompt itself. *)
Definition isPrompt (e : Effect) : bool :=
  match e with WindowConfirm _ => true | _ => false end.

Section Cleanup.
(** [getActiveBlockers()] belongs to the tab store (tabStore.ts, not among
    the sources): the blockers it returns for a tab are a parameter. *)
Variable getActiveBlockers : TabState → list BlockerDetails.

(** Lines 174-178:
    [Array.from(tabs.values()).flatMap((t) => t.getState().getActiveBlockers())],
    then [blocker.details.onConfirm?.()] for each. *)
Definition cleanupCloseBlockers (w : World) : World :=
  let blockersToCleanUp := JsMap.values (tabs (store w)) ≫= getActiveBlockers in
  foldl (λ w' blocker, call (onConfirm blocker) w') w blockersToCleanUp.

(** Every call the store offers that can change the state or report
    something ([getTabIdBySource] and [getTabStateBySource] only read). *)
Inductive StoreCall :=
  | Act (op : Op)
  | CleanupCloseBlockers
  | ConsumeIgnorePath
  | GenerateNewTabId.

Definition perform (w : World) (c : StoreCall) : World :=
  match c with
  | Act op => step w op
  | CleanupCloseBlockers => cleanupCloseBlockers w
  | ConsumeIgnorePath => (consumeIgnorePath w).2
  | GenerateNewTabId => (_generateNewTabId w).2
  end.
End Cleanup.

(** The calls that may show the prompt. *)
Definition mayPrompt (c : StoreCall) : bool :=
  match c with Act op => mayAsk op | _ => false end.

(** A tab with two blockers registered, one of them without [onConfirm]. *)
Definition sampleBlockers (s : TabState) : list BlockerDetails :=
  match getActiveBlocker s with
  | Some b => [b; {| b_title := None; onCancel := None; onConfirm := None |}]
  | None => []
  end.

Module MapOrdered.

Record TabServiceState := {
  tabIdSequence : TabId;
  activeTabId : option TabId;
  activeTabSource : option AbstractTabSource;
  previewTabId : option TabId;
  previewTabSource : option AbstractTabSource;
  tabsIndex : list (SourceName * list (SourceId * TabId));
  tabs : list (TabId * TabState);
  ignorePath : bool;
  _version : Z;
}.

Definition initialState : TabServiceState :=
  {| tabIdSequence := 0; activeTabId := None; activeTabSource := None;
     previewTabId := None; previewTabSource := None;
     tabsIndex := []; tabs := []; ignorePath := false; _version := 0 |}.

Record World := {
  store : TabServiceState;
  effects : list Effect;
}.

Definition initialWorld : World := {| store := initialState; effects := [] |}.

Definition set_active (i : option TabId) (s : option AbstractTabSource)
    (st : TabServiceState) : TabServiceState :=
  {| tabIdSequence := tabIdSequence st; activeTabId := i; activeTabSource := s;
     previewTabId := previewTabId st; previewTabSource := previewTabSource st;
     tabsIndex := tabsIndex st; tabs := tabs st;
     ignorePath := ignorePath st; _version := _version st |}.

Definition set_preview (i : option TabId) (s : option AbstractTabSource)
    (st : TabServiceState) : TabServiceState :=
  {| tabIdSequence := tabIdSequence st; activeTabId := activeTabId st;
     activeTabSource := activeTabSource st;
     previewTabId := i; previewTabSource := s;
     tabsIndex := tabsIndex st; tabs := tabs st;
     ignorePath := ignorePath st; _version := _version st |}.

Definition set_tabs (m : list (TabId * TabState)) (st : TabServiceState)
    : TabServiceState :=
  {| tabIdSequence := tabIdSequence st; activeTabId := activeTabId st;
     activeTabSource := activeTabSource st;
     previewTabId := previewTabId st; previewTabSource := previewTabSource st;
     tabsIndex := tabsIndex st; tabs := m;
     ignorePath := ignorePath st; _version := _version st |}.

Definition set_tabsIndex (ix : list (SourceName * list (SourceId * TabId)))
    (st : TabServiceState) : TabServiceState :=
  {| tabIdSequence := tabIdSequence st; activeTabId := activeTabId st;
     activeTabSource := activeTabSource st;
     previewTabId := previewTabId st; previewTabSource := previewTabSource st;
     tabsIndex := ix; tabs := tabs st;
     ignorePath := ignorePath st; _version := _version st |}.

Definition set_tabIdSequence (n : TabId) (st : TabServiceState) : TabServiceState :=
  {| tabIdSequence := n; activeTabId := activeTabId st;
     activeTabSource := activeTabSource st;
     previewTabId := previewTabId st; previewTabSource := previewTabSource st;
     tabsIndex := tabsIndex st; tabs := tabs st;
     ignorePath := ignorePath st; _version := _version st |}.

Definition set_version (n : Z) (st : TabServiceState) : TabServiceState :=
  {| tabIdSequence := tabIdSequence st; activeTabId := activeTabId st;
     activeTabSource := activeTabSource st;
     previewTabId := previewTabId st; previewTabSource := previewTabSource st;
     tabsIndex := tabsIndex st; tabs := tabs st;
     ignorePath := ignorePath st; _version := n |}.

Definition upd (f : TabServiceState → TabServiceState) (w : World) : World :=
  {| store := f (store w); effects := effects w |}.

Definition emit (e : Effect) (w : World) : World :=
  {| store := store w; effects := effects w ++ [e] |}.

Definition noteContext (s : AbstractTabSource) (w : World) : World :=
  match md_context_id (metadata s) with
  | Some c => if decide (c ≠ EmptyString) then emit (SetLastUsedContextId c) w else w
  | None => w
  end.

Definition call (cb : option string) (w : World) : World :=
  match cb with Some f => emit (Callback f) w | None => w end.

Definition getTabIdBySource (sourceId : SourceId) (sourceName : SourceName)
    (st : TabServiceState) : option TabId :=
  JsMap.get sourceName (tabsIndex st) ≫= JsMap.get sourceId.

Definition incrementVersion (w : World) : World :=
  upd (λ st, set_version (_version st + 1) st) w.

Definition _generateNewTabId (w : World) : TabId * World :=
  let nextId := tabIdSequence (store w) + 1 in
  (nextId, upd (set_tabIdSequence nextId) w).

Definition setActiveTab (i : option TabId) (w : World) : World :=
  match i ≫= λ t, JsMap.get t (tabs (store w)) with
  | Some tabState =>
      noteContext (source tabState)
        (upd (set_active i (Some (source tabState))) w)
  | None => upd (set_active None None) w
  end.

(** Both [set] calls of [resetPreviewTab]. *)
Definition resetPreviewTab (w : World) : World :=
  incrementVersion (upd (set_preview None None) w).

Definition setPreviewTab (i : TabId) (w : World) : World :=
  match JsMap.get i (tabs (store w)) with
  | Some tabState =>
      incrementVersion (upd (set_preview (Some i) (Some (source tabState))) w)
  | None => resetPreviewTab w
  end.

(** [setTabs(newTabs)] *)
Definition setTabs (newTabs : list (TabId * TabState)) (w : World) : World :=
  upd (λ st, set_version (_version st + 1) (set_tabs newTabs st)) w.

(** [if (tabId == null) return]: only a missing identifier is refused. *)
Definition upsertTabSource (tabId : option TabId) (src : AbstractTabSource)
    (config : option TabConfig) (w : World) : World :=
  match tabId with
  | Some t =>
      let tab := createTabStore t src (getDefaultTitle src) (config_preview config) in
      let ix' := index_set (getSourceName src) (getSourceId src) t
                   (tabsIndex (store w)) in
      setActiveTab (Some t)
        (upd (set_tabs (JsMap.set t tab (tabs (store w))))
           (upd (set_tabsIndex ix') w))
  | None => w
  end.

Definition updateTabBySource (sourceId : SourceId) (sourceName : SourceName)
    (updates : TabUpdates) (w : World) : World :=
  match getTabIdBySource sourceId sourceName (store w) with
  | Some t =>
      match JsMap.get t (tabs (store w)) with
      | Some tabState =>
          let s1 := setTitle (default (title tabState) (upd_title updates)) tabState in
          let s2 := setPreview (default (preview tabState) (upd_preview updates)) s1 in
          let s3 := setIcon (default (icon tabState) (upd_icon updates)) s2 in
          let s4 := setUnsaved (default (unsaved tabState) (upd_unsaved updates)) s3 in
          incrementVersion (upd (λ st, set_tabs (JsMap.set t s4 (tabs st)) st) w)
      | None => w
      end
  | None => w
  end.

Definition openTab (src : AbstractTabSource) (config : option TabConfig)
    (w0 : World) : World :=
  let w := noteContext src w0 in
  let st := store w in
  let existingTabId := getTabIdBySource (getSourceId src) (getSourceName src) st in
  if truthy existingTabId then setActiveTab existingTabId w
  else if default false (config_preview config) then
    let w1 :=
      match previewTabId st, previewTabSource st with
      | Some p, Some old =>
          if decide (p = 0) then w
          else upd (set_tabsIndex
                      (index_delete (getSourceName old) (getSourceId old)
                         (tabsIndex st))) w
      | _, _ => w
      end in
    let r := match previewTabId st with
             | Some p => (p, w1)
             | None => _generateNewTabId w1
             end in
    setPreviewTab r.1 (upsertTabSource (Some r.1) src config r.2)
  else
    let r := _generateNewTabId w in
    upsertTabSource (Some r.1) src None r.2.

(** Lines 219-236 of [closeTabById]: as in the other version, with the
    keys of the map as the order. *)
Definition removeTab (tabId : TabId) (tabState : TabState) (st : TabServiceState)
    (w : World) : World :=
  let sourceName := getSourceName (source tabState) in
  let sourceId := getSourceId (source tabState) in
  let ix2 := index_prune sourceName (index_delete sourceName sourceId (tabsIndex st)) in
  let tabIds := JsMap.keys (tabs st) in
  let newTabIds := filter (λ i, i ≠ tabId) tabIds in
  setActiveTab (newActiveTabId tabId (activeTabId st) tabIds newTabIds)
    (upd (set_tabs (JsMap.delete tabId (tabs st)))
       (upd (set_tabsIndex ix2) w)).

Section Close.
Variable confirm : string → bool.

Definition closeTabById (tabId : TabId) (skipUnsavedPrompt : bool)
    (w : World) : World :=
  let st := store w in
  match JsMap.get tabId (tabs st) with
  | None => w
  | Some tabState =>
      if skipUnsavedPrompt then removeTab tabId tabState st w
      else
        let activeBlocker := getActiveBlocker tabState in
        if bool_decide (is_Some activeBlocker) || unsaved tabState then
          let message := promptMessage activeBlocker in
          let w1 := emit (WindowConfirm message) w in
          if confirm message
          then removeTab tabId tabState st (call (activeBlocker ≫= onConfirm) w1)
          else call (activeBlocker ≫= onCancel) w1
        else removeTab tabId tabState st w
  end.

(** [if (existingTabId == null) return] *)
Definition closeTab (src : AbstractTabSource) (skipUnsavedPrompt : bool)
    (w : World) : World :=
  match getTabIdBySource (getSourceId src) (getSourceName src) (store w) with
  | Some t => closeTabById t skipUnsavedPrompt w
  | None => w
  end.
End Close.

(** Lines 207-212 of [moveTab] in the tab bar: the map built from the
    reordered keys, [newTabs.set(id, tabs.get(id))] for each of them.  A
    key is [undefined] when the first splice removed nothing, and so is
    the tab stored under it. *)
Definition movedTabs (fromIndex toIndex : Z) (m : list (TabId * TabState))
    : list (option TabId * option TabState) :=
  JsMap.of_entries
    ((λ i : option TabId, (i, i ≫= λ t, JsMap.get t m))
       <$> reorder fromIndex toIndex (JsMap.keys m)).

(** Two plain tabs and a third one, as in [threeTabs]. *)
Definition threeTabs : World :=
  openTab (request "c") None
    (openTab (request "b") None (openTab (request "a") None initialWorld)).

(** The persisted format of this version: the order of the tabs is stored
    as [tabIds]; [preview] and [closable] are read back, and a stored tab
    may lack them. *)
Record PersistedTab := {
  pt_id : TabId;
  pt_source : PersistedSource;
  pt_title : string;
  pt_icon : string;
  pt_preview : option bool;
  pt_unsaved : bool;
  pt_closable : option bool;
}.

Record PersistedState := {
  p_tabIdSequence : TabId;
  p_activeTabId : option TabId;
  p_tabsIndex : list (SourceName * list (SourceId * TabId));
  p_tabs : list (TabId * PersistedTab);
  p_tabIds : option (list TabId);
  p_version : Z;
}.

Record StoredValue := {
  sv_state : PersistedState;
  sv_version : option Z;
}.

Record HydratedState := {
  h_tabIdSequence : TabId;
  h_activeTabId : option TabId;
  h_tabsIndex : list (SourceName * list (SourceId * TabId));
  h_tabs : list (TabId * TabState);
  h_activeTabSource : option AbstractTabSource;
  h_version : Z;
}.

(** Lines 351-354 of [getItem]:
    [ids.forEach((id) => { if (tabs.has(id)) finalTabs.set(id, tabs.get(id)) })]. *)
Definition finalTabs (tabs' : list (TabId * TabState)) (ids : list TabId)
    : list (TabId * TabState) :=
  foldl (λ m i, match JsMap.get i tabs' with
                | Some s => JsMap.set i s m
                | None => m
                end) [] ids.

Section Persistence.
Variable JSON_parse : string → Result StoredValue.
Variable TAB_SOURCES_MAP : string → option (Metadata → AbstractTabSource).

Definition rebuildTab (e : TabId * PersistedTab) : Result (TabId * TabState) :=
  rbind (newSource TAB_SOURCES_MAP (pt_source e.2))
    (λ src, Ok (e.1, setClosable (default true (pt_closable e.2))
                       (createTabStore e.1 src (pt_title e.2) (pt_preview e.2)))).

Definition getItem (name : string) (storage : list (string * string))
    : Result (option (HydratedState * option Z)) :=
  rethrow getItemFailed
    (match JsMap.get name storage with
     | None => Ok None
     | Some stateString =>
         if decide (stateString = EmptyString) then Ok None
         else
           rbind (JSON_parse stateString) (λ existingValue,
             let ps := sv_state existingValue in
             let tabsIndex' :=
               JsMap.of_entries
                 ((λ e : SourceName * list (SourceId * TabId),
                     (e.1, JsMap.of_entries e.2)) <$> p_tabsIndex ps) in
             rbind (rmap rebuildTab (p_tabs ps)) (λ entries,
               let tabs' := JsMap.of_entries entries in
               let activeTabId' := p_activeTabId ps in
               let activeTabSource' :=
                 if truthy activeTabId'
                 then source <$> (activeTabId' ≫= λ t, JsMap.get t tabs')
                 else None in
               let storedTabIds := default [] (p_tabIds ps) in
               let validTabIds := JsMap.keys tabs' in
               Ok (Some
                     ({| h_tabIdSequence := p_tabIdSequence ps;
                         h_activeTabId := activeTabId';
                         h_tabsIndex := tabsIndex';
                         h_tabs := finalTabs tabs'
                                     (finalTabOrder storedTabIds validTabIds);
                         h_activeTabSource := activeTabSource';
                         h_version := p_version ps |},
                      sv_version existingValue))))
     end).
End Persistence.

(** A stored value of this version: tabs 2, 4 and 5, of which 4 was a
    preview tab and 5 could not be closed, and an order that names a
    tab that is gone. *)
Definition storedTab (i : TabId) (sourceId : string)
    (isPreview isClosable : option bool) : TabId * PersistedTab :=
  (i, {| pt_id := i;
         pt_source := {| ps_type := "request";
                         ps_metadata := {| md_context_id := None;
                                           md_payload := sourceId |} |};
         pt_title := "Untitled request"; pt_icon := EmptyString;
         pt_preview := isPreview; pt_unsaved := true; pt_closable := isClosable |}).

Definition sampleStored : StoredValue :=
  {| sv_state :=
       {| p_tabIdSequence := 7; p_activeTabId := Some 4;
          p_tabsIndex := [("request", [("a", 2); ("b", 4); ("c", 5)])];
          p_tabs := [storedTab 2 "a" None None;
                     storedTab 4 "b" (Some true) (Some true);
                     storedTab 5 "c" (Some false) (Some false)];
          p_tabIds := Some [4; 9; 2];
          p_version := 3 |};
     sv_version := Some 0 |}.

Definition sampleParse (text : string) : Result StoredValue :=
  if decide (text = "{sample}") then Ok sampleStored
  else Throw "SyntaxError: Unexpected token".

End MapOrdered.

(** ** The store under [persist]

    The store is created inside zustand's [persist] middleware (a
    dependency, not part of the repository), which hands the creator a
    [set] that updates the state and then calls
    [storage.setItem(name, { state: partialize(get()), version })], the
    version being 0 when the options give none, as here.  The call is made
    in the [set] itself and nothing around it catches: what [setItem]
    throws leaves the [set], and the action that called it, with the state
    already updated.  Reads of the state and changes made in place to the
    maps write nothing. *)

(** The store together with the session storage of the browser. *)
Record Session := {
  world : World;
  session : list (string * string);
}.

(** How a call ends: it returns, or it throws; either way it leaves a
    store and a storage behind. *)
Inductive Outcome (A : Type) :=
  | Returned (a : A) (s : Session)
  | Thrown (error : string) (s : Session).
Arguments Returned {A} a s.
Arguments Thrown {A} error s.

Definition Action (A : Type) : Type := Session → Outcome A.

#[global] Instance action_ret : MRet Action := λ A a s, Returned a s.

#[global] Instance action_bind : MBind Action :=
  λ A B k m s,
    match m s with
    | Returned a s' => k a s'
    | Thrown e s' => Thrown e s'
    end.

Module Persisted.
Section persist.
Variable JSON_stringify : StoredValue → Result string.
Variable quotaExceeded : list (string * string) → bool.
Variable name : string.

(** [get()] *)
Definition getState : Action TabServiceState :=
  λ s, Returned (store (world s)) s.

(** What writes nothing: a change made in place, a report, a callback. *)
Definition lift (f : World → World) : Action unit :=
  λ s, Returned tt {| world := f (world s); session := session s |}.

Definition mutate (f : TabServiceState → TabServiceState) : Action unit :=
  lift (upd f).

(** The [set] of the middleware: the state is updated, then written. *)
Definition setState (f : TabServiceState → TabServiceState) : Action unit :=
  λ s,
    let w' := upd f (world s) in
    match setItem JSON_stringify quotaExceeded name (partialize (store w'))
            (Some 0) (session s) with
    | Ok session' => Returned tt {| world := w'; session := session' |}
    | Throw e => Thrown e {| world := w'; session := session s |}
    end.

Definition _generateNewTabId : Action TabId :=
  st ← getState;
  let nextId := tabIdSequence st + 1 in
  setState (set_tabIdSequence nextId);;
  mret nextId.

Definition setActiveTab (i : option TabId) : Action unit :=
  st ← getState;
  match i ≫= λ t, JsMap.get t (tabs st) with
  | Some tabState =>
      setState (set_active i (Some (source tabState)));;
      lift (noteContext (source tabState))
  | None => setState (set_active None None)
  end.

Definition resetPreviewTab : Action unit := setState (set_preview None None).

Definition setPreviewTab (i : TabId) : Action unit :=
  st ← getState;
  match JsMap.get i (tabs st) with
  | Some tabState => setState (set_preview (Some i) (Some (source tabState)))
  | None => resetPreviewTab
  end.

(** The index and the tab map are changed in place (lines 99-105), then
    [set({ tabs: new Map(tabs), tabOrder: newTabOrder })]. *)
Definition upsertTabSource (tabId : option TabId) (src : AbstractTabSource)
    (config : option TabConfig) : Action unit :=
  match tabId with
  | Some t =>
      if decide (t = 0) then mret tt
      else
        st ← getState;
        let tab := createTabStore t src (getDefaultTitle src) (config_preview config) in
        let tabs' := JsMap.set t tab (tabs st) in
        let order := tabOrder st in
        let newTabOrder := if includes t order then order else order ++ [t] in
        mutate (set_tabsIndex
                  (index_set (getSourceName src) (getSourceId src) t (tabsIndex st)));;
        mutate (set_tabs tabs' order);;
        setState (set_tabs tabs' newTabOrder);;
        setActiveTab (Some t)
  | None => mret tt
  end.

Definition openTab (src : AbstractTabSource) (config : option TabConfig)
    : Action unit :=
  lift (noteContext src);;
  st ← getState;
  let existingTabId := getTabIdBySource (getSourceId src) (getSourceName src) st in
  if truthy existingTabId then setActiveTab existingTabId
  else if default false (config_preview config) then
    lift (evictPreviewSource st);;
    tabId ← match previewTabId st with
            | Some p => mret p
            | None => _generateNewTabId
            end;
    upsertTabSource (Some tabId) src config;;
    setPreviewTab tabId
  else
    newTabId ← _generateNewTabId;
    upsertTabSource (Some newTabId) src None.

Section Close.
Variable confirm : string → bool.

(** Lines 215-232: the index and the tab map are changed in place, then
    [set({ tabs: new Map(tabs), tabOrder: newTabOrder })], then
    [setActiveTab(newActiveTabId)]. *)
Definition removeTab (tabId : TabId) (tabState : TabState) (st : TabServiceState)
    : Action unit :=
  let sourceName := getSourceName (source tabState) in
  let sourceId := getSourceId (source tabState) in
  let ix2 := index_prune sourceName (index_delete sourceName sourceId (tabsIndex st)) in
  let newTabOrder := filter (λ i, i ≠ tabId) (tabOrder st) in
  let tabs' := JsMap.delete tabId (tabs st) in
  mutate (set_tabsIndex ix2);;
  mutate (set_tabs tabs' (tabOrder st));;
  setState (set_tabs tabs' newTabOrder);;
  setActiveTab (newActiveTabId tabId (activeTabId st) (tabOrder st) newTabOrder).

Definition closeTabById (tabId : TabId) (skipUnsavedPrompt : bool) : Action unit :=
  st ← getState;
  match JsMap.get tabId (tabs st) with
  | None => mret tt
  | Some tabState =>
      if skipUnsavedPrompt then removeTab tabId tabState st
      else
        let activeBlocker := getActiveBlocker tabState in
        if bool_decide (is_Some activeBlocker) || unsaved tabState then
          let message := promptMessage activeBlocker in
          lift (emit (WindowConfirm message));;
          if confirm message
          then lift (call (activeBlocker ≫= onConfirm));;
               removeTab tabId tabState st
          else lift (call (activeBlocker ≫= onCancel))
        else removeTab tabId tabState st
  end.
End Close.
End persist.
End Persisted.

(** The headline of the persistence claim, as the specification words
    it: a write that fails is reported but does not abort the caller, and
    the registry is not corrupted.  Whatever [JSON.stringify] and the
    storage do, an action returns, and it leaves the store it leaves when
    nothing is written. *)
Definition write_failures_do_not_corrupt_state : Prop :=
  ∀ (JSON_stringify : StoredValue → Result string)
    (quotaExceeded : list (string * string) → bool)
    (src : AbstractTabSource) (config : option TabConfig) (s : Session),
    ∃ s', Persisted.openTab JSON_stringify quotaExceeded storeName src config s
          = Returned tt s'
          ∧ store (world s') = store (openTab src config (world s)).

(** The call returns [a] and leaves the world [w]. *)
Definition returnsWorld {A} (o : Outcome A) (a : A) (w : World) : Prop :=
  ∃ session', o = Returned a {| world := w; session := session' |}.

(** A session storage that accepts nothing more. *)
Definition fullQuota (storage : list (string * string)) : bool := true.

(** * Properties *)

(** Reading a field of a state built by the setters, without unfolding
    the actions. *)
Ltac fields :=
  cbn [set_preview set_active set_tabs set_tabsIndex set_tabIdSequence
       set_version set_ignorePath tabs tabsIndex tabOrder tabIdSequence
       previewTabId previewTabSource activeTabId activeTabSource _version
       ignorePath store upd emit effects fst snd].

(** ** Facts about [JsMap] *)

Section jsmap_facts.
Context {K V : Type} `{EqDecision K}.
Implicit Types (k : K) (v : V) (m : list (K * V)).

Lemma jsmap_get_set_eq k v m : JsMap.get k (JsMap.set k v m) = Some v.
Proof.
  induction m as [|[k' v'] m IH]; simpl.
  - by rewrite decide_True.
  - destruct (decide (k = k')); simpl.
    + by rewrite decide_True.
    + by rewrite decide_False.
Qed.

Lemma jsmap_get_set_ne k k' v m :
  k ≠ k' → JsMap.get k' (JsMap.set k v m) = JsMap.get k' m.
Proof.
  intros Hne. induction m as [|[k0 v0] m IH]; simpl.
  - by rewrite decide_False.
  - destruct (decide (k = k0)) as [->|]; simpl.
    + by rewrite !decide_False.
    + by rewrite IH.
Qed.

Lemma jsmap_get_delete_eq k m : JsMap.get k (JsMap.delete k m) = None.
Proof.
  unfold JsMap.delete. induction m as [|[k' v'] m IH]; [done|].
  rewrite filter_cons. simpl. destruct (decide (k' ≠ k)); simpl; [|done].
  by rewrite decide_False.
Qed.

Lemma jsmap_get_delete_ne k k' m :
  k ≠ k' → JsMap.get k' (JsMap.delete k m) = JsMap.get k' m.
Proof.
  intros Hne. unfold JsMap.delete. induction m as [|[k0 v0] m IH]; [done|].
  rewrite filter_cons. simpl. destruct (decide (k0 ≠ k)) as [|Heq]; simpl.
  - by rewrite IH.
  - apply dec_stable in Heq. subst k0. by rewrite decide_False.
Qed.

Lemma jsmap_elem_of_keys k m : k ∈ JsMap.keys m ↔ is_Some (JsMap.get k m).
Proof.
  unfold JsMap.keys. induction m as [|[k' v'] m IH]; simpl.
  - rewrite elem_of_nil. split; [done|]. by intros [? ?].
  - rewrite elem_of_cons. destruct (decide (k = k')) as [->|].
    + split; [eauto|by left].
    + rewrite IH. split; [by intros [?|?]|by right].
Qed.

Lemma jsmap_get_None k m : JsMap.get k m = None ↔ k ∉ JsMap.keys m.
Proof. rewrite jsmap_elem_of_keys, eq_None_not_Some. done. Qed.

Lemma jsmap_keys_set k v m :
  JsMap.keys (JsMap.set k v m)
  = if decide (k ∈ JsMap.keys m) then JsMap.keys m else JsMap.keys m ++ [k].
Proof.
  unfold JsMap.keys. induction m as [|[k' v'] m IH]; [done|].
  cbn [JsMap.set]. rewrite (fmap_cons fst (k', v') m). cbn [fst].
  destruct (decide (k = k')) as [->|Hne].
  - rewrite decide_True by left. by rewrite fmap_cons.
  - rewrite fmap_cons, IH. cbn [fst]. destruct (decide (k ∈ m.*1)).
    + rewrite decide_True; [done|by right].
    + rewrite decide_False; [done|]. rewrite elem_of_cons. by intros [?|?].
Qed.

Lemma jsmap_keys_delete k m :
  JsMap.keys (JsMap.delete k m) = filter (λ k', k' ≠ k) (JsMap.keys m).
Proof.
  unfold JsMap.keys, JsMap.delete. induction m as [|[k' v'] m IH]; [done|].
  rewrite fmap_cons, !filter_cons. cbn [fst].
  destruct (decide (k' ≠ k)); [rewrite fmap_cons; cbn [fst]|]; by rewrite IH.
Qed.

Lemma jsmap_keys_set_elem k k' v m :
  k' ∈ JsMap.keys (JsMap.set k v m) ↔ k' = k ∨ k' ∈ JsMap.keys m.
Proof.
  rewrite jsmap_keys_set. destruct (decide (k ∈ JsMap.keys m)).
  - split; [by right|by intros [->|?]].
  - rewrite elem_of_app, list_elem_of_singleton. tauto.
Qed.

Lemma jsmap_keys_delete_elem k k' m :
  k' ∈ JsMap.keys (JsMap.delete k m) ↔ k' ≠ k ∧ k' ∈ JsMap.keys m.
Proof. rewrite jsmap_keys_delete, list_elem_of_filter. done. Qed.

Lemma jsmap_NoDup_set k v m :
  NoDup (JsMap.keys m) → NoDup (JsMap.keys (JsMap.set k v m)).
Proof.
  intros Hnd. rewrite jsmap_keys_set. destruct (decide (k ∈ JsMap.keys m)); [done|].
  apply NoDup_app. split_and!; [done| |apply NoDup_singleton].
  intros x Hx ->%list_elem_of_singleton. done.
Qed.


Lemma jsmap_NoDup_of_entries (l : list (K * V)) :
  NoDup (JsMap.keys (JsMap.of_entries l)).
Proof.
  unfold JsMap.of_entries.
  assert (∀ m, NoDup (JsMap.keys m) →
            NoDup (JsMap.keys (foldl (λ m kv, JsMap.set kv.1 kv.2 m) m l))) as Hgen.
  { induction l as [|[k v] l IH]; intros m Hm; simpl; [done|].
    apply IH. by apply jsmap_NoDup_set. }
  apply Hgen. constructor.
Qed.

Lemma jsmap_get_elem_of k v m : JsMap.get k m = Some v → (k, v) ∈ m.
Proof.
  induction m as [|[k' v'] m IH]; simpl; [done|].
  destruct (decide (k = k')) as [->|].
  - intros [= ->]. by left.
  - intros Hg. right. by apply IH.
Qed.

Lemma jsmap_elem_of_get k v m :
  NoDup (JsMap.keys m) → (k, v) ∈ m → JsMap.get k m = Some v.
Proof.
  unfold JsMap.keys. induction m as [|[k' v'] m IH]; simpl.
  - intros _ []%elem_of_nil.
  - intros [Hk Hnd]%NoDup_cons [[= -> ->]|Hin]%elem_of_cons.
    + by rewrite decide_True.
    + rewrite decide_False; [by apply IH|].
      intros ->. apply Hk. apply list_elem_of_fmap. by exists (k', v).
Qed.
End jsmap_facts.

(** ** What the small actions leave alone *)

Lemma store_noteContext s w : store (noteContext s w) = store w.
Proof.
  unfold noteContext. destruct (md_context_id (metadata s)); [|done].
  by case_decide.
Qed.

Lemma store_call cb w : store (call cb w) = store w.
Proof. by destruct cb. Qed.

Lemma store_setActiveTab i w :
  store (setActiveTab i w)
  = match i ≫= λ t, JsMap.get t (tabs (store w)) with
    | Some tabState => set_active i (Some (source tabState)) (store w)
    | None => set_active None None (store w)
    end.
Proof.
  unfold setActiveTab. destruct (i ≫= _); [|done].
  by rewrite store_noteContext.
Qed.

Lemma store_setPreviewTab i w :
  store (setPreviewTab i w)
  = match JsMap.get i (tabs (store w)) with
    | Some tabState => set_preview (Some i) (Some (source tabState)) (store w)
    | None => set_preview None None (store w)
    end.
Proof. unfold setPreviewTab. by destruct (JsMap.get _ _). Qed.

Lemma setActiveTab_frame i w :
  let st' := store (setActiveTab i w) in
  tabs st' = tabs (store w) ∧ tabsIndex st' = tabsIndex (store w)
  ∧ tabOrder st' = tabOrder (store w)
  ∧ tabIdSequence st' = tabIdSequence (store w)
  ∧ previewTabId st' = previewTabId (store w)
  ∧ previewTabSource st' = previewTabSource (store w)
  ∧ _version st' = _version (store w).
Proof. cbv zeta. rewrite store_setActiveTab. by destruct (i ≫= _). Qed.

Lemma setPreviewTab_frame i w :
  let st' := store (setPreviewTab i w) in
  tabs st' = tabs (store w) ∧ tabsIndex st' = tabsIndex (store w)
  ∧ tabOrder st' = tabOrder (store w)
  ∧ tabIdSequence st' = tabIdSequence (store w)
  ∧ activeTabId st' = activeTabId (store w).
Proof. cbv zeta. rewrite store_setPreviewTab. by destruct (JsMap.get _ _). Qed.

Lemma store_upsertTabSource t src config w :
  t ≠ 0 →
  store (upsertTabSource (Some t) src config w)
  = set_active (Some t) (Some src)
      (set_tabs
         (JsMap.set t (createTabStore t src (getDefaultTitle src)
                         (config_preview config)) (tabs (store w)))
         (if includes t (tabOrder (store w)) then tabOrder (store w)
          else tabOrder (store w) ++ [t])
         (set_tabsIndex
            (index_set (getSourceName src) (getSourceId src) t
               (tabsIndex (store w)))
            (store w))).
Proof.
  intros Hne. unfold upsertTabSource. rewrite decide_False by done.
  rewrite store_setActiveTab. cbn [upd store set_tabs set_tabsIndex tabs mbind option_bind].
  by rewrite jsmap_get_set_eq.
Qed.

Lemma upsertTabSource_falsy t src config w :
  truthy t = false → upsertTabSource t src config w = w.
Proof.
  unfold upsertTabSource, truthy. destruct t as [t|]; [|done].
  intros Ht. apply bool_decide_eq_false in Ht. apply dec_stable in Ht.
  by rewrite decide_True.
Qed.

(** ** The order invariant *)

Lemma order_inv_ext st st' :
  tabs st' = tabs st → tabOrder st' = tabOrder st → order_inv st → order_inv st'.
Proof. unfold order_inv. by intros -> ->. Qed.

Lemma order_inv_upsert t src config w :
  order_inv (store w) → order_inv (store (upsertTabSource t src config w)).
Proof.
  intros [Hnd Hkeys].
  destruct (truthy t) eqn:Ht.
  2:{ by rewrite upsertTabSource_falsy. }
  destruct t as [t|]; [|done]. apply bool_decide_eq_true in Ht.
  rewrite store_upsertTabSource by done.
  unfold order_inv. cbn [set_active set_tabs tabs tabOrder].
  unfold includes. case_bool_decide as Hin.
  - split; [done|]. intros x. rewrite jsmap_keys_set_elem, Hkeys.
    split; [by right|]. intros [->|?]; [by apply Hkeys|done].
  - split.
    + apply NoDup_app. split_and!; [done| |apply NoDup_singleton].
      by intros x Hx ->%list_elem_of_singleton.
    + intros x. rewrite jsmap_keys_set_elem, elem_of_app, list_elem_of_singleton, Hkeys.
      tauto.
Qed.

Lemma store_removeTab_tabs tabId tabState st w :
  tabs (store (removeTab tabId tabState st w)) = JsMap.delete tabId (tabs st)
  ∧ tabOrder (store (removeTab tabId tabState st w))
    = filter (λ i, i ≠ tabId) (tabOrder st).
Proof.
  unfold removeTab. cbv zeta.
  match goal with |- context [setActiveTab ?i ?w'] =>
    destruct (setActiveTab_frame i w') as (-> & _ & -> & _) end.
  done.
Qed.

Lemma closeTabById_cases confirm t skip w :
  store (closeTabById confirm t skip w) = store w
  ∨ ∃ tabState w',
      JsMap.get t (tabs (store w)) = Some tabState ∧ store w' = store w
      ∧ closeTabById confirm t skip w = removeTab t tabState (store w) w'.
Proof.
  unfold closeTabById. cbv zeta.
  destruct (JsMap.get t (tabs (store w))) as [tabState|] eqn:Hget; [|by left].
  destruct skip.
  { right. by exists tabState, w. }
  destruct (bool_decide (is_Some (getActiveBlocker tabState)) || unsaved tabState).
  2:{ right. by exists tabState, w. }
  destruct (confirm _).
  - right. eexists tabState, _. split_and!; [done| |done].
    by rewrite store_call.
  - left. by rewrite store_call.
Qed.

(** A property of the store that each [closeTabById] keeps is kept by a
    series of them. *)
Lemma closeTabById_series {A} (P : TabServiceState → Prop) confirm skip
    (f : A → TabId) (l : list A) (w : World) :
  (∀ t w', P (store w') → P (store (closeTabById confirm t skip w'))) →
  P (store w) →
  P (store (foldl (λ w' x, closeTabById confirm (f x) skip w') w l)).
Proof.
  intros Hstep. revert w. induction l as [|x l IH]; intros w Hw; simpl; [done|].
  apply IH. by apply Hstep.
Qed.

Lemma order_inv_removeTab t tabState w w' :
  order_inv (store w) → order_inv (store (removeTab t tabState (store w) w')).
Proof.
  intros [Hnd Hkeys].
  destruct (store_removeTab_tabs t tabState (store w) w') as [Ht Ho].
  unfold order_inv. rewrite Ht, Ho. split.
  - by apply NoDup_filter.
  - intros x. rewrite jsmap_keys_delete_elem, list_elem_of_filter, Hkeys. done.
Qed.

Lemma order_inv_closeTabById confirm t skip w :
  order_inv (store w) → order_inv (store (closeTabById confirm t skip w)).
Proof.
  intros Hinv.
  destruct (closeTabById_cases confirm t skip w) as [->|(tabState & w' & _ & _ & ->)];
    [done|].
  by apply order_inv_removeTab.
Qed.

Lemma evictPreviewSource_frame st w :
  let st' := store (evictPreviewSource st w) in
  tabs st' = tabs (store w) ∧ tabOrder st' = tabOrder (store w)
  ∧ tabIdSequence st' = tabIdSequence (store w)
  ∧ previewTabId st' = previewTabId (store w)
  ∧ previewTabSource st' = previewTabSource (store w)
  ∧ activeTabId st' = activeTabId (store w).
Proof.
  cbv zeta. unfold evictPreviewSource.
  destruct (previewTabId st), (previewTabSource st); try done.
  by case_decide.
Qed.

Lemma previewOrNewTabId_frame st w :
  let st' := store (previewOrNewTabId st w).2 in
  tabs st' = tabs (store w) ∧ tabOrder st' = tabOrder (store w)
  ∧ tabsIndex st' = tabsIndex (store w)
  ∧ previewTabId st' = previewTabId (store w)
  ∧ previewTabSource st' = previewTabSource (store w)
  ∧ activeTabId st' = activeTabId (store w).
Proof. cbv zeta. unfold previewOrNewTabId. by destruct (previewTabId st). Qed.

Lemma order_inv_openTab src config w :
  order_inv (store w) → order_inv (store (openTab src config w)).
Proof.
  intros Hinv. unfold openTab. cbv zeta.
  destruct (truthy _).
  { match goal with |- context [setActiveTab ?i ?w'] =>
      destruct (setActiveTab_frame i w') as (Ht & _ & Ho & _) end.
    eapply order_inv_ext; [exact Ht|exact Ho|]. by rewrite store_noteContext. }
  destruct (default false (config_preview config)).
  - match goal with |- context [setPreviewTab ?i ?w'] =>
      destruct (setPreviewTab_frame i w') as (Ht & _ & Ho & _) end.
    eapply order_inv_ext; [exact Ht|exact Ho|].
    apply order_inv_upsert.
    match goal with |- context [previewOrNewTabId ?st' ?w'] =>
      destruct (previewOrNewTabId_frame st' w') as (Ht2 & Ho2 & _) end.
    eapply order_inv_ext; [exact Ht2|exact Ho2|].
    match goal with |- context [evictPreviewSource ?st' ?w'] =>
      destruct (evictPreviewSource_frame st' w') as (Ht1 & Ho1 & _) end.
    eapply order_inv_ext; [exact Ht1|exact Ho1|].
    by rewrite store_noteContext.
  - apply order_inv_upsert. eapply order_inv_ext; [..|exact Hinv];
      simpl; by rewrite store_noteContext.
Qed.

Lemma order_inv_updateTabOrder newOrder w :
  newOrder ≡ₚ tabOrder (store w) →
  order_inv (store w) → order_inv (store (updateTabOrder newOrder w)).
Proof.
  intros Hperm [Hnd Hkeys]. unfold order_inv. simpl. split.
  - by rewrite Hperm.
  - intros x. by rewrite Hperm.
Qed.

Lemma order_invb_sound st : order_invb st = true → order_inv st.
Proof.
  unfold order_invb. intros (Hnd & Ho & Hk)%bool_decide_eq_true.
  split; [done|]. intros t. rewrite Forall_forall in Ho, Hk. split; auto.
Qed.

(** C6. Every registry operation ([openTab], [upsertTabSource],
    [closeTabById], and [updateTabOrder] when the new order is a permutation
    of the current one) preserves the invariant that [tabOrder] contains
    exactly the keys of the [tabs] map, with no duplicates. *)
Theorem registry_ops_preserve_order_inv (w : World) :
  order_inv (store w) →
  (∀ src config, order_inv (store (openTab src config w)))
  ∧ (∀ tabId src config, order_inv (store (upsertTabSource tabId src config w)))
  ∧ (∀ confirm tabId skip, order_inv (store (closeTabById confirm tabId skip w)))
  ∧ (∀ newOrder, newOrder ≡ₚ tabOrder (store w) →
       order_inv (store (updateTabOrder newOrder w))).
Proof.
  intros Hinv. split_and!.
  - intros. by apply order_inv_openTab.
  - intros. by apply order_inv_upsert.
  - intros. by apply order_inv_closeTabById.
  - intros. by apply order_inv_updateTabOrder.
Qed.

Lemma registry_ops_preserve_order_inv_witness :
  order_inv (store threeTabs)
  ∧ order_inv (store (openTab (request "d") asPreview threeTabs))
  ∧ order_inv (store (closeTabById (λ _, true) 2 false threeTabs))
  ∧ order_inv (store (updateTabOrder [3; 1; 2] threeTabs)).
Proof.
  assert (order_inv (store threeTabs)) as Hinv.
  { apply order_invb_sound. vm_compute. reflexivity. }
  destruct (registry_ops_preserve_order_inv threeTabs Hinv) as (Ho & _ & Hc & Hu).
  split_and!; [exact Hinv|apply Ho|apply Hc|apply Hu].
  vm_compute. apply (Permutation_cons_append [1; 2] 3).
Defined.

(** ** Opening a source that is already indexed *)

Lemma index_resolvesb_sound st : index_resolvesb st = true → index_resolves st.
Proof.
  unfold index_resolvesb, index_resolves, getTabIdBySource.
  intros Hall%bool_decide_eq_true sourceId sourceName t Hget.
  rewrite Forall_forall in Hall.
  destruct (JsMap.get sourceName (tabsIndex st)) as [sm|] eqn:Hsm; [|done].
  apply jsmap_get_elem_of in Hsm. apply jsmap_get_elem_of in Hget.
  specialize (Hall _ Hsm). rewrite Forall_forall in Hall.
  exact (Hall _ Hget).
Qed.

Lemma openTab_existing src config w t tabState :
  getTabIdBySource (getSourceId src) (getSourceName src) (store w) = Some t →
  t ≠ 0 →
  JsMap.get t (tabs (store w)) = Some tabState →
  store (openTab src config w)
  = set_active (Some t) (Some (source tabState)) (store w).
Proof.
  intros Hidx Hne Hget. unfold openTab. cbv zeta.
  rewrite store_noteContext, Hidx. unfold truthy.
  rewrite bool_decide_eq_true_2 by done.
  rewrite store_setActiveTab, store_noteContext. simpl. by rewrite Hget.
Qed.

(** C1. For every state (of the data model: every entry of the source
    index resolves to an existing tab) and every source whose
    (sourceName, sourceId) pair is present in the source index, [openTab]
    with that source only sets the existing tab active: [tabs],
    [tabsIndex], [tabOrder], [tabIdSequence], [previewTabId] and
    [previewTabSource] are unchanged, no tab is created, and [activeTabId]
    becomes the existing tab's id. *)
Theorem openTab_indexed_source_only_activates
    (w : World) (src : AbstractTabSource) (config : option TabConfig) (t : TabId) :
  index_resolves (store w) →
  getTabIdBySource (getSourceId src) (getSourceName src) (store w) = Some t →
  let st' := store (openTab src config w) in
  tabs st' = tabs (store w)
  ∧ tabsIndex st' = tabsIndex (store w)
  ∧ tabOrder st' = tabOrder (store w)
  ∧ tabIdSequence st' = tabIdSequence (store w)
  ∧ previewTabId st' = previewTabId (store w)
  ∧ previewTabSource st' = previewTabSource (store w)
  ∧ activeTabId st' = Some t
  ∧ ∃ tabState, JsMap.get t (tabs (store w)) = Some tabState
                ∧ activeTabSource st' = Some (source tabState).
Proof.
  intros Hres Hidx. destruct (Hres _ _ _ Hidx) as [Hne [tabState Hget]].
  cbv zeta. rewrite (openTab_existing src config w t tabState) by done.
  split_and!; try done. by exists tabState.
Qed.

Lemma openTab_indexed_source_only_activates_witness :
  let st' := store (openTab (request "a") None twoTabs) in
  tabs st' = tabs (store twoTabs)
  ∧ tabsIndex st' = tabsIndex (store twoTabs)
  ∧ tabOrder st' = tabOrder (store twoTabs)
  ∧ tabIdSequence st' = tabIdSequence (store twoTabs)
  ∧ previewTabId st' = previewTabId (store twoTabs)
  ∧ previewTabSource st' = previewTabSource (store twoTabs)
  ∧ activeTabId st' = Some 1
  ∧ ∃ tabState, JsMap.get 1 (tabs (store twoTabs)) = Some tabState
                ∧ activeTabSource st' = Some (source tabState).
Proof.
  apply (openTab_indexed_source_only_activates twoTabs (request "a") None 1).
  - apply index_resolvesb_sound. vm_compute. reflexivity.
  - vm_compute. reflexivity.
Defined.

(** ** Closing the active tab *)

Lemma indexOf_middle (x : TabId) (pre post : list TabId) :
  x ∉ pre → indexOf x (pre ++ x :: post) = Z.of_nat (length pre).
Proof.
  intros Hx. unfold indexOf.
  assert (list_find (λ y, y = x) (pre ++ x :: post) = Some (length pre, x)) as ->; [|done].
  apply list_find_Some. split_and!.
  - by rewrite list_lookup_middle.
  - done.
  - intros j y Hj Hlt ->. apply Hx.
    rewrite lookup_app_l in Hj by done. by eapply list_elem_of_lookup_2.
Qed.

Lemma indexOf_absent (x : TabId) (l : list TabId) : x ∉ l → indexOf x l = -1.
Proof.
  intros Hx. unfold indexOf.
  assert (list_find (λ y, y = x) l = None) as ->; [|done].
  apply list_find_None. apply Forall_forall. by intros y Hy ->.
Qed.

Lemma filter_ne_absent (x : TabId) (l : list TabId) :
  x ∉ l → filter (λ i, i ≠ x) l = l.
Proof.
  induction l as [|y l IH]; [done|]. intros Hx. apply not_elem_of_cons in Hx as [Hxy Hxl].
  rewrite filter_cons, decide_True by done. by rewrite IH.
Qed.

Lemma filter_drop_middle (x : TabId) (pre post : list TabId) :
  NoDup (pre ++ x :: post) →
  filter (λ i, i ≠ x) (pre ++ x :: post) = pre ++ post.
Proof.
  intros (Hpre & Hnin & Hpost)%NoDup_app.
  apply NoDup_cons in Hpost as [Hxpost Hpost].
  rewrite filter_app, filter_cons, decide_False by (intros ?; done).
  f_equal; apply filter_ne_absent; [|done].
  intros Hx. apply (Hnin x Hx). by left.
Qed.

Lemma closeTabById_unblocked confirm tabId tabState skip w :
  JsMap.get tabId (tabs (store w)) = Some tabState →
  skip = true ∨ (getActiveBlocker tabState = None ∧ unsaved tabState = false) →
  closeTabById confirm tabId skip w = removeTab tabId tabState (store w) w.
Proof.
  intros Hget Hskip. unfold closeTabById. cbv zeta. rewrite Hget.
  destruct skip; [done|]. destruct Hskip as [|[-> ->]]; done.
Qed.

(** C2. For every state (of the data model: [tabOrder] lists exactly the
    keys of [tabs], once each) in which the active tab is closed with
    [skipUnsavedPrompt] true or with no blocker and no unsaved flag,
    [closeTabById] activates the tab that takes the closed tab's position
    in the new order; if the closed tab was last, it activates the previous
    tab; if the registry becomes empty, [activeTabId] becomes undefined.
    With at least two tabs some tab is active afterwards. *)
Theorem closeTabById_activates_neighbour
    (confirm : string → bool) (w : World) (tabId : TabId) (tabState : TabState)
    (skip : bool) (pre post : list TabId) :
  order_inv (store w) →
  JsMap.get tabId (tabs (store w)) = Some tabState →
  activeTabId (store w) = Some tabId →
  skip = true ∨ (getActiveBlocker tabState = None ∧ unsaved tabState = false) →
  tabOrder (store w) = pre ++ tabId :: post →
  let st' := store (closeTabById confirm tabId skip w) in
  tabOrder st' = pre ++ post
  ∧ (post ≠ [] → activeTabId st' = tabOrder st' !! length pre
                 ∧ activeTabId st' = head post)
  ∧ (post = [] → activeTabId st' = last pre)
  ∧ (pre ++ post ≠ [] → is_Some (activeTabId st'))
  ∧ (pre ++ post = [] → activeTabId st' = None).
Proof.
  intros [Hnd Hkeys] Hget Hactive Hskip Horder. cbv zeta.
  rewrite (closeTabById_unblocked confirm tabId tabState skip w) by done.
  destruct (store_removeTab_tabs tabId tabState (store w) w) as [Htabs Hord].
  rewrite Horder in Hnd. rewrite Hord, Horder, filter_drop_middle by done.
  split; [done|].
  assert (tabId ∉ pre) as Hpre.
  { apply NoDup_app in Hnd as (_ & Hnin & _). intros Hin.
    apply (Hnin _ Hin). by left. }
  assert (∀ x, x ∈ pre ++ post →
            activeTabId (store (setActiveTab (Some x)
              (upd (set_tabs (JsMap.delete tabId (tabs (store w))) (pre ++ post))
                 (upd (set_tabsIndex
                         (index_prune (getSourceName (source tabState))
                            (index_delete (getSourceName (source tabState))
                               (getSourceId (source tabState))
                               (tabsIndex (store w))))) w)))) = Some x) as Hact.
  { intros x Hx. rewrite store_setActiveTab. simpl.
    assert (x ≠ tabId) as Hne.
    { intros ->. apply NoDup_app in Hnd as (_ & Hnin & [Hnp _]%NoDup_cons).
      apply elem_of_app in Hx as [Hx|Hx]; [|done]. apply (Hnin _ Hx). by left. }
    assert (x ∈ JsMap.keys (tabs (store w))) as Hk.
    { apply Hkeys. rewrite Horder, elem_of_app, elem_of_cons.
      apply elem_of_app in Hx. tauto. }
    apply jsmap_elem_of_keys in Hk as [s Hs].
    rewrite jsmap_get_delete_ne by done. by rewrite Hs. }
  assert (activeTabId (store (removeTab tabId tabState (store w) w))
          = match post with next :: _ => Some next | [] => last pre end) as Hres.
  { unfold removeTab. cbv zeta. rewrite Horder, filter_drop_middle by done.
    unfold newActiveTabId. rewrite Hactive, decide_False by (intros ?; done).
    rewrite indexOf_middle by done.
    destruct post as [|next post'].
    - rewrite app_nil_r in *. destruct pre as [|p pre' _] using rev_ind.
      + rewrite decide_True by done. by rewrite store_setActiveTab.
      + rewrite decide_False by (rewrite length_app; simpl; lia).
        rewrite (decide_False (P := _ < _)) by lia.
        rewrite decide_True by (rewrite length_app; simpl; lia).
        assert ((pre' ++ [p]) !! Z.to_nat (Z.of_nat (length (pre' ++ [p])) - 1) = Some p)
          as ->.
        { rewrite length_app. simpl.
          replace (Z.to_nat _) with (length pre') by lia.
          by rewrite list_lookup_middle. }
        rewrite Hact by (rewrite elem_of_app, list_elem_of_singleton; tauto).
        by rewrite last_snoc.
    - rewrite decide_False by (rewrite length_app; simpl; lia).
      rewrite (decide_True (P := _ < _)) by (rewrite length_app; simpl; lia).
      rewrite decide_True by lia. rewrite Nat2Z.id, list_lookup_middle by done.
      by rewrite Hact by (rewrite elem_of_app, elem_of_cons; tauto). }
  rewrite Hres. split_and!.
  - intros Hpost. destruct post as [|next post']; [done|].
    by rewrite list_lookup_middle.
  - by intros ->.
  - destruct post as [|next post']; [|by eauto].
    rewrite app_nil_r. destruct pre as [|p pre' _] using rev_ind; [done|].
    intros _. rewrite last_snoc. by eauto.
  - by intros [-> ->]%app_eq_nil.
Qed.

Lemma closeTabById_activates_neighbour_witness :
  let st' := store (closeTabById (λ _, false) 2 false threeTabsMiddle) in
  tabOrder st' = [1] ++ [3]
  ∧ ([3] ≠ [] → activeTabId st' = tabOrder st' !! length [1]
                ∧ activeTabId st' = head [3])
  ∧ ([3] = [] → activeTabId st' = last [1])
  ∧ ([1] ++ [3] ≠ [] → is_Some (activeTabId st'))
  ∧ ([1] ++ [3] = [] → activeTabId st' = None).
Proof.
  apply (closeTabById_activates_neighbour (λ _, false) threeTabsMiddle 2
           (createTabStore 2 (request "b") "Untitled request" None) false [1] [3]).
  - apply order_invb_sound. vm_compute. reflexivity.
  - vm_compute. reflexivity.
  - vm_compute. reflexivity.
  - right. split; reflexivity.
  - vm_compute. reflexivity.
Defined.

(** ** The source index *)

Section index_facts.
Implicit Types (ix : list (SourceName * list (SourceId * TabId))).

Lemma index_lookup_set_eq sn sid t ix :
  JsMap.get sn (index_set sn sid t ix) ≫= JsMap.get sid = Some t.
Proof.
  unfold index_set. destruct (JsMap.get sn ix);
    rewrite jsmap_get_set_eq; cbn [mbind option_bind];
    apply jsmap_get_set_eq.
Qed.

Lemma index_lookup_set_ne sn sid sn' sid' t ix :
  (sn', sid') ≠ (sn, sid) →
  JsMap.get sn' (index_set sn sid t ix) ≫= JsMap.get sid'
  = JsMap.get sn' ix ≫= JsMap.get sid'.
Proof.
  intros Hne. unfold index_set. destruct (decide (sn = sn')) as [->|Hsn].
  - assert (sid ≠ sid') as Hsid by congruence.
    destruct (JsMap.get sn' ix) as [sm|] eqn:Hsm;
      rewrite jsmap_get_set_eq; cbn [mbind option_bind];
      by rewrite jsmap_get_set_ne.
  - destruct (JsMap.get sn ix); by rewrite jsmap_get_set_ne.
Qed.

Lemma index_lookup_delete_eq sn sid ix :
  JsMap.get sn (index_delete sn sid ix) ≫= JsMap.get sid = None.
Proof.
  unfold index_delete. destruct (JsMap.get sn ix) as [sm|] eqn:Hsm.
  - rewrite jsmap_get_set_eq. cbn [mbind option_bind]. apply jsmap_get_delete_eq.
  - by rewrite Hsm.
Qed.

Lemma index_lookup_delete_ne sn sid sn' sid' ix :
  (sn', sid') ≠ (sn, sid) →
  JsMap.get sn' (index_delete sn sid ix) ≫= JsMap.get sid'
  = JsMap.get sn' ix ≫= JsMap.get sid'.
Proof.
  intros Hne. unfold index_delete. destruct (decide (sn = sn')) as [->|Hsn].
  - assert (sid ≠ sid') as Hsid by congruence.
    destruct (JsMap.get sn' ix) as [sm|] eqn:Hsm; [|by rewrite Hsm].
    rewrite jsmap_get_set_eq. cbn [mbind option_bind].
    by rewrite jsmap_get_delete_ne.
  - destruct (JsMap.get sn ix); [|done]. by rewrite jsmap_get_set_ne.
Qed.

Lemma index_lookup_prune sn sn' sid' ix :
  JsMap.get sn' (index_prune sn ix) ≫= JsMap.get sid'
  = JsMap.get sn' ix ≫= JsMap.get sid'.
Proof.
  unfold index_prune. destruct (JsMap.get sn ix) as [sm|] eqn:Hsm; [|done].
  case_decide as Hsize; [|done].
  destruct (decide (sn = sn')) as [->|Hsn].
  - rewrite jsmap_get_delete_eq, Hsm. cbn [mbind option_bind].
    unfold JsMap.size in Hsize. by destruct sm.
  - by rewrite jsmap_get_delete_ne.
Qed.
End index_facts.

(** ** Opening a preview source while the preview slot is taken *)

Lemma store_openTab_preview_slot src config w p old :
  previewTabId (store w) = Some p → p ≠ 0 →
  previewTabSource (store w) = Some old →
  truthy (getTabIdBySource (getSourceId src) (getSourceName src) (store w)) = false →
  config_preview config = Some true →
  store (openTab src config w)
  = set_preview (Some p) (Some src)
      (set_active (Some p) (Some src)
         (set_tabs
            (JsMap.set p (createTabStore p src (getDefaultTitle src) (Some true))
               (tabs (store w)))
            (if includes p (tabOrder (store w)) then tabOrder (store w)
             else tabOrder (store w) ++ [p])
            (set_tabsIndex
               (index_set (getSourceName src) (getSourceId src) p
                  (index_delete (getSourceName old) (getSourceId old)
                     (tabsIndex (store w))))
               (store w)))).
Proof.
  intros Hp Hne Hold Hidx Hcfg. unfold openTab. cbv zeta.
  rewrite store_noteContext, Hidx, Hcfg.
  change (default false (Some true)) with true. cbv iota.
  unfold evictPreviewSource, previewOrNewTabId. rewrite Hp, Hold.
  rewrite decide_False by done. cbn [fst snd].
  rewrite store_setPreviewTab, store_upsertTabSource by done.
  cbn [upd store set_active set_tabs set_tabsIndex tabs tabOrder tabsIndex].
  rewrite jsmap_get_set_eq, store_noteContext, Hcfg. done.
Qed.

(** C3. For every state in which the preview slot is taken ([previewTabId]
    and [previewTabSource] set) and a source that is not indexed yet is
    opened with [config.preview = true], [openTab] gives the new tab the
    identifier of the preview slot ([tabIdSequence] unchanged, no key
    added to an occupied slot) and deletes the old preview source's entry
    from the source index. *)
Theorem openTab_preview_reuses_slot_id
    (w : World) (src old : AbstractTabSource) (config : option TabConfig) (p : TabId) :
  previewTabId (store w) = Some p → p ≠ 0 →
  previewTabSource (store w) = Some old →
  truthy (getTabIdBySource (getSourceId src) (getSourceName src) (store w)) = false →
  config_preview config = Some true →
  let st' := store (openTab src config w) in
  tabIdSequence st' = tabIdSequence (store w)
  ∧ JsMap.get p (tabs st')
    = Some (createTabStore p src (getDefaultTitle src) (Some true))
  ∧ getTabIdBySource (getSourceId src) (getSourceName src) st' = Some p
  ∧ previewTabId st' = Some p
  ∧ previewTabSource st' = Some src
  ∧ (p ∈ JsMap.keys (tabs (store w)) →
       JsMap.keys (tabs st') = JsMap.keys (tabs (store w))
       ∧ (p ∈ tabOrder (store w) → tabOrder st' = tabOrder (store w)))
  ∧ tabsIndex st'
    = index_set (getSourceName src) (getSourceId src) p
        (index_delete (getSourceName old) (getSourceId old) (tabsIndex (store w)))
  ∧ (¬ same_source old src →
       getTabIdBySource (getSourceId old) (getSourceName old) st' = None).
Proof.
  intros Hp Hne Hold Hidx Hcfg. cbv zeta.
  rewrite (store_openTab_preview_slot src config w p old) by done.
  unfold getTabIdBySource.
  cbn [set_preview set_active set_tabs set_tabsIndex tabIdSequence tabs
       tabsIndex previewTabId previewTabSource tabOrder].
  split_and!; try done.
  - apply jsmap_get_set_eq.
  - apply index_lookup_set_eq.
  - intros Hin. split.
    + rewrite jsmap_keys_set. by rewrite decide_True.
    + intros Ho. unfold includes. by rewrite bool_decide_eq_true_2.
  - intros Hdiff. rewrite index_lookup_set_ne.
    + apply index_lookup_delete_eq.
    + intros [= Hn Hi]. apply Hdiff. by split.
Qed.

Lemma openTab_preview_reuses_slot_id_witness :
  let st' := store (openTab (request "c") asPreview withPreview) in
  tabIdSequence st' = tabIdSequence (store withPreview)
  ∧ JsMap.get 2 (tabs st')
    = Some (createTabStore 2 (request "c") (getDefaultTitle (request "c")) (Some true))
  ∧ getTabIdBySource "c" "request" st' = Some 2
  ∧ previewTabId st' = Some 2
  ∧ previewTabSource st' = Some (request "c")
  ∧ (2 ∈ JsMap.keys (tabs (store withPreview)) →
       JsMap.keys (tabs st') = JsMap.keys (tabs (store withPreview))
       ∧ (2 ∈ tabOrder (store withPreview) → tabOrder st' = tabOrder (store withPreview)))
  ∧ tabsIndex st'
    = index_set "request" "c" 2
        (index_delete "request" "b" (tabsIndex (store withPreview)))
  ∧ (¬ same_source (request "b") (request "c") →
       getTabIdBySource "b" "request" st' = None).
Proof.
  apply (openTab_preview_reuses_slot_id withPreview (request "c") (request "b")
           asPreview 2).
  - vm_compute. reflexivity.
  - lia.
  - vm_compute. reflexivity.
  - vm_compute. reflexivity.
  - reflexivity.
Defined.

(** ** Cancelling the close prompt *)

(** C7. For every state and every tab with an active blocker or the
    unsaved flag, if [closeTabById] is called without [skipUnsavedPrompt]
    and the user cancels the confirmation prompt, the blocker's [onCancel]
    callback is invoked (and nothing else after the prompt) and the registry
    state is left unchanged. *)
Theorem closeTabById_cancel_keeps_state
    (confirm : string → bool) (w : World) (tabId : TabId) (tabState : TabState) :
  JsMap.get tabId (tabs (store w)) = Some tabState →
  is_Some (getActiveBlocker tabState) ∨ unsaved tabState = true →
  confirm (promptMessage (getActiveBlocker tabState)) = false →
  let w' := closeTabById confirm tabId false w in
  store w' = store w
  ∧ effects w'
    = effects w
      ++ WindowConfirm (promptMessage (getActiveBlocker tabState))
         :: match getActiveBlocker tabState ≫= onCancel with
            | Some cb => [Callback cb]
            | None => []
            end
  ∧ (∀ blocker cb, getActiveBlocker tabState = Some blocker →
       onCancel blocker = Some cb → last (effects w') = Some (Callback cb)).
Proof.
  intros Hget Hblocked Hcancel. cbv zeta.
  unfold closeTabById. cbv zeta. rewrite Hget.
  assert (bool_decide (is_Some (getActiveBlocker tabState)) || unsaved tabState = true)
    as ->.
  { destruct Hblocked as [Hb| ->]; [|by rewrite orb_true_r].
    by rewrite bool_decide_eq_true_2. }
  rewrite Hcancel. rewrite store_call. split; [done|].
  assert (effects (call (getActiveBlocker tabState ≫= onCancel)
                     (emit (WindowConfirm (promptMessage (getActiveBlocker tabState))) w))
          = effects w
            ++ WindowConfirm (promptMessage (getActiveBlocker tabState))
               :: match getActiveBlocker tabState ≫= onCancel with
                  | Some cb => [Callback cb]
                  | None => []
                  end) as Heff.
  { destruct (getActiveBlocker tabState ≫= onCancel); simpl; [|done].
    by rewrite <- app_assoc. }
  split; [exact Heff|].
  intros blocker cb Hb Hcb. rewrite Heff, Hb. simpl. rewrite Hcb.
  by rewrite last_app.
Qed.

Lemma closeTabById_cancel_keeps_state_witness :
  let w' := closeTabById (λ _, false) 1 false blockedWorld in
  store w' = store blockedWorld
  ∧ effects w'
    = effects blockedWorld
      ++ WindowConfirm (promptMessage (getActiveBlocker blockedTab))
         :: match getActiveBlocker blockedTab ≫= onCancel with
            | Some cb => [Callback cb]
            | None => []
            end
  ∧ (∀ blocker cb, getActiveBlocker blockedTab = Some blocker →
       onCancel blocker = Some cb → last (effects w') = Some (Callback cb)).
Proof.
  apply (closeTabById_cancel_keeps_state (λ _, false) blockedWorld 1 blockedTab).
  - reflexivity.
  - left. vm_compute. eauto.
  - reflexivity.
Defined.

(** ** The persistence adapter *)

Section persistence_facts.
Variable JSON_stringify : StoredValue → Result string.
Variable JSON_parse : string → Result StoredValue.
Variable quotaExceeded : list (string * string) → bool.
Variable TAB_SOURCES_MAP : string → option (Metadata → AbstractTabSource).

Lemma rmap_Ok_inv {A B} (f : A → Result B) (l : list A) (bs : list B) :
  rmap f l = Ok bs → Forall2 (λ a b, f a = Ok b) l bs.
Proof.
  revert bs. induction l as [|a l IH]; simpl; intros bs.
  - intros [= <-]. constructor.
  - destruct (f a) as [b|] eqn:Hfa; simpl; [|done].
    destruct (rmap f l) as [bs'|]; simpl; [|done].
    intros [= <-]. constructor; [done|]. by apply IH.
Qed.

Lemma rmap_Throw {A B} (f : A → Result B) (l : list A) (a : A) (e : string) :
  a ∈ l → f a = Throw e → ∃ e', rmap f l = Throw e'.
Proof.
  intros Hin Hfa. induction l as [|a' l IH]; [by apply elem_of_nil in Hin|].
  apply elem_of_cons in Hin as [<-|Hin]; simpl.
  - rewrite Hfa. by eexists.
  - destruct (f a') as [b|e1]; simpl; [|by eexists].
    destruct (IH Hin) as [e' ->]. by eexists.
Qed.

(** A successful read went through every step of [getItem]. *)
Lemma getItem_Ok_inv name storage h version :
  getItem JSON_parse TAB_SOURCES_MAP name storage = Ok (Some (h, version)) →
  ∃ stateString existingValue entries,
    JsMap.get name storage = Some stateString
    ∧ stateString ≠ EmptyString
    ∧ JSON_parse stateString = Ok existingValue
    ∧ rmap (rebuildTab TAB_SOURCES_MAP) (p_tabs (sv_state existingValue)) = Ok entries
    ∧ h_tabs h = JsMap.of_entries entries
    ∧ h_tabOrder h
      = finalTabOrder (default [] (p_tabOrder (sv_state existingValue)))
          (JsMap.keys (h_tabs h))
    ∧ version = sv_version existingValue.
Proof.
  unfold getItem, rethrow.
  destruct (JsMap.get name storage) as [stateString|]; [|done].
  case_decide as Hempty; [done|].
  destruct (JSON_parse stateString) as [existingValue|] eqn:Hparse; simpl; [|done].
  destruct (rmap _ _) as [entries|] eqn:Hentries; simpl; [|done].
  intros [= <- <-]. by exists stateString, existingValue, entries.
Qed.

Lemma finalTabOrder_elem stored keys i :
  i ∈ finalTabOrder stored keys ↔ i ∈ keys.
Proof.
  unfold finalTabOrder, missingTabs, validTabOrder.
  rewrite elem_of_app, !list_elem_of_filter.
  split; [tauto|]. intros Hi.
  destruct (decide (i ∈ stored)); tauto.
Qed.

Lemma finalTabOrder_NoDup stored keys :
  NoDup stored → NoDup keys → NoDup (finalTabOrder stored keys).
Proof.
  intros Hs Hk. unfold finalTabOrder, missingTabs.
  apply NoDup_app. split_and!.
  - by apply NoDup_filter.
  - intros i Hi. rewrite list_elem_of_filter. tauto.
  - by apply NoDup_filter.
Qed.

Lemma missingTabs_elem stored keys i :
  i ∈ missingTabs stored keys ↔ i ∈ keys ∧ i ∉ stored.
Proof.
  unfold missingTabs, validTabOrder. rewrite list_elem_of_filter, list_elem_of_filter.
  tauto.
Qed.
End persistence_facts.

Lemma jsmap_set_elem {K V} `{EqDecision K} (k k' : K) (v v' : V) (m : list (K * V)) :
  (k', v') ∈ JsMap.set k v m → (k', v') = (k, v) ∨ (k', v') ∈ m.
Proof.
  induction m as [|[k0 v0] m IH]; simpl.
  - intros ->%list_elem_of_singleton. by left.
  - destruct (decide (k = k0)) as [->|Hne]; rewrite !elem_of_cons; intros [?|?]; auto.
    destruct IH as [?|?]; auto.
Qed.

Lemma jsmap_of_entries_elem {K V} `{EqDecision K} (e : K * V) (l : list (K * V)) :
  e ∈ JsMap.of_entries l → e ∈ l.
Proof.
  unfold JsMap.of_entries.
  assert (∀ m, e ∈ foldl (λ m kv, JsMap.set kv.1 kv.2 m) m l → e ∈ m ∨ e ∈ l) as Hgen.
  { induction l as [|[k v] l IH]; intros m; simpl; [by left|].
    intros [Hin|Hin]%IH; [|right; by right].
    destruct e as [k' v']. apply jsmap_set_elem in Hin as [->|?]; [|by left].
    right. by left. }
  intros [[]%elem_of_nil|Hin]%Hgen. done.
Qed.

Lemma filter_elem_ext {A} (P Q : A → Prop) `{∀ x, Decision (P x)} `{∀ x, Decision (Q x)}
    (l : list A) :
  (∀ x, x ∈ l → P x ↔ Q x) → filter P l = filter Q l.
Proof.
  induction l as [|a l IH]; [done|]. intros Hext.
  rewrite !filter_cons.
  rewrite IH by (intros x Hx; apply Hext; by right).
  destruct (decide (P a)) as [HP|HP], (decide (Q a)) as [HQ|HQ]; try done.
  - exfalso. apply HQ, Hext; [by left|done].
  - exfalso. apply HP, Hext; [by left|done].
Qed.

(** C5. For every persisted state that [getItem] parses successfully:
    every id of the stored [tabOrder] that keys no reconstructed tab is
    dropped, the surviving ids keep their stored order, every reconstructed
    tab id missing from the stored order is appended after them, and the
    resulting [tabOrder] holds exactly the keys of the reconstructed map
    (once each when the stored order has no duplicates). *)
Theorem getItem_reconciles_tabOrder
    (JSON_parse : string → Result StoredValue)
    (TAB_SOURCES_MAP : string → option (Metadata → AbstractTabSource))
    (name : string) (storage : list (string * string))
    (stateString : string) (existingValue : StoredValue)
    (h : HydratedState) (version : option Z) :
  JsMap.get name storage = Some stateString →
  JSON_parse stateString = Ok existingValue →
  getItem JSON_parse TAB_SOURCES_MAP name storage = Ok (Some (h, version)) →
  let stored := default [] (p_tabOrder (sv_state existingValue)) in
  let keys := JsMap.keys (h_tabs h) in
  (∀ i, i ∈ stored → i ∉ keys → i ∉ h_tabOrder h)
  ∧ h_tabOrder h = filter (λ i, i ∈ keys) stored ++ filter (λ i, i ∉ stored) keys
  ∧ (∀ i, i ∈ h_tabOrder h ↔ i ∈ keys)
  ∧ (NoDup stored → NoDup (h_tabOrder h)).
Proof.
  intros Hget Hparse Hread. cbv zeta.
  apply getItem_Ok_inv in Hread
    as (s & v & entries & Hget' & _ & Hparse' & _ & Htabs & Horder & _).
  rewrite Hget in Hget'. injection Hget' as <-.
  rewrite Hparse in Hparse'. injection Hparse' as <-.
  rewrite Horder. split_and!.
  - intros i _ Hi. by rewrite finalTabOrder_elem.
  - unfold finalTabOrder, missingTabs, validTabOrder. f_equal.
    apply filter_elem_ext. intros i Hi. rewrite list_elem_of_filter. tauto.
  - intros i. apply finalTabOrder_elem.
  - intros Hnd. apply finalTabOrder_NoDup; [done|].
    rewrite Htabs. apply jsmap_NoDup_of_entries.
Qed.

Lemma getItem_reconciles_tabOrder_witness :
  ∃ h, getItem sampleParse sampleSources storeName sampleStorage
       = Ok (Some (h, Some 0))
     ∧ h_tabOrder h = [4; 2; 5]
     ∧ let stored := default [] (p_tabOrder (sv_state sampleStored)) in
       let keys := JsMap.keys (h_tabs h) in
       (∀ i, i ∈ stored → i ∉ keys → i ∉ h_tabOrder h)
       ∧ h_tabOrder h = filter (λ i, i ∈ keys) stored ++ filter (λ i, i ∉ stored) keys
       ∧ (∀ i, i ∈ h_tabOrder h ↔ i ∈ keys)
       ∧ (NoDup stored → NoDup (h_tabOrder h)).
Proof.
  eexists. split; [vm_compute; reflexivity|]. split; [vm_compute; reflexivity|].
  apply (getItem_reconciles_tabOrder sampleParse sampleSources storeName
           sampleStorage "{sample}" sampleStored _ (Some 0));
    vm_compute; reflexivity.
Defined.

Lemma rmap_Ok_elem {A B} (f : A → Result B) (l : list A) (bs : list B) (b : B) :
  rmap f l = Ok bs → b ∈ bs → ∃ a, a ∈ l ∧ f a = Ok b.
Proof.
  intros Hmap%rmap_Ok_inv Hb. induction Hmap as [|a b' l bs Hab _ IH].
  - by apply elem_of_nil in Hb.
  - apply elem_of_cons in Hb as [->|Hb].
    + exists a. split; [by left|done].
    + destruct (IH Hb) as (a' & Ha' & Hfa'). exists a'. split; [by right|done].
Qed.

Lemma filter_none {A} (P : A → Prop) `{∀ x, Decision (P x)} (l : list A) :
  (∀ x, x ∈ l → ¬ P x) → filter P l = [].
Proof.
  induction l as [|a l IH]; [done|]. intros Hno.
  rewrite filter_cons, decide_False by (apply Hno; by left).
  apply IH. intros x Hx. apply Hno. by right.
Qed.

(** C10. Preview status is not restored across sessions: for every
    persisted state read back by [getItem], every reconstructed tab is
    created without the persisted preview and unsaved flags, so after
    rehydration every tab is non-preview and not unsaved, whatever was
    persisted. *)
Theorem getItem_forgets_preview_and_unsaved
    (JSON_parse : string → Result StoredValue)
    (TAB_SOURCES_MAP : string → option (Metadata → AbstractTabSource))
    (name : string) (storage : list (string * string))
    (h : HydratedState) (version : option Z) :
  getItem JSON_parse TAB_SOURCES_MAP name storage = Ok (Some (h, version)) →
  (∀ t s, JsMap.get t (h_tabs h) = Some s → preview s = false ∧ unsaved s = false)
  ∧ (∀ w, version = None ∨ version = Some 0 →
       let st' := store (hydrate JSON_parse TAB_SOURCES_MAP name storage w) in
       tabs st' = h_tabs h
       ∧ previewCount st' = 0%nat
       ∧ ∀ t s, JsMap.get t (tabs st') = Some s →
                preview s = false ∧ unsaved s = false).
Proof.
  intros Hread.
  assert (∀ e, e ∈ h_tabs h → preview e.2 = false ∧ unsaved e.2 = false) as Hall.
  { apply getItem_Ok_inv in Hread
      as (s & v & entries & _ & _ & _ & Hentries & Htabs & _).
    intros e. rewrite Htabs. intros He%jsmap_of_entries_elem.
    destruct (rmap_Ok_elem _ _ _ _ Hentries He) as (pt & _ & Hpt).
    unfold rebuildTab in Hpt. destruct (newSource _ _); simpl in Hpt; [|done].
    by injection Hpt as <-. }
  assert (∀ t s, JsMap.get t (h_tabs h) = Some s →
            preview s = false ∧ unsaved s = false) as Hget.
  { intros t s Hs%jsmap_get_elem_of. exact (Hall _ Hs). }
  split; [exact Hget|].
  intros w Hversion. cbv zeta. unfold hydrate. rewrite Hread.
  rewrite decide_True by done. simpl.
  split_and!; [done| |exact Hget].
  unfold previewCount. simpl. rewrite filter_none; [done|].
  intros s' (e & -> & He)%list_elem_of_fmap. destruct (Hall _ He) as [-> _]. done.
Qed.

Lemma getItem_forgets_preview_and_unsaved_witness :
  ∃ h, getItem sampleParse sampleSources storeName sampleStorage
       = Ok (Some (h, Some 0))
     ∧ (∀ t s, JsMap.get t (h_tabs h) = Some s → preview s = false ∧ unsaved s = false)
     ∧ (∀ w, Some 0 = None ∨ Some 0 = Some 0 →
          let st' := store (hydrate sampleParse sampleSources storeName sampleStorage w) in
          tabs st' = h_tabs h
          ∧ previewCount st' = 0%nat
          ∧ ∀ t s, JsMap.get t (tabs st') = Some s →
                   preview s = false ∧ unsaved s = false).
Proof.
  eexists. split; [vm_compute; reflexivity|].
  apply (getItem_forgets_preview_and_unsaved sampleParse sampleSources storeName
           sampleStorage _ (Some 0)).
  vm_compute. reflexivity.
Defined.

(** ** Identifiers are issued by a growing sequence *)



Lemma upsertTabSource_fields t src config w :
  let st' := store (upsertTabSource (Some t) src config w) in
  tabIdSequence st' = tabIdSequence (store w)
  ∧ previewTabId st' = previewTabId (store w)
  ∧ previewTabSource st' = previewTabSource (store w)
  ∧ tabs st'
    = if decide (t = 0) then tabs (store w)
      else JsMap.set t (createTabStore t src (getDefaultTitle src)
                          (config_preview config)) (tabs (store w)).
Proof.
  cbv zeta. destruct (decide (t = 0)) as [->|Hne].
  - by rewrite upsertTabSource_falsy.
  - by rewrite store_upsertTabSource.
Qed.

Lemma removeTab_fields tabId tabState st w :
  let st' := store (removeTab tabId tabState st w) in
  tabIdSequence st' = tabIdSequence (store w)
  ∧ previewTabId st' = previewTabId (store w)
  ∧ previewTabSource st' = previewTabSource (store w)
  ∧ tabs st' = JsMap.delete tabId (tabs st).
Proof.
  cbv zeta. unfold removeTab. cbv zeta.
  match goal with |- context [setActiveTab ?i ?w'] =>
    destruct (setActiveTab_frame i w') as (-> & _ & _ & -> & -> & -> & _) end.
  done.
Qed.

Lemma ids_issued_ext st st' :
  tabs st' = tabs st → previewTabId st' = previewTabId st →
  tabIdSequence st' = tabIdSequence st → ids_issued st → ids_issued st'.
Proof. unfold ids_issued. by intros -> -> ->. Qed.

Lemma ids_issued_closeTabById confirm t skip w :
  ids_issued (store w) →
  ids_issued (store (closeTabById confirm t skip w))
  ∧ tabIdSequence (store (closeTabById confirm t skip w)) = tabIdSequence (store w).
Proof.
  intros Hinv.
  destruct (closeTabById_cases confirm t skip w)
    as [->|(tabState & w' & _ & Hw' & ->)]; [done|].
  destruct (removeTab_fields t tabState (store w) w') as (Hs & Hp & _ & Ht).
  rewrite Hw' in Hs, Hp. split; [|done].
  destruct Hinv as (Hseq & Htabs & Hprev). unfold ids_issued.
  rewrite Hs, Hp, Ht. split_and!; [done| |done].
  intros x [_ Hx]%jsmap_keys_delete_elem. by apply Htabs.
Qed.

(** What [openTab] does to the tab map, the preview slot and the
    sequence: nothing, or one tab is stored under the preview slot's
    identifier or under the next identifier of the sequence. *)
Lemma openTab_fields src config w :
  let st := store w in
  let st' := store (openTab src config w) in
  (tabs st' = tabs st ∧ previewTabId st' = previewTabId st
   ∧ tabIdSequence st' = tabIdSequence st)
  ∨ (∃ p, previewTabId st = Some p ∧ p ≠ 0
          ∧ default false (config_preview config) = true
          ∧ tabs st' = JsMap.set p (createTabStore p src (getDefaultTitle src)
                                      (config_preview config)) (tabs st)
          ∧ previewTabId st' = Some p
          ∧ tabIdSequence st' = tabIdSequence st)
  ∨ (previewTabId st = Some 0
     ∧ tabs st' = tabs st ∧ tabIdSequence st' = tabIdSequence st
     ∧ previewTabId st' = if JsMap.has 0 (tabs st) then Some 0 else None)
  ∨ (previewTabId st = None
     ∧ default false (config_preview config) = true
     ∧ tabIdSequence st' = tabIdSequence st + 1
     ∧ ((tabIdSequence st + 1 ≠ 0
         ∧ tabs st' = JsMap.set (tabIdSequence st + 1)
                        (createTabStore (tabIdSequence st + 1) src
                           (getDefaultTitle src) (config_preview config)) (tabs st)
         ∧ previewTabId st' = Some (tabIdSequence st + 1))
        ∨ (tabIdSequence st + 1 = 0 ∧ tabs st' = tabs st
           ∧ previewTabId st'
             = if JsMap.has (tabIdSequence st + 1) (tabs st)
               then Some (tabIdSequence st + 1) else None)))
  ∨ (default false (config_preview config) = false
     ∧ tabIdSequence st' = tabIdSequence st + 1
     ∧ previewTabId st' = previewTabId st
     ∧ tabs st' = if decide (tabIdSequence st + 1 = 0) then tabs st
                  else JsMap.set (tabIdSequence st + 1)
                         (createTabStore (tabIdSequence st + 1) src
                            (getDefaultTitle src) None) (tabs st)).
Proof.
  cbv zeta. unfold openTab. cbv zeta. rewrite store_noteContext.
  destruct (truthy _).
  { left. match goal with |- context [setActiveTab ?i ?w'] =>
      destruct (setActiveTab_frame i w') as (-> & _ & _ & -> & -> & _) end.
    by rewrite store_noteContext. }
  destruct (default false (config_preview config)) eqn:Hcfg.
  - right.
    match goal with |- context [evictPreviewSource ?st0 ?w0] =>
      destruct (evictPreviewSource_frame st0 w0) as (Ht1 & _ & Hs1 & Hp1 & _);
      set (w1 := evictPreviewSource st0 w0) in * end.
    rewrite store_noteContext in Ht1, Hs1, Hp1.
    unfold previewOrNewTabId.
    destruct (previewTabId (store w)) as [p|] eqn:Hp; cbn [fst snd].
    + destruct (upsertTabSource_fields p src config w1) as (Hs2 & Hp2 & _ & Ht2).
      rewrite store_setPreviewTab.
      destruct (decide (p = 0)) as [->|Hne].
      * right. left. split; [done|].
        unfold JsMap.has. rewrite Ht2, Ht1.
        destruct (JsMap.get 0 (tabs (store w))); fields; split_and!;
          rewrite ?Ht2, ?Hs2, ?Ht1, ?Hs1; done.
      * left. exists p. rewrite Ht2, jsmap_get_set_eq. fields.
        rewrite Ht2, Hs2, Ht1, Hs1. done.
    + right. right. left. split; [done|]. split; [done|].
      set (n := tabIdSequence (store w) + 1).
      assert ((_generateNewTabId w1).1 = n) as Hn.
      { unfold _generateNewTabId. fields. by rewrite Hs1. }
      rewrite Hn.
      assert (tabIdSequence (store (_generateNewTabId w1).2) = n
              ∧ tabs (store (_generateNewTabId w1).2) = tabs (store w)) as [Hs3 Ht3].
      { unfold _generateNewTabId. fields. by rewrite Hs1, Ht1. }
      destruct (upsertTabSource_fields n src config (_generateNewTabId w1).2)
        as (Hs2 & Hp2 & _ & Ht2).
      rewrite store_setPreviewTab.
      destruct (decide (n = 0)) as [Hz|Hne].
      * unfold JsMap.has. rewrite Ht2, Ht3. fold n.
        destruct (JsMap.get n (tabs (store w))); fields;
          rewrite Ht2, Hs2, Ht3, Hs3; (split; [done|]); right; done.
      * rewrite Ht2, jsmap_get_set_eq. fields. rewrite Ht2, Hs2, Ht3, Hs3.
        split; [done|]. by left.
  - right. right. right. right. split; [done|].
    set (w1 := noteContext src w).
    set (n := tabIdSequence (store w) + 1).
    assert ((_generateNewTabId w1).1 = n) as Hn.
    { unfold _generateNewTabId, w1. fields. by rewrite store_noteContext. }
    rewrite Hn.
    destruct (upsertTabSource_fields n src None (_generateNewTabId w1).2)
      as (-> & -> & _ & ->).
    unfold _generateNewTabId, w1. fields. rewrite store_noteContext. done.
Qed.

Lemma ids_issued_openTab src config w :
  ids_issued (store w) →
  ids_issued (store (openTab src config w))
  ∧ tabIdSequence (store w) ≤ tabIdSequence (store (openTab src config w)).
Proof.
  intros (Hseq & Htabs & Hprev).
  assert (∀ n s x, 0 < n ≤ tabIdSequence (store w) + 1 →
            x ∈ JsMap.keys (JsMap.set n s (tabs (store w))) →
            0 < x ≤ tabIdSequence (store w) + 1) as Hset.
  { intros n s x Hn [->|Hx]%jsmap_keys_set_elem; [done|].
    specialize (Htabs x Hx). lia. }
  destruct (openTab_fields src config w)
    as [(Ht & Hp & Hs)
       |[(p & Hpv & Hne & _ & Ht & Hp & Hs)
        |[(Hpv & _)
         |[(Hpv & _ & Hs & [(Hne & Ht & Hp)|(Hz & _)])
          |(_ & Hs & Hp & Ht)]]]];
    unfold ids_issued; rewrite ?Hs, ?Hp, ?Ht.
  - split; [|lia]. done.
  - specialize (Hprev p Hpv). split; [|lia]. split_and!; [done| |].
    + intros x [->|Hx]%jsmap_keys_set_elem; [done|by apply Htabs].
    + by intros ? [= <-].
  - specialize (Hprev 0 Hpv). lia.
  - split; [|lia]. split_and!; [lia| |].
    + intros x Hx. eapply Hset; [|exact Hx]. lia.
    + intros ? [= <-]. lia.
  - lia.
  - split; [|lia]. rewrite decide_False by lia. split_and!; [lia| |].
    + intros x Hx. eapply Hset; [|exact Hx]. lia.
    + intros q Hq. specialize (Hprev q Hq). lia.
Qed.



Lemma ids_issued_initial : ids_issued initialState.
Proof.
  unfold ids_issued. simpl. split_and!; [lia| |done].
  by intros t Ht%elem_of_nil.
Qed.

Lemma store_openTab_new src config w :
  truthy (getTabIdBySource (getSourceId src) (getSourceName src) (store w)) = false →
  default false (config_preview config) = false →
  tabIdSequence (store w) + 1 ≠ 0 →
  let n := tabIdSequence (store w) + 1 in
  store (openTab src config w)
  = set_active (Some n) (Some src)
      (set_tabs
         (JsMap.set n (createTabStore n src (getDefaultTitle src) None)
            (tabs (store w)))
         (if includes n (tabOrder (store w)) then tabOrder (store w)
          else tabOrder (store w) ++ [n])
         (set_tabsIndex
            (index_set (getSourceName src) (getSourceId src) n (tabsIndex (store w)))
            (set_tabIdSequence n (store w)))).
Proof.
  intros Hidx Hcfg Hne. cbv zeta. unfold openTab. cbv zeta.
  rewrite store_noteContext, Hidx, Hcfg.
  unfold _generateNewTabId. fields. rewrite store_noteContext.
  rewrite store_upsertTabSource by done. fields. by rewrite store_noteContext.
Qed.

Lemma set_tabsIndex_id st : set_tabsIndex (tabsIndex st) st = st.
Proof. by destruct st. Qed.

Lemma set_tabIdSequence_id st : set_tabIdSequence (tabIdSequence st) st = st.
Proof. by destruct st. Qed.

Lemma store_evictPreviewSource st w :
  store (evictPreviewSource st w)
  = match previewTabId st, previewTabSource st with
    | Some p, Some old =>
        if decide (p = 0) then store w
        else set_tabsIndex
               (index_delete (getSourceName old) (getSourceId old) (tabsIndex st))
               (store w)
    | _, _ => store w
    end.
Proof.
  unfold evictPreviewSource.
  destruct (previewTabId st), (previewTabSource st); try done. by case_decide.
Qed.

(** The preview branch of [openTab], for an identifier that is not 0. *)
Lemma store_openTab_preview src config w :
  let st := store w in
  let ix1 :=
    match previewTabId st, previewTabSource st with
    | Some p, Some old =>
        index_delete (getSourceName old) (getSourceId old) (tabsIndex st)
    | _, _ => tabsIndex st
    end in
  let t := match previewTabId st with Some p => p | None => tabIdSequence st + 1 end in
  let seq' := match previewTabId st with
              | Some _ => tabIdSequence st
              | None => tabIdSequence st + 1
              end in
  truthy (getTabIdBySource (getSourceId src) (getSourceName src) st) = false →
  default false (config_preview config) = true →
  t ≠ 0 →
  store (openTab src config w)
  = set_preview (Some t) (Some src)
      (set_active (Some t) (Some src)
         (set_tabs
            (JsMap.set t (createTabStore t src (getDefaultTitle src)
                            (config_preview config)) (tabs st))
            (if includes t (tabOrder st) then tabOrder st else tabOrder st ++ [t])
            (set_tabsIndex
               (index_set (getSourceName src) (getSourceId src) t ix1)
               (set_tabIdSequence seq' st)))).
Proof.
  cbv zeta. intros Hidx Hcfg Hne. unfold openTab. cbv zeta.
  rewrite store_noteContext, Hidx, Hcfg.
  unfold previewOrNewTabId.
  destruct (previewTabId (store w)) as [p|] eqn:Hp; fields.
  - rewrite store_setPreviewTab, store_upsertTabSource by done.
    rewrite store_evictPreviewSource, Hp, store_noteContext. fields.
    rewrite jsmap_get_set_eq.
    destruct (previewTabSource (store w)) as [old|].
    + rewrite decide_False by done. fields.
      by rewrite set_tabIdSequence_id.
    + by rewrite set_tabIdSequence_id.
  - assert (store (evictPreviewSource (store w) (noteContext src w)) = store w)
      as Hevict.
    { by rewrite store_evictPreviewSource, Hp, store_noteContext. }
    unfold _generateNewTabId. fields. rewrite Hevict.
    rewrite store_setPreviewTab, store_upsertTabSource by done.
    fields. rewrite Hevict. by rewrite jsmap_get_set_eq.
Qed.




(** ** The preview slot *)













(** [setPreviewTab] moves the slot without clearing the flag of the tab
    that held it, so the next preview open flags a second tab. *)
Lemma two_preview_tabs_by_setPreviewTab :
  previewCount
    (store (run [OpenTab (request "a") asPreview; OpenTab (request "b") None;
                 SetPreviewTab 2; OpenTab (request "c") asPreview] initialWorld))
  = 2%nat.
Proof. vm_compute. reflexivity. Qed.

(** ** The data model holds in every reachable world *)

Lemma data_model_ext st st' :
  tabs st' = tabs st → tabOrder st' = tabOrder st →
  tabsIndex st' = tabsIndex st → tabIdSequence st' = tabIdSequence st →
  previewTabId st' = previewTabId st →
  previewTabSource st' = previewTabSource st →
  data_model st → data_model st'.
Proof.
  unfold data_model, order_inv, ids_issued, index_sound, preview_linked,
    getTabIdBySource.
  by intros -> -> -> -> -> ->.
Qed.

Lemma index_sound_resolves st :
  ids_issued st → index_sound st → index_resolves st.
Proof.
  intros (_ & Htabs & _) Hsound sourceId sourceName t Hget.
  destruct (Hsound _ _ _ Hget) as (tabState & Ht & _).
  split; [|by eexists].
  assert (t ∈ JsMap.keys (tabs st)) as Hin by (apply jsmap_elem_of_keys; by eexists).
  specialize (Htabs t Hin). lia.
Qed.

Lemma removeTab_tabsIndex tabId tabState st w :
  tabsIndex (store (removeTab tabId tabState st w))
  = index_prune (getSourceName (source tabState))
      (index_delete (getSourceName (source tabState))
         (getSourceId (source tabState)) (tabsIndex st)).
Proof.
  unfold removeTab. cbv zeta.
  match goal with |- context [setActiveTab ?i ?w'] =>
    destruct (setActiveTab_frame i w') as (_ & -> & _) end.
  done.
Qed.

Lemma linked_closeTabById confirm t skip w :
  index_sound (store w) → preview_linked (store w) →
  index_sound (store (closeTabById confirm t skip w))
  ∧ preview_linked (store (closeTabById confirm t skip w)).
Proof.
  intros Hsound Hlinked.
  destruct (closeTabById_cases confirm t skip w)
    as [->|(tabState & w' & Hget & Hw' & ->)]; [done|].
  destruct (removeTab_fields t tabState (store w) w') as (_ & Hp & Hps & Ht).
  pose proof (removeTab_tabsIndex t tabState (store w) w') as Hix.
  rewrite Hw' in Hp, Hps. split.
  - intros sourceId sourceName t'. unfold getTabIdBySource.
    rewrite Hix, Ht, index_lookup_prune. intros Hlook.
    destruct (decide ((sourceName, sourceId)
                      = (getSourceName (source tabState),
                         getSourceId (source tabState)))) as [Heq|Hne].
    { injection Heq as -> ->. by rewrite index_lookup_delete_eq in Hlook. }
    rewrite index_lookup_delete_ne in Hlook by done.
    destruct (Hsound _ _ _ Hlook) as (tab' & Hget' & Hn & Hi).
    exists tab'. split; [|done].
    rewrite jsmap_get_delete_ne; [done|]. intros <-.
    rewrite Hget in Hget'. injection Hget' as <-. apply Hne. by rewrite Hn, Hi.
  - intros p tab'. rewrite Hp, Hps, Ht. intros Hpv Hget'.
    destruct (decide (t = p)) as [<-|Hne].
    { by rewrite jsmap_get_delete_eq in Hget'. }
    rewrite jsmap_get_delete_ne in Hget' by done. by eapply Hlinked.
Qed.

Lemma linked_openTab src config w :
  ids_issued (store w) → index_sound (store w) → preview_linked (store w) →
  index_sound (store (openTab src config w))
  ∧ preview_linked (store (openTab src config w)).
Proof.
  intros (Hseq & Htabs & Hprev) Hsound Hlinked.
  assert (∀ t tab, JsMap.get t (tabs (store w)) = Some tab →
            0 < t ≤ tabIdSequence (store w)) as Hbound.
  { intros t tab Hget. apply Htabs, jsmap_elem_of_keys. by eexists. }
  destruct (truthy (getTabIdBySource (getSourceId src) (getSourceName src) (store w)))
    eqn:Hidx.
  { assert (∃ a b, store (openTab src config w) = set_active a b (store w))
      as (a & b & ->).
    { unfold openTab. cbv zeta. rewrite store_noteContext, Hidx, store_setActiveTab.
      rewrite store_noteContext. destruct (_ ≫= _); by eexists _, _. }
    done. }
  destruct (default false (config_preview config)) eqn:Hcfg.
  - rewrite store_openTab_preview; [|done|done|].
    2:{ destruct (previewTabId (store w)) as [p|] eqn:Hp; [|lia].
        specialize (Hprev p eq_refl). lia. }
    split.
    + intros sourceId sourceName t'. unfold getTabIdBySource. fields.
      destruct (decide ((sourceName, sourceId) = (getSourceName src, getSourceId src)))
        as [Heq|Hne].
      { injection Heq as -> ->. rewrite index_lookup_set_eq. intros [= <-].
        rewrite jsmap_get_set_eq. by eexists. }
      rewrite index_lookup_set_ne by done. intros Hlook.
      assert (JsMap.get sourceName (tabsIndex (store w)) ≫= JsMap.get sourceId = Some t'
              ∧ t' ≠ match previewTabId (store w) with
                     | Some p => p
                     | None => tabIdSequence (store w) + 1
                     end) as [Hlook' Hne'].
      { destruct (previewTabId (store w)) as [p|] eqn:Hp.
        - destruct (previewTabSource (store w)) as [old|] eqn:Hold.
          + destruct (decide ((sourceName, sourceId)
                              = (getSourceName old, getSourceId old))) as [Heq|Hneq].
            { injection Heq as -> ->. by rewrite index_lookup_delete_eq in Hlook. }
            rewrite index_lookup_delete_ne in Hlook by done.
            split; [done|]. intros ->.
            destruct (Hsound _ _ _ Hlook) as (tab & Hget & Hn & Hi).
            destruct (Hlinked p tab Hp Hget) as (old' & Hold' & Hn' & Hi').
            rewrite Hold in Hold'. injection Hold' as <-.
            apply Hneq. by rewrite Hn', Hi', Hn, Hi.
          + split; [done|]. intros ->.
            destruct (Hsound _ _ _ Hlook) as (tab & Hget & _).
            destruct (Hlinked p tab Hp Hget) as (old' & Hold' & _).
            by rewrite Hold in Hold'.
        - split; [done|]. intros ->.
          destruct (Hsound _ _ _ Hlook) as (tab & Hget & _).
          specialize (Hbound _ _ Hget). lia. }
      destruct (Hsound _ _ _ Hlook') as (tab & Hget & Hn & Hi).
      exists tab. by rewrite jsmap_get_set_ne.
    + intros p tab. fields. intros [= <-]. rewrite jsmap_get_set_eq.
      intros [= <-]. by exists src.
  - rewrite store_openTab_new by (done || lia). split.
    + intros sourceId sourceName t'. unfold getTabIdBySource. fields.
      destruct (decide ((sourceName, sourceId) = (getSourceName src, getSourceId src)))
        as [Heq|Hne].
      { injection Heq as -> ->. rewrite index_lookup_set_eq. intros [= <-].
        rewrite jsmap_get_set_eq. by eexists. }
      rewrite index_lookup_set_ne by done. intros Hlook.
      destruct (Hsound _ _ _ Hlook) as (tab & Hget & Hn & Hi).
      exists tab. rewrite jsmap_get_set_ne; [done|].
      specialize (Hbound _ _ Hget). lia.
    + intros p tab. fields. intros Hp. specialize (Hprev p Hp).
      rewrite jsmap_get_set_ne by lia. by apply Hlinked.
Qed.

Lemma data_model_initial : data_model initialState.
Proof.
  split_and!.
  - split; [constructor|done].
  - apply ids_issued_initial.
  - by intros sourceId sourceName t.
  - by intros p tabState.
Qed.

Lemma data_model_openTab src config w :
  data_model (store w) → data_model (store (openTab src config w)).
Proof.
  intros (Ho & Hi & Hs & Hl).
  destruct (linked_openTab src config w Hi Hs Hl) as [Hs' Hl'].
  split_and!; [by apply order_inv_openTab| |done|done].
  by apply ids_issued_openTab.
Qed.

Lemma data_model_closeTabById confirm t skip w :
  data_model (store w) → data_model (store (closeTabById confirm t skip w)).
Proof.
  intros (Ho & Hi & Hs & Hl).
  destruct (linked_closeTabById confirm t skip w Hs Hl) as [Hs' Hl'].
  split_and!; [by apply order_inv_closeTabById| |done|done].
  by apply ids_issued_closeTabById.
Qed.

Lemma data_model_updateTabBySource sourceId sourceName updates w :
  data_model (store w) →
  data_model (store (updateTabBySource sourceId sourceName updates w)).
Proof.
  intros Hdm. unfold updateTabBySource. cbv zeta.
  destruct (truthy _); [|done].
  destruct (getTabIdBySource sourceId sourceName (store w)) as [t|]; [|done].
  cbn [mbind option_bind].
  destruct (JsMap.get t (tabs (store w))) as [tabState|] eqn:Hget; [|done].
  cbn [fmap option_fmap option_map].
  set (s3 := setIcon _ _).
  assert (source s3 = source tabState) as Hsrc by done.
  assert (t ∈ JsMap.keys (tabs (store w))) as Hin
    by (apply jsmap_elem_of_keys; by eexists).
  assert (JsMap.keys (JsMap.set t s3 (tabs (store w))) = JsMap.keys (tabs (store w)))
    as Hkeys by (by rewrite jsmap_keys_set, decide_True).
  destruct Hdm as ([Hnd Ho] & (Hseq & Htabs & Hprev) & Hs & Hl).
  unfold data_model, order_inv, ids_issued, index_sound, preview_linked,
    getTabIdBySource, incrementVersion. fields. rewrite Hkeys.
  split_and!; try done.
  - intros sid sn t' Hlook. destruct (Hs _ _ _ Hlook) as (tab & Hget' & Hn & Hi').
    destruct (decide (t = t')) as [<-|Hne].
    + exists s3. rewrite jsmap_get_set_eq, Hsrc. split; [done|].
      rewrite Hget in Hget'. by injection Hget' as <-.
    + exists tab. by rewrite jsmap_get_set_ne.
  - intros p tab Hp. destruct (decide (t = p)) as [<-|Hne].
    + rewrite jsmap_get_set_eq. intros [= <-]. rewrite Hsrc. by eapply Hl.
    + rewrite jsmap_get_set_ne by done. by apply Hl.
Qed.

Lemma data_model_setPreviewTab i w :
  data_model (store w) → data_model (store (setPreviewTab i w)).
Proof.
  intros (Ho & Hi & Hs & Hl). rewrite store_setPreviewTab.
  destruct (JsMap.get i (tabs (store w))) as [tabState|] eqn:Hget.
  - split_and!; try done.
    + destruct Hi as (Hseq & Htabs & Hprev). split_and!; try done.
      fields. intros p [= <-]. apply Htabs, jsmap_elem_of_keys. by eexists.
    + intros p tab. fields. intros [= <-]. rewrite Hget. intros [= <-].
      by eexists.
  - split_and!; try done.
    destruct Hi as (Hseq & Htabs & Hprev). by split_and!.
Qed.

Lemma data_model_step w op :
  client_op w op → data_model (store w) → data_model (store (step w op)).
Proof.
  intros Hop Hdm. destruct op; simpl in *; try done.
  - by apply data_model_openTab.
  - by apply data_model_closeTabById.
  - unfold closeTab. destruct (getTabIdBySource _ _ _); [|done].
    case_decide; [done|]. by apply data_model_closeTabById.
  - unfold closeTabBySource. destruct (getTabIdBySource _ _ _); [|done].
    case_decide; [done|]. by apply data_model_closeTabById.
  - apply (closeTabById_series data_model); [|done].
    intros. by apply data_model_closeTabById.
  - apply (closeTabById_series data_model); [|done].
    intros. by apply data_model_closeTabById.
  - destruct (setActiveTab_frame i w) as (? & ? & ? & ? & ? & ? & _).
    by eapply data_model_ext.
  - destruct Hdm as (Ho & Hi & Hs & Hl). split_and!; try done.
    by apply (order_inv_updateTabOrder newOrder w).
  - by apply data_model_updateTabBySource.
  - by apply data_model_setPreviewTab.
  - destruct Hdm as (Ho & (Hseq & Htabs & Hprev) & Hs & Hl).
    split_and!; done.
  - apply data_model_initial.
Qed.

(** The invariants of the data model hold in every world the store goes
    through; in particular every entry of the source index resolves to an
    existing tab, and the tab order lists the keys of the tab map. *)
Lemma reachable_data_model w : reachable w → data_model (store w).
Proof.
  induction 1 as [|w op _ IH Hop].
  - apply data_model_initial.
  - by apply data_model_step.
Qed.

Lemma reachable_index_resolves w : reachable w → index_resolves (store w).
Proof.
  intros (_ & Hi & Hs & _)%reachable_data_model. by apply index_sound_resolves.
Qed.

Lemma reachable_order_inv w : reachable w → order_inv (store w).
Proof. by intros (Ho & _)%reachable_data_model. Qed.

(** In a reachable world an indexed source is opened by activating its tab. *)
Lemma openTab_indexed_source_reachable w src config t :
  reachable w →
  getTabIdBySource (getSourceId src) (getSourceName src) (store w) = Some t →
  ∃ tabState,
    JsMap.get t (tabs (store w)) = Some tabState
    ∧ store (openTab src config w)
      = set_active (Some t) (Some (source tabState)) (store w).
Proof.
  intros Hreach Hidx.
  destruct (reachable_index_resolves w Hreach _ _ _ Hidx) as [Hne [tabState Hget]].
  exists tabState. split; [done|]. by apply openTab_existing.
Qed.

(** ** The registry through every action

    Two facts that no action breaks, whatever its arguments: the active
    tab is a tab of the map and [activeTabSource] is its source, and the map
    holds each tab under its own [id], once. *)

Lemma set_active_id st : set_active (activeTabId st) (activeTabSource st) st = st.
Proof. by destruct st. Qed.

Lemma active_linked_setActiveTab i w : active_linked (store (setActiveTab i w)).
Proof.
  rewrite store_setActiveTab. destruct i as [t|]; cbn [mbind option_bind]; [|done].
  destruct (JsMap.get t (tabs (store w))) as [tabState|] eqn:Hget; [|done].
  unfold active_linked. fields. by exists tabState.
Qed.

Lemma active_linked_ext st st' :
  tabs st' = tabs st → activeTabId st' = activeTabId st →
  activeTabSource st' = activeTabSource st → active_linked st → active_linked st'.
Proof. unfold active_linked. by intros -> -> ->. Qed.




Lemma keyed_by_id_get st t s :
  keyed_by_id st → JsMap.get t (tabs st) = Some s → id s = t.
Proof.
  intros [_ Hall] Hget%jsmap_get_elem_of.
  by apply (proj1 (Forall_forall _ _) Hall (t, s)).
Qed.









Lemma reachable_run ops w :
  forallb unconstrained_op ops = true → reachable w → reachable (run ops w).
Proof.
  revert w. induction ops as [|op ops IH]; intros w Hops Hw; [done|].
  apply andb_prop in Hops as [Hop Hops]. apply (IH (step w op)); [done|].
  apply reachable_step; [done|]. by destruct op.
Qed.

(** ** Opening a source makes it the active one *)

Lemma openTab_post src config w :
  data_model (store w) →
  let st' := store (openTab src config w) in
  ∃ t tabState,
    t ≠ 0
    ∧ getTabIdBySource (getSourceId src) (getSourceName src) st' = Some t
    ∧ JsMap.get t (tabs st') = Some tabState
    ∧ same_source (source tabState) src
    ∧ activeTabId st' = Some t
    ∧ activeTabSource st' = Some (source tabState).
Proof.
  intros (Ho & (Hseq & Hkeys & Hprev) & Hs & Hl). cbv zeta.
  destruct (truthy (getTabIdBySource (getSourceId src) (getSourceName src) (store w)))
    eqn:Htruthy.
  - destruct (getTabIdBySource (getSourceId src) (getSourceName src) (store w))
      as [t|] eqn:Hidx; [|done].
    apply bool_decide_eq_true in Htruthy.
    destruct (Hs _ _ _ Hidx) as (tabState & Hget & Hn & Hi).
    exists t, tabState. rewrite (openTab_existing src config w t tabState) by done.
    unfold getTabIdBySource in *. by fields.
  - destruct (default false (config_preview config)) eqn:Hp.
    + pose proof (store_openTab_preview src config w) as Heq. cbv zeta in Heq.
      set (t := match previewTabId (store w) with
                | Some p => p | None => tabIdSequence (store w) + 1 end) in *.
      assert (t ≠ 0) as Hne.
      { unfold t. destruct (previewTabId (store w)) as [p|] eqn:Hpv; [|lia].
        specialize (Hprev p eq_refl). lia. }
      rewrite Heq by done. eexists t, _. unfold getTabIdBySource. fields.
      rewrite index_lookup_set_eq, jsmap_get_set_eq. by split_and!.
    + assert (tabIdSequence (store w) + 1 ≠ 0) as Hne by lia.
      pose proof (store_openTab_new src config w Htruthy Hp Hne) as Heq.
      cbv zeta in Heq. rewrite Heq. eexists _, _. unfold getTabIdBySource. fields.
      rewrite index_lookup_set_eq, jsmap_get_set_eq. by split_and!.
Qed.

(** X2. In a state of the data model, [openTab] ends with the source
    indexed under a truthy identifier, the tab of that identifier showing
    the source, and that tab active; opening the same source again, with
    whatever configuration, changes nothing in the store. *)
Theorem openTab_activates_and_is_idempotent
    (w : World) (src : AbstractTabSource) (config config' : option TabConfig) :
  data_model (store w) →
  let st' := store (openTab src config w) in
  (∃ t tabState,
     t ≠ 0
     ∧ getTabIdBySource (getSourceId src) (getSourceName src) st' = Some t
     ∧ JsMap.get t (tabs st') = Some tabState
     ∧ same_source (source tabState) src
     ∧ activeTabId st' = Some t
     ∧ activeTabSource st' = Some (source tabState))
  ∧ store (openTab src config' (openTab src config w)) = st'.
Proof.
  intros Hdm. cbv zeta.
  destruct (openTab_post src config w Hdm)
    as (t & tabState & Hne & Hidx & Hget & Hsame & Hact & Hsrc).
  split; [by exists t, tabState|].
  rewrite (openTab_existing src config' _ t tabState) by done.
  rewrite <- Hact, <- Hsrc. apply set_active_id.
Qed.

Lemma openTab_activates_and_is_idempotent_witness :
  let st' := store (openTab (request "c") asPreview twoTabs) in
  (∃ t tabState,
     t ≠ 0
     ∧ getTabIdBySource "c" "request" st' = Some t
     ∧ JsMap.get t (tabs st') = Some tabState
     ∧ same_source (source tabState) (request "c")
     ∧ activeTabId st' = Some t
     ∧ activeTabSource st' = Some (source tabState))
  ∧ store (openTab (request "c") None (openTab (request "c") asPreview twoTabs)) = st'.
Proof.
  apply (openTab_activates_and_is_idempotent twoTabs (request "c") asPreview None).
  apply reachable_data_model.
  apply (reachable_run [OpenTab (request "a") None; OpenTab (request "b") None]);
    [reflexivity|constructor].
Defined.

(** ** What a close takes away *)

(** X3. A close that goes through (prompt skipped, or nothing to confirm)
    removes the tab from the map, its identifier from the tab order and
    its source from the index, and nothing else: the other tabs and the
    other index entries stay, the sequence does not move, and the preview
    slot is left as it was, even when it named the closed tab. *)
Theorem closeTabById_removes_tab_and_index_entry
    (confirm : string → bool) (w : World) (tabId : TabId) (tabState : TabState)
    (skip : bool) :
  JsMap.get tabId (tabs (store w)) = Some tabState →
  skip = true ∨ (getActiveBlocker tabState = None ∧ unsaved tabState = false) →
  let st := store w in
  let st' := store (closeTabById confirm tabId skip w) in
  let sourceName := getSourceName (source tabState) in
  let sourceId := getSourceId (source tabState) in
  JsMap.get tabId (tabs st') = None
  ∧ (∀ t, t ≠ tabId → JsMap.get t (tabs st') = JsMap.get t (tabs st))
  ∧ (tabId ∉ tabOrder st')
  ∧ tabOrder st' = filter (λ i, i ≠ tabId) (tabOrder st)
  ∧ getTabIdBySource sourceId sourceName st' = None
  ∧ (∀ sid sn, (sn, sid) ≠ (sourceName, sourceId) →
       getTabIdBySource sid sn st' = getTabIdBySource sid sn st)
  ∧ tabIdSequence st' = tabIdSequence st
  ∧ previewTabId st' = previewTabId st
  ∧ previewTabSource st' = previewTabSource st.
Proof.
  intros Hget Hok. cbv zeta.
  rewrite (closeTabById_unblocked confirm tabId tabState skip w Hget Hok).
  destruct (removeTab_fields tabId tabState (store w) w) as (Hseq & Hp & Hps & Htabs).
  destruct (store_removeTab_tabs tabId tabState (store w) w) as [_ Hord].
  pose proof (removeTab_tabsIndex tabId tabState (store w) w) as Hix.
  unfold getTabIdBySource. rewrite Htabs, Hord, Hix. split_and!; try done.
  - apply jsmap_get_delete_eq.
  - intros t Hne. by apply jsmap_get_delete_ne.
  - intros [Hne _]%list_elem_of_filter. done.
  - rewrite index_lookup_prune. apply index_lookup_delete_eq.
  - intros sid sn Hne. rewrite index_lookup_prune. by apply index_lookup_delete_ne.
Qed.

Lemma closeTabById_removes_tab_and_index_entry_witness :
  let st := store threeTabs in
  let st' := store (closeTabById (λ _, false) 2 false threeTabs) in
  JsMap.get 2 (tabs st') = None
  ∧ (∀ t, t ≠ 2 → JsMap.get t (tabs st') = JsMap.get t (tabs st))
  ∧ (2 ∉ tabOrder st')
  ∧ tabOrder st' = filter (λ i, i ≠ 2) (tabOrder st)
  ∧ getTabIdBySource "b" "request" st' = None
  ∧ (∀ sid sn, (sn, sid) ≠ ("request", "b") →
       getTabIdBySource sid sn st' = getTabIdBySource sid sn st)
  ∧ tabIdSequence st' = tabIdSequence st
  ∧ previewTabId st' = previewTabId st
  ∧ previewTabSource st' = previewTabSource st.
Proof.
  apply (closeTabById_removes_tab_and_index_entry (λ _, false) threeTabs 2
           (createTabStore 2 (request "b") "Untitled request" None) false).
  - vm_compute. reflexivity.
  - right. split; reflexivity.
Defined.

(** ** Reordering *)

(** X4. [updateTabOrder] stores whatever order it is given, leaves the tab
    map alone and bumps the version; from a state where the tab order
    lists the keys of the tab map once each, the new state is such a state
    exactly when the new order is a permutation of the old one. *)
Theorem updateTabOrder_keeps_order_inv_iff_permutation
    (w : World) (newOrder : list TabId) :
  order_inv (store w) →
  let st' := store (updateTabOrder newOrder w) in
  tabOrder st' = newOrder
  ∧ tabs st' = tabs (store w)
  ∧ _version st' = _version (store w) + 1
  ∧ (order_inv st' ↔ newOrder ≡ₚ tabOrder (store w)).
Proof.
  intros Hinv. cbv zeta. split_and!; try done. split.
  - intros [Hnd Hiff]. destruct Hinv as [Hnd0 Hiff0].
    apply NoDup_Permutation; [done|done|].
    intros t. unfold updateTabOrder in Hiff. cbn in Hiff.
    rewrite (Hiff t). symmetry. apply Hiff0.
  - intros Hperm. by apply order_inv_updateTabOrder.
Qed.

Lemma updateTabOrder_keeps_order_inv_iff_permutation_witness :
  let st' := store (updateTabOrder [3; 1; 2] threeTabs) in
  tabOrder st' = [3; 1; 2]
  ∧ tabs st' = tabs (store threeTabs)
  ∧ _version st' = _version (store threeTabs) + 1
  ∧ (order_inv st' ↔ [3; 1; 2] ≡ₚ tabOrder (store threeTabs)).
Proof.
  apply (updateTabOrder_keeps_order_inv_iff_permutation threeTabs [3; 1; 2]).
  apply order_invb_sound. vm_compute. reflexivity.
Defined.

(** ** A new tab, and closing it again *)

Lemma jsmap_set_fresh {K V} `{EqDecision K} (k : K) (v : V) (m : list (K * V)) :
  k ∉ JsMap.keys m → JsMap.set k v m = m ++ [(k, v)].
Proof.
  induction m as [|[k' v'] m IH]; [done|]. unfold JsMap.keys. cbn.
  intros Hnin. apply not_elem_of_cons in Hnin as [Hne Hnin].
  rewrite decide_False by done. by rewrite IH.
Qed.

Lemma jsmap_delete_fresh {K V} `{EqDecision K} (k : K) (m : list (K * V)) :
  k ∉ JsMap.keys m → JsMap.delete k m = m.
Proof.
  induction m as [|[k' v'] m IH]; [done|]. unfold JsMap.keys, JsMap.delete. cbn.
  intros Hnin. apply not_elem_of_cons in Hnin as [Hne Hnin].
  rewrite decide_True by congruence. f_equal. by apply IH.
Qed.

Lemma fresh_id_unused st :
  order_inv st → ids_issued st →
  tabIdSequence st + 1 ≠ 0
  ∧ (tabIdSequence st + 1 ∉ JsMap.keys (tabs st))
  ∧ (tabIdSequence st + 1 ∉ tabOrder st).
Proof.
  intros [_ Ho] (Hseq & Hkeys & _).
  assert (tabIdSequence st + 1 ∉ JsMap.keys (tabs st)) as Hnin.
  { intros Hin%Hkeys. lia. }
  split_and!; [lia|done|]. by rewrite Ho.
Qed.

(** X5. Opening a source that is not indexed, not as a preview, in a state
    of the data model: the next identifier of the sequence is taken, and
    it is used by no tab; the new tab goes last in the tab map and in
    the tab order; the source is indexed under the new identifier and no
    other lookup changes; the new tab is active; the preview slot is left
    alone. *)
Theorem openTab_new_source_appends_tab
    (w : World) (src : AbstractTabSource) (config : option TabConfig) :
  data_model (store w) →
  truthy (getTabIdBySource (getSourceId src) (getSourceName src) (store w)) = false →
  default false (config_preview config) = false →
  let st := store w in
  let st' := store (openTab src config w) in
  let n := tabIdSequence st + 1 in
  (n ∉ JsMap.keys (tabs st))
  ∧ tabIdSequence st' = n
  ∧ tabs st' = tabs st ++ [(n, createTabStore n src (getDefaultTitle src) None)]
  ∧ tabOrder st' = tabOrder st ++ [n]
  ∧ getTabIdBySource (getSourceId src) (getSourceName src) st' = Some n
  ∧ (∀ sid sn, (sn, sid) ≠ (getSourceName src, getSourceId src) →
       getTabIdBySource sid sn st' = getTabIdBySource sid sn st)
  ∧ activeTabId st' = Some n
  ∧ activeTabSource st' = Some src
  ∧ previewTabId st' = previewTabId st
  ∧ previewTabSource st' = previewTabSource st.
Proof.
  intros (Ho & Hi & _) Hidx Hp. cbv zeta.
  destruct (fresh_id_unused (store w) Ho Hi) as (Hne & Hkeys & Hord).
  pose proof (store_openTab_new src config w Hidx Hp Hne) as Heq.
  cbv zeta in Heq. rewrite Heq. unfold getTabIdBySource, includes. fields.
  rewrite bool_decide_eq_false_2 by done.
  rewrite jsmap_set_fresh by done. split_and!; try done.
  - apply index_lookup_set_eq.
  - intros sid sn Hdiff. by apply index_lookup_set_ne.
Qed.

Lemma openTab_new_source_appends_tab_witness :
  let st := store twoTabs in
  let st' := store (openTab (request "c") None twoTabs) in
  let n := tabIdSequence st + 1 in
  (n ∉ JsMap.keys (tabs st))
  ∧ tabIdSequence st' = n
  ∧ tabs st' = tabs st ++ [(n, createTabStore n (request "c") "Untitled request" None)]
  ∧ tabOrder st' = tabOrder st ++ [n]
  ∧ getTabIdBySource "c" "request" st' = Some n
  ∧ (∀ sid sn, (sn, sid) ≠ ("request", "c") →
       getTabIdBySource sid sn st' = getTabIdBySource sid sn st)
  ∧ activeTabId st' = Some n
  ∧ activeTabSource st' = Some (request "c")
  ∧ previewTabId st' = previewTabId st
  ∧ previewTabSource st' = previewTabSource st.
Proof.
  apply (openTab_new_source_appends_tab twoTabs (request "c") None).
  - apply reachable_data_model.
    apply (reachable_run [OpenTab (request "a") None; OpenTab (request "b") None]);
      [reflexivity|constructor].
  - reflexivity.
  - reflexivity.
Defined.

Lemma newActiveTabId_last (n : TabId) (order : list TabId) :
  n ∉ order → newActiveTabId n (Some n) (order ++ [n]) order = last order.
Proof.
  intros Hnin. unfold newActiveTabId. rewrite decide_False by (by intros []).
  destruct (decide (length order = 0%nat)) as [Hlen|Hlen].
  { apply length_zero_iff_nil in Hlen. by subst. }
  rewrite indexOf_middle by done. rewrite (decide_False (P := _ < _)) by lia.
  rewrite decide_True by lia. rewrite last_lookup. f_equal. lia.
Qed.

(** X6. Opening a source that is not indexed, not as a preview, and closing
    the new tab at once (prompt skipped) gives back the tab map, the tab
    order and every index lookup of the state before; the tab that ends up
    active is the last one of the order, or none when there is no tab; only
    the sequence remembers the tab: its identifier is not issued again. *)
Theorem open_then_close_restores_registry
    (confirm : string → bool) (w : World) (src : AbstractTabSource)
    (config : option TabConfig) :
  data_model (store w) →
  truthy (getTabIdBySource (getSourceId src) (getSourceName src) (store w)) = false →
  default false (config_preview config) = false →
  let st := store w in
  let n := tabIdSequence st + 1 in
  let st' := store (closeTabById confirm n true (openTab src config w)) in
  tabs st' = tabs st
  ∧ tabOrder st' = tabOrder st
  ∧ (∀ sid sn, getTabIdBySource sid sn st' = getTabIdBySource sid sn st)
  ∧ activeTabId st' = last (tabOrder st)
  ∧ tabIdSequence st' = n
  ∧ previewTabId st' = previewTabId st.
Proof.
  intros Hdm Hidx Hp. cbv zeta.
  pose proof Hdm as (Ho & Hi & Hs & _).
  destruct (fresh_id_unused (store w) Ho Hi) as (Hne & Hkeys & Hord).
  pose proof (store_openTab_new src config w Hidx Hp Hne) as Heq. cbv zeta in Heq.
  set (n := tabIdSequence (store w) + 1) in *.
  set (tab := createTabStore n src (getDefaultTitle src) None) in *.
  set (w1 := openTab src config w) in *.
  assert (JsMap.get n (tabs (store w1)) = Some tab) as Hget.
  { rewrite Heq. fields. apply jsmap_get_set_eq. }
  rewrite (closeTabById_unblocked confirm n tab true w1 Hget) by (by left).
  assert (tabs (store w1) = JsMap.set n tab (tabs (store w))) as Htabs1
    by (by rewrite Heq).
  assert (tabOrder (store w1) = tabOrder (store w) ++ [n]) as Hord1.
  { rewrite Heq. unfold includes. fields. by rewrite bool_decide_eq_false_2. }
  assert (filter (λ i, i ≠ n) (tabOrder (store w1)) = tabOrder (store w)) as Hfilter.
  { rewrite Hord1, filter_app, filter_ne_absent by done.
    rewrite filter_cons_False by (intros Hnn; by apply Hnn).
    by rewrite filter_nil, app_nil_r. }
  assert (JsMap.delete n (tabs (store w1)) = tabs (store w)) as Hdel.
  { rewrite Htabs1, jsmap_set_fresh by done. unfold JsMap.delete.
    rewrite filter_app. fold (JsMap.delete n (tabs (store w))).
    rewrite jsmap_delete_fresh by done.
    rewrite filter_cons_False by (cbn; intros Hnn; by apply Hnn).
    by rewrite filter_nil, app_nil_r. }
  destruct (removeTab_fields n tab (store w1) w1) as (Hseq' & Hpv' & _ & Htabs').
  destruct (store_removeTab_tabs n tab (store w1) w1) as [_ Hord'].
  pose proof (removeTab_tabsIndex n tab (store w1) w1) as Hix'.
  split_and!.
  - by rewrite Htabs'.
  - by rewrite Hord'.
  - intros sid sn. unfold getTabIdBySource. rewrite Hix', index_lookup_prune.
    change (getSourceName (source tab)) with (getSourceName src).
    change (getSourceId (source tab)) with (getSourceId src).
    assert (tabsIndex (store w1)
            = index_set (getSourceName src) (getSourceId src) n (tabsIndex (store w)))
      as -> by (by rewrite Heq).
    destruct (decide ((sn, sid) = (getSourceName src, getSourceId src)))
      as [[= -> ->]|Hdiff].
    + rewrite index_lookup_delete_eq.
      destruct (JsMap.get (getSourceName src) (tabsIndex (store w))
                  ≫= JsMap.get (getSourceId src)) as [t|] eqn:Hlook; [|done].
      destruct (index_sound_resolves (store w) Hi Hs _ _ _ Hlook) as [Ht _].
      unfold getTabIdBySource in Hidx. rewrite Hlook in Hidx.
      by apply bool_decide_eq_false in Hidx.
    + rewrite index_lookup_delete_ne by done. by apply index_lookup_set_ne.
  - unfold removeTab. cbv zeta. rewrite store_setActiveTab. fields.
    rewrite Hfilter, Hdel.
    assert (activeTabId (store w1) = Some n) as -> by (by rewrite Heq).
    rewrite Hord1, newActiveTabId_last by done.
    destruct (last (tabOrder (store w))) as [x|] eqn:Hlast; [|done].
    cbn [mbind option_bind].
    assert (x ∈ JsMap.keys (tabs (store w))) as Hx.
    { apply Ho. apply last_Some in Hlast as [l' ->].
      apply elem_of_app. right. apply list_elem_of_singleton. done. }
    apply jsmap_elem_of_keys in Hx as [s Hs']. by rewrite Hs'.
  - rewrite Hseq'. by rewrite Heq.
  - rewrite Hpv'. by rewrite Heq.
Qed.

Lemma open_then_close_restores_registry_witness :
  let st := store twoTabs in
  let n := tabIdSequence st + 1 in
  let st' := store (closeTabById (λ _, false) n true
                      (openTab (request "c") None twoTabs)) in
  tabs st' = tabs st
  ∧ tabOrder st' = tabOrder st
  ∧ (∀ sid sn, getTabIdBySource sid sn st' = getTabIdBySource sid sn st)
  ∧ activeTabId st' = last (tabOrder st)
  ∧ tabIdSequence st' = n
  ∧ previewTabId st' = previewTabId st.
Proof.
  apply (open_then_close_restores_registry (λ _, false) twoTabs (request "c") None).
  - apply reachable_data_model.
    apply (reachable_run [OpenTab (request "a") None; OpenTab (request "b") None]);
      [reflexivity|constructor].
  - reflexivity.
  - reflexivity.
Defined.

(** ** Closing many tabs at once *)

Lemma filter_all {A} (P : A → Prop) `{∀ x, Decision (P x)} (l : list A) :
  (∀ x, x ∈ l → P x) → filter P l = l.
Proof.
  induction l as [|a l IH]; [done|]. intros Hall.
  rewrite filter_cons, decide_True by (apply Hall; by left).
  f_equal. apply IH. intros x Hx. apply Hall. by right.
Qed.

Lemma active_linked_closeTabById confirm t skip w :
  active_linked (store w) → active_linked (store (closeTabById confirm t skip w)).
Proof.
  intros Ha. destruct (closeTabById_cases confirm t skip w)
    as [->|(tabState & w' & Hget & Hst & ->)]; [done|].
  unfold removeTab. apply active_linked_setActiveTab.
Qed.

Lemma closeTabById_skip_fields confirm t w :
  order_inv (store w) →
  let st' := store (closeTabById confirm t true w) in
  tabs st' = JsMap.delete t (tabs (store w))
  ∧ tabOrder st' = filter (λ i, i ≠ t) (tabOrder (store w))
  ∧ tabIdSequence st' = tabIdSequence (store w)
  ∧ previewTabId st' = previewTabId (store w).
Proof.
  intros [Hnd Ho]. cbv zeta.
  destruct (JsMap.get t (tabs (store w))) as [tabState|] eqn:Hget.
  - rewrite (closeTabById_unblocked confirm t tabState true w Hget) by (by left).
    destruct (removeTab_fields t tabState (store w) w) as (Hseq & Hp & _ & Htabs).
    destruct (store_removeTab_tabs t tabState (store w) w) as [_ Hord].
    by rewrite Htabs, Hord, Hseq, Hp.
  - unfold closeTabById. cbv zeta. rewrite Hget.
    apply jsmap_get_None in Hget.
    rewrite jsmap_delete_fresh, filter_ne_absent; [done| |done].
    by rewrite Ho.
Qed.

Lemma closeTabById_skip_fold confirm (l : list TabId) (w : World) :
  order_inv (store w) →
  let st' := store (foldl (λ w' t, closeTabById confirm t true w') w l) in
  tabs st' = filter (λ e, e.1 ∉ l) (tabs (store w))
  ∧ tabOrder st' = filter (λ t, t ∉ l) (tabOrder (store w))
  ∧ tabIdSequence st' = tabIdSequence (store w)
  ∧ previewTabId st' = previewTabId (store w).
Proof.
  revert w. induction l as [|t l IH]; intros w Ho; cbv zeta.
  - cbn [foldl]. rewrite !filter_all; [done| |]; intros x _; apply not_elem_of_nil.
  - cbn [foldl].
    destruct (closeTabById_skip_fields confirm t w Ho) as (Ht & Hord & Hseq & Hp).
    destruct (IH (closeTabById confirm t true w)
                (order_inv_closeTabById confirm t true w Ho))
      as (Ht' & Hord' & Hseq' & Hp').
    rewrite Ht', Hord', Hseq', Hp', Ht, Hord, Hseq, Hp.
    unfold JsMap.delete. rewrite !list_filter_filter. split_and!; [| |done|done].
    + apply list_filter_iff. intros [k v]. cbn. rewrite not_elem_of_cons. tauto.
    + apply list_filter_iff. intros k. rewrite not_elem_of_cons. tauto.
Qed.

(** X7. [closeAllTabs] with the prompt skipped, from a state of the data
    model whose active tab is registered: no tab is left in the map or in
    the order, no source is indexed any more, and there is no active tab;
    the sequence and the preview slot are not reset. *)
Theorem closeAllTabs_skip_empties_registry (confirm : string → bool) (w : World) :
  data_model (store w) →
  active_linked (store w) →
  let st' := store (closeAllTabs confirm true w) in
  tabs st' = []
  ∧ tabOrder st' = []
  ∧ (∀ sid sn, getTabIdBySource sid sn st' = None)
  ∧ activeTabId st' = None
  ∧ activeTabSource st' = None
  ∧ tabIdSequence st' = tabIdSequence (store w)
  ∧ previewTabId st' = previewTabId (store w).
Proof.
  intros Hdm Ha. cbv zeta. pose proof Hdm as (Ho & _).
  unfold closeAllTabs.
  destruct (closeTabById_skip_fold confirm (JsMap.keys (tabs (store w))) w Ho)
    as (Ht & Hord & Hseq & Hp).
  set (w' := foldl _ w _) in *.
  assert (tabs (store w') = []) as Hnil.
  { rewrite Ht. apply filter_none. intros [k v] Hin Hnot. apply Hnot.
    apply list_elem_of_fmap. by exists (k, v). }
  assert (data_model (store w')) as (_ & _ & Hs' & _).
  { apply (closeTabById_series data_model confirm true (λ t, t)); [|done].
    intros. by apply data_model_closeTabById. }
  assert (active_linked (store w')) as Ha'.
  { apply (closeTabById_series active_linked confirm true (λ t, t)); [|done].
    intros. by apply active_linked_closeTabById. }
  unfold active_linked in Ha'. rewrite Hnil in Ha'.
  split_and!; [done| | | | |done|done].
  - rewrite Hord. apply filter_none. intros t Hin Hnot. apply Hnot. by apply Ho.
  - intros sid sn. destruct (getTabIdBySource sid sn (store w')) as [t|] eqn:Hl; [|done].
    destruct (Hs' _ _ _ Hl) as (tab & Hget & _). by rewrite Hnil in Hget.
  - destruct (activeTabId (store w')); [|done]. by destruct Ha' as (? & ? & _).
  - destruct (activeTabId (store w')); [|done]. by destruct Ha' as (? & ? & _).
Qed.

Lemma closeAllTabs_skip_empties_registry_witness :
  let st' := store (closeAllTabs (λ _, false) true threeTabs) in
  tabs st' = []
  ∧ tabOrder st' = []
  ∧ (∀ sid sn, getTabIdBySource sid sn st' = None)
  ∧ activeTabId st' = None
  ∧ activeTabSource st' = None
  ∧ tabIdSequence st' = tabIdSequence (store threeTabs)
  ∧ previewTabId st' = previewTabId (store threeTabs).
Proof.
  apply (closeAllTabs_skip_empties_registry (λ _, false) threeTabs).
  - apply reachable_data_model.
    apply (reachable_run [OpenTab (request "a") None; OpenTab (request "b") None;
                          OpenTab (request "c") None]); [reflexivity|constructor].
  - vm_compute. eexists. split; reflexivity.
Defined.

(** X8. [closeTabByContext] with the prompt skipped, from a state where the
    map holds each tab once under its own identifier and the order lists
    the keys: exactly the tabs whose source belongs to the context leave
    the map, the others keep their place, and the order loses the closed
    identifiers and no other. *)
Theorem closeTabByContext_skip_closes_the_context
    (confirm : string → bool) (w : World) (contextId : option string) :
  keyed_by_id (store w) →
  order_inv (store w) →
  let st := store w in
  let st' := store (closeTabByContext confirm contextId true w) in
  let inContext := λ s : TabState, md_context_id (metadata (source s)) = contextId in
  tabs st' = filter (λ e, ¬ inContext e.2) (tabs st)
  ∧ tabOrder st' = filter (λ t, t ∈ JsMap.keys (tabs st')) (tabOrder st)
  ∧ order_inv st'.
Proof.
  intros [Hnd Hid] Ho. cbv zeta. unfold closeTabByContext. cbv zeta.
  set (closing := filter _ (JsMap.values (tabs (store w)))).
  rewrite <- (foldl_fmap (λ w' t, closeTabById confirm t true w') w closing id).
  destruct (closeTabById_skip_fold confirm (id <$> closing) w Ho)
    as (Ht & Hord & _).
  assert (∀ t s, JsMap.get t (tabs (store w)) = Some s →
            t ∈ id <$> closing ↔ md_context_id (metadata (source s)) = contextId)
    as Hclosing.
  { intros t s Hget. pose proof (jsmap_get_elem_of _ _ _ Hget) as Hin. split.
    - intros (s' & -> & [Hctx Hs']%list_elem_of_filter)%list_elem_of_fmap.
      apply list_elem_of_fmap in Hs' as ([k s''] & -> & Hin').
      pose proof (proj1 (Forall_forall _ _) Hid _ Hin') as Hk. cbn in Hk, Hget, Hctx.
      rewrite Hk in Hget. rewrite (jsmap_elem_of_get _ _ _ Hnd Hin') in Hget.
      by injection Hget as <-.
    - intros Hctx. apply list_elem_of_fmap. exists s. split.
      + symmetry. apply (proj1 (Forall_forall _ _) Hid _ Hin).
      + apply list_elem_of_filter. split; [done|].
        apply list_elem_of_fmap. by exists (t, s). }
  assert (tabs (store (foldl (λ w' t, closeTabById confirm t true w') w (id <$> closing)))
          = filter (λ e, ¬ md_context_id (metadata (source e.2)) = contextId)
              (tabs (store w))) as Ht'.
  { rewrite Ht. apply filter_elem_ext. intros [k v] Hin. cbn.
    by rewrite (Hclosing k v (jsmap_elem_of_get _ _ _ Hnd Hin)). }
  split_and!; [done| |].
  - rewrite Hord, Ht'. apply filter_elem_ext. intros t Hin.
    apply Ho, jsmap_elem_of_keys in Hin as [s Hs]. rewrite (Hclosing t s Hs).
    pose proof (jsmap_get_elem_of _ _ _ Hs) as Hin.
    unfold JsMap.keys. rewrite list_elem_of_fmap. split.
    + intros Hn. exists (t, s). split; [done|]. by apply list_elem_of_filter.
    + intros ([k v] & -> & [Hn Hin']%list_elem_of_filter). cbn in *.
      rewrite (jsmap_elem_of_get _ _ _ Hnd Hin') in Hs. by injection Hs as <-.
  - apply (closeTabById_series order_inv confirm true (λ t, t)); [|done].
    intros. by apply order_inv_closeTabById.
Qed.

Lemma closeTabByContext_skip_closes_the_context_witness :
  let st := store mixedContexts in
  let st' := store (closeTabByContext (λ _, false) (Some "team") true mixedContexts) in
  let inContext := λ s : TabState, md_context_id (metadata (source s)) = Some "team" in
  JsMap.keys (tabs st') = [2]
  ∧ tabs st' = filter (λ e, ¬ inContext e.2) (tabs st)
  ∧ tabOrder st' = filter (λ t, t ∈ JsMap.keys (tabs st')) (tabOrder st)
  ∧ order_inv st'.
Proof.
  split; [vm_compute; reflexivity|].
  apply (closeTabByContext_skip_closes_the_context (λ _, false) mixedContexts
           (Some "team")).
  - split; [apply (bool_decide_unpack _); vm_compute; exact I|repeat constructor].
  - apply order_invb_sound. vm_compute. reflexivity.
Defined.

(** ** The tab bar: following the route, dragging a tab *)

(** X9. The effect of the tab bar that follows the route.  While
    [ignorePath] is set, a run of the effect only clears the flag, whatever
    the route matched, so the run after it is not ignored any more.
    Otherwise a run without a match does nothing, and a run with a matched
    source leaves the store as [openTab] of that source does: the lookup
    the effect makes before calling [openTab] or [setActiveTab] changes
    nothing. *)
Theorem route_effect_opens_unless_ignored (w : World) (src : AbstractTabSource) :
  (ignorePath (store w) = true →
     ∀ matched, syncMatchedSource matched w = upd (set_ignorePath false) w
                ∧ ignorePath (store (syncMatchedSource matched w)) = false)
  ∧ (ignorePath (store w) = false →
       syncMatchedSource None w = w
       ∧ store (syncMatchedSource (Some src) w) = store (openTab src None w)).
Proof.
  unfold syncMatchedSource, consumeIgnorePath. split; intros Hig; rewrite Hig.
  - intros [s|]; cbn [fst snd]; done.
  - cbn [fst snd]. split; [done|]. unfold openTab. cbv zeta.
    rewrite store_noteContext.
    destruct (truthy _); [|done].
    by rewrite !store_setActiveTab, store_noteContext.
Qed.

Lemma spliceStart_in_range (i : Z) (len : nat) :
  0 ≤ i → spliceStart i len = (Z.to_nat i `min` len)%nat.
Proof. intros Hi. unfold spliceStart. rewrite decide_False by lia. lia. Qed.

Lemma reorder_in_range {A} (from to : Z) (arr : list A) (x : A) :
  0 ≤ from → 0 ≤ to → arr !! Z.to_nat from = Some x →
  let rest := take (Z.to_nat from) arr ++ drop (S (Z.to_nat from)) arr in
  let b := (Z.to_nat to `min` length rest)%nat in
  reorder from to arr = Some <$> (take b rest ++ x :: drop b rest)
  ∧ arr = take (Z.to_nat from) arr ++ x :: drop (S (Z.to_nat from)) arr.
Proof.
  intros Hfrom Hto Hx. cbv zeta. unfold reorder. cbv zeta.
  pose proof (lookup_lt_Some _ _ _ Hx) as Hlt.
  rewrite (spliceStart_in_range from) by done.
  rewrite (Nat.min_l (Z.to_nat from)) by lia. rewrite Hx.
  rewrite (spliceStart_in_range to) by done.
  split; [by rewrite fmap_app, fmap_cons|].
  symmetry. by apply take_drop_middle.
Qed.

(** X10. Dragging a tab ([onDragEnd]; [moveTab] in the variant of the tab
    bar that orders the map itself), from position [from] of the order to
    position [to].  With [from] inside the order, no entry of the new
    order is undefined, the dragged tab sits at position [to] (at the end,
    when [to] is beyond it), the other tabs keep their relative order, and
    the new order is a permutation of the old one: handing it to
    [updateTabOrder] keeps the order invariant.  With [from] beyond the
    order nothing is removed and an undefined entry is inserted. *)
Theorem onDragEnd_moves_one_tab (w : World) (from to : Z) :
  order_inv (store w) →
  0 ≤ from → 0 ≤ to →
  let order := tabOrder (store w) in
  (Z.to_nat from < length order →
     ∃ newOrder moved,
       reorder from to order = Some <$> newOrder
       ∧ order !! Z.to_nat from = Some moved
       ∧ newOrder !! (Z.to_nat to `min` (length order - 1)) = Some moved
       ∧ filter (λ t, t ≠ moved) newOrder = filter (λ t, t ≠ moved) order
       ∧ newOrder ≡ₚ order
       ∧ order_inv (store (updateTabOrder newOrder w)))%nat
  ∧ (length order ≤ Z.to_nat from →
       None ∈ reorder from to order
       ∧ length (reorder from to order) = S (length order))%nat.
Proof.
  intros Ho Hfrom Hto. cbv zeta. split.
  - intros Hlt. destruct (lookup_lt_is_Some_2 _ _ Hlt) as [x Hx].
    destruct (reorder_in_range from to _ x Hfrom Hto Hx) as [Heq Hsplit].
    cbv zeta in Heq. set (order := tabOrder (store w)) in *.
    set (a := Z.to_nat from) in *.
    set (rest := take a order ++ drop (S a) order) in *.
    assert (length rest = (length order - 1)%nat) as Hlen.
    { unfold rest. rewrite length_app, length_take, length_drop. lia. }
    set (b := (Z.to_nat to `min` length rest)%nat) in *.
    assert (take b rest ++ x :: drop b rest ≡ₚ order) as Hperm.
    { rewrite <- Permutation_middle, take_drop. unfold rest.
      rewrite Permutation_middle. by rewrite <- Hsplit. }
    exists (take b rest ++ x :: drop b rest), x. split_and!; [done|done| | |done|].
    + rewrite <- Hlen. fold b.
      assert (length (take b rest) = b) as Hb by (rewrite length_take; lia).
      rewrite <- Hb at 1. apply list_lookup_middle. done.
    + rewrite filter_app, filter_cons_False by (intros Hn; by apply Hn).
      rewrite <- filter_app, take_drop.
      transitivity (filter (λ t, t ≠ x) (take a order ++ x :: drop (S a) order));
        [|by rewrite <- Hsplit].
      rewrite (filter_app _ (take a order)).
      rewrite filter_cons_False by (intros Hn; by apply Hn).
      unfold rest. by rewrite filter_app.
    + by apply order_inv_updateTabOrder.
  - intros Hge. unfold reorder. cbv zeta.
    rewrite (spliceStart_in_range from) by done.
    rewrite (Nat.min_r (Z.to_nat from)) by lia.
    rewrite (lookup_ge_None_2 _ (length _)) by lia.
    rewrite (take_ge _ (length (tabOrder (store w)))) by lia.
    rewrite (drop_ge _ (S (length (tabOrder (store w))))) by lia.
    rewrite app_nil_r. split.
    + apply elem_of_app. right. by left.
    + rewrite length_app. cbn [length]. rewrite !length_fmap.
      rewrite length_take, length_drop. lia.
Qed.

Lemma onDragEnd_moves_one_tab_witness :
  let order := tabOrder (store threeTabs) in
  reorder 0 2 order = [Some 2; Some 3; Some 1]
  ∧ (Z.to_nat 0 < length order →
       ∃ newOrder moved,
         reorder 0 2 order = Some <$> newOrder
         ∧ order !! Z.to_nat 0 = Some moved
         ∧ newOrder !! (Z.to_nat 2 `min` (length order - 1)) = Some moved
         ∧ filter (λ t, t ≠ moved) newOrder = filter (λ t, t ≠ moved) order
         ∧ newOrder ≡ₚ order
         ∧ order_inv (store (updateTabOrder newOrder threeTabs)))%nat
  ∧ (length order ≤ Z.to_nat 0 →
       None ∈ reorder 0 2 order
       ∧ length (reorder 0 2 order) = S (length order))%nat.
Proof.
  split; [vm_compute; reflexivity|].
  apply (onDragEnd_moves_one_tab threeTabs 0 2).
  - apply order_invb_sound. vm_compute. reflexivity.
  - lia.
  - lia.
Defined.

(** ** Writing the store and reading it back *)

Lemma jsmap_of_entries_NoDup {K V} `{EqDecision K} (l : list (K * V)) :
  NoDup (JsMap.keys l) → JsMap.of_entries l = l.
Proof.
  unfold JsMap.of_entries.
  assert (∀ m, NoDup (JsMap.keys (m ++ l)) →
            foldl (λ m kv, JsMap.set kv.1 kv.2 m) m l = m ++ l) as Hgen.
  { induction l as [|[k v] l IH]; intros m Hnd; cbn [foldl].
    - by rewrite app_nil_r.
    - cbn [fst snd]. rewrite jsmap_set_fresh.
      + rewrite IH; [by rewrite <- app_assoc|]. by rewrite <- app_assoc.
      + unfold JsMap.keys in *. rewrite fmap_app in Hnd.
        apply NoDup_app in Hnd as (_ & Hdis & _). intros Hin.
        apply (Hdis k Hin). cbn. by left. }
  intros Hnd. by apply (Hgen []).
Qed.

Lemma jsmap_get_fmap {K V W} `{EqDecision K} (f : K → V → W) (k : K)
    (m : list (K * V)) :
  JsMap.get k ((λ e, (e.1, f e.1 e.2)) <$> m) = f k <$> JsMap.get k m.
Proof.
  induction m as [|[k' v] m IH]; [done|]. cbn.
  destruct (decide (k = k')) as [->|]; [done|]. apply IH.
Qed.

Lemma rebuildTab_snapshots
    (TAB_SOURCES_MAP : string → option (Metadata → AbstractTabSource))
    (m : list (TabId * TabState)) :
  Forall (λ e : TabId * TabState,
            ∃ ctor, TAB_SOURCES_MAP (type (source e.2)) = Some ctor
                    ∧ ctor (metadata (source e.2)) = source e.2) m →
  rmap (rebuildTab TAB_SOURCES_MAP)
    ((λ e : TabId * TabState, (e.1, snapshot e.2)) <$> m)
  = Ok (rebuilt <$> m).
Proof.
  induction 1 as [|[k s] m (ctor & Hctor & Hsrc) _ IH]; [done|].
  cbn [fmap list_fmap rmap]. rewrite IH. unfold rebuildTab, newSource.
  cbn [fst snd snapshot pt_source ps_type ps_metadata pt_title].
  cbn [snd] in Hctor, Hsrc. rewrite Hctor. cbn [rbind]. by rewrite Hsrc.
Qed.

Lemma finalTabOrder_same (order keys : list TabId) :
  (∀ t, t ∈ order ↔ t ∈ keys) → finalTabOrder order keys = order.
Proof.
  intros Hiff. unfold finalTabOrder, missingTabs, validTabOrder.
  rewrite (filter_all _ order) by (intros x Hx; by apply Hiff).
  rewrite filter_none; [by rewrite app_nil_r|].
  intros x Hx Hn. apply Hn. by apply Hiff.
Qed.

(** X11. What [setItem] writes, [getItem] reads back.  Assume that
    [JSON.parse] returns the value [JSON.stringify] was given, that the
    text is not empty and fits the quota, that the registry of source
    constructors rebuilds the source of every tab, that no map holds a key
    twice and that the tab order lists the keys of the tab map.  Then
    [setItem] succeeds and [getItem] on the new storage returns the
    sequence, the active tab, the index, the tab order and the version
    that were written, and a tab map with the same keys in the same order
    whose tabs have the written source and title but none of the other
    state; the active source is the one written when the active tab was
    registered. *)
Theorem setItem_then_getItem_restores_registry
    (JSON_stringify : StoredValue → Result string)
    (JSON_parse : string → Result StoredValue)
    (quotaExceeded : list (string * string) → bool)
    (TAB_SOURCES_MAP : string → option (Metadata → AbstractTabSource))
    (name text : string) (storage : list (string * string))
    (st : TabServiceState) (version : option Z) :
  JSON_stringify (serializable (partialize st) version) = Ok text →
  text ≠ EmptyString →
  JSON_parse text = Ok (serializable (partialize st) version) →
  quotaExceeded (JsMap.set name text storage) = false →
  sources_registered TAB_SOURCES_MAP st →
  NoDup (JsMap.keys (tabs st)) →
  index_keys_distinct st →
  order_inv st →
  ∃ storage' h,
    setItem JSON_stringify quotaExceeded name (partialize st) version storage
    = Ok storage'
    ∧ getItem JSON_parse TAB_SOURCES_MAP name storage' = Ok (Some (h, version))
    ∧ h_tabIdSequence h = tabIdSequence st
    ∧ h_activeTabId h = activeTabId st
    ∧ h_tabsIndex h = tabsIndex st
    ∧ h_tabOrder h = tabOrder st
    ∧ h_version h = _version st
    ∧ h_tabs h = rebuilt <$> tabs st
    ∧ (active_linked st → activeTabId st ≠ Some 0 →
         h_activeTabSource h = activeTabSource st).
Proof.
  intros Hstr Hne Hparse Hquota Hreg Hnd [Hix Hinner] [Hndo Ho].
  assert (JsMap.keys (rebuilt <$> tabs st) = JsMap.keys (tabs st)) as Hkeys.
  { unfold JsMap.keys. rewrite <- list_fmap_compose. by apply list_fmap_ext. }
  assert (JsMap.of_entries (rebuilt <$> tabs st) = rebuilt <$> tabs st) as Hof
    by (apply jsmap_of_entries_NoDup; by rewrite Hkeys).
  eexists _, _. split.
  { unfold setItem. rewrite Hstr. cbn [rbind]. unfold sessionStorage_setItem.
    cbv zeta. rewrite Hquota. reflexivity. }
  split.
  { unfold getItem. rewrite jsmap_get_set_eq, decide_False by done.
    rewrite Hparse. cbn [rbind]. cbv zeta.
    cbn [serializable sv_state sv_version p_tabs p_tabsIndex p_tabIdSequence
         p_activeTabId p_tabOrder p_version partialize kept_tabs kept_tabsIndex
         kept_tabIdSequence kept_activeTabId kept_tabOrder kept__version].
    rewrite (rebuildTab_snapshots TAB_SOURCES_MAP (tabs st) Hreg).
    cbn [rbind rethrow]. reflexivity. }
  cbn [h_tabIdSequence h_activeTabId h_tabsIndex h_tabOrder h_version h_tabs
       h_activeTabSource default]. rewrite Hof, Hkeys.
  split_and!; try done.
  - assert ((λ e : SourceName * list (SourceId * TabId),
               (e.1, JsMap.of_entries e.2)) <$> tabsIndex st = tabsIndex st) as ->.
    { induction Hinner as [|[sn sm] ix Hsm _ IH]; [done|].
      cbn [fmap list_fmap fst snd]. cbn in Hsm.
      rewrite (jsmap_of_entries_NoDup sm Hsm). f_equal. apply IH.
      unfold JsMap.keys in Hix. cbn in Hix. by apply NoDup_cons in Hix as [_ ?]. }
    by apply jsmap_of_entries_NoDup.
  - by apply finalTabOrder_same.
  - unfold active_linked. intros Ha Hnz.
    destruct (activeTabId st) as [t|] eqn:Hact; [|done].
    destruct Ha as (tabState & Hget & ->).
    unfold truthy. rewrite bool_decide_eq_true_2 by congruence.
    cbn [mbind option_bind].
    change (rebuilt <$> tabs st)
      with ((λ e : TabId * TabState,
               (e.1, (λ k s, createTabStore k (source s) (title s) None) e.1 e.2))
              <$> tabs st).
    by rewrite jsmap_get_fmap, Hget.
Qed.

Lemma setItem_then_getItem_restores_registry_witness :
  ∃ storage' h,
    setItem sampleStringify sampleQuota storeName (partialize (store twoTabs))
      (Some 0) [("theme", "dark")]
    = Ok storage'
    ∧ getItem twoTabsParse sampleSources storeName storage' = Ok (Some (h, Some 0))
    ∧ h_tabIdSequence h = tabIdSequence (store twoTabs)
    ∧ h_activeTabId h = activeTabId (store twoTabs)
    ∧ h_tabsIndex h = tabsIndex (store twoTabs)
    ∧ h_tabOrder h = tabOrder (store twoTabs)
    ∧ h_version h = _version (store twoTabs)
    ∧ h_tabs h = rebuilt <$> tabs (store twoTabs)
    ∧ (active_linked (store twoTabs) → activeTabId (store twoTabs) ≠ Some 0 →
         h_activeTabSource h = activeTabSource (store twoTabs)).
Proof.
  apply (setItem_then_getItem_restores_registry sampleStringify twoTabsParse
           sampleQuota sampleSources storeName "{sample}" [("theme", "dark")]
           (store twoTabs) (Some 0)).
  - reflexivity.
  - discriminate.
  - reflexivity.
  - reflexivity.
  - vm_compute. repeat constructor; eexists; split; reflexivity.
  - apply (bool_decide_unpack _). vm_compute. exact I.
  - split; [apply (bool_decide_unpack _); vm_compute; exact I|].
    repeat constructor; apply (bool_decide_unpack _); vm_compute; exact I.
  - apply order_invb_sound. vm_compute. reflexivity.
Defined.

(** X12. [getItem] returns [null] exactly when the store's key is absent
    from the session storage or holds the empty string: any other stored
    text is parsed, and gives a state or an error. *)
Theorem getItem_null_iff_nothing_stored
    (JSON_parse : string → Result StoredValue)
    (TAB_SOURCES_MAP : string → option (Metadata → AbstractTabSource))
    (name : string) (storage : list (string * string)) :
  getItem JSON_parse TAB_SOURCES_MAP name storage = Ok None
  ↔ JsMap.get name storage = None ∨ JsMap.get name storage = Some EmptyString.
Proof.
  unfold getItem. destruct (JsMap.get name storage) as [text|]; [|by split; [left|]].
  case_decide as Hempty; [subst; by split; [right|]|].
  split; [|by intros [|[= ->]]].
  destruct (JSON_parse text) as [v|e]; [|done]. cbn [rbind]. cbv zeta.
  by destruct (rmap _ _).
Qed.

(** ** Starting over *)

(** X13. [reset] puts the store back in its initial state, with
    [ignorePath] as given, and clears the stored copy; the sequence starts
    over too: whatever identifiers were in use before, the next source
    opened, preview or not, gets identifier 1 and is the only tab. *)
Theorem reset_restarts_identifiers
    (w : World) (ignore : bool) (src : AbstractTabSource) (config : option TabConfig) :
  let w' := reset ignore w in
  let st'' := store (openTab src config w') in
  store w' = set_ignorePath ignore initialState
  ∧ effects w' = effects w ++ [ClearStorage]
  ∧ tabIdSequence st'' = 1
  ∧ tabs st'' = [(1, createTabStore 1 src (getDefaultTitle src) (config_preview config))]
  ∧ tabOrder st'' = [1]
  ∧ getTabIdBySource (getSourceId src) (getSourceName src) st'' = Some 1
  ∧ activeTabId st'' = Some 1.
Proof.
  cbv zeta. split; [done|]. split; [done|].
  destruct (default false (config_preview config)) eqn:Hp.
  - pose proof (store_openTab_preview src config (reset ignore w)) as Heq.
    cbv zeta in Heq. rewrite Heq by done. unfold getTabIdBySource. fields.
    cbn [tabIdSequence initialState set_ignorePath previewTabId tabs tabOrder
         tabsIndex Z.add].
    split_and!; try done. apply index_lookup_set_eq.
  - pose proof (store_openTab_new src config (reset ignore w)) as Heq.
    cbv zeta in Heq. rewrite Heq by done. unfold getTabIdBySource. fields.
    cbn [tabIdSequence initialState set_ignorePath previewTabId tabs tabOrder
         tabsIndex Z.add].
    split_and!; try done.
    + destruct config as [[[]]|]; done.
    + apply index_lookup_set_eq.
Qed.

(** ** Addressing a tab by its source *)

(** X14. [updateTabBySource] on an indexed source whose tab exists: the
    tab takes the title, preview flag and icon of the update, where given;
    the [unsaved] field of the update is not applied; the tab keeps its
    place in the map; the other tabs, the order, the index, the active tab
    and the preview slot are untouched, also when the preview flag
    changes; the version goes up by one. *)
Theorem updateTabBySource_changes_one_tab
    (w : World) (sourceId : SourceId) (sourceName : SourceName)
    (updates : TabUpdates) (t : TabId) (tabState : TabState) :
  getTabIdBySource sourceId sourceName (store w) = Some t → t ≠ 0 →
  JsMap.get t (tabs (store w)) = Some tabState →
  let st := store w in
  let st' := store (updateTabBySource sourceId sourceName updates w) in
  (∃ s', JsMap.get t (tabs st') = Some s'
         ∧ title s' = default (title tabState) (upd_title updates)
         ∧ preview s' = default (preview tabState) (upd_preview updates)
         ∧ icon s' = default (icon tabState) (upd_icon updates)
         ∧ unsaved s' = unsaved tabState
         ∧ id s' = id tabState ∧ source s' = source tabState
         ∧ closable s' = closable tabState
         ∧ getActiveBlocker s' = getActiveBlocker tabState)
  ∧ (∀ t', t' ≠ t → JsMap.get t' (tabs st') = JsMap.get t' (tabs st))
  ∧ JsMap.keys (tabs st') = JsMap.keys (tabs st)
  ∧ tabOrder st' = tabOrder st
  ∧ tabsIndex st' = tabsIndex st
  ∧ activeTabId st' = activeTabId st
  ∧ previewTabId st' = previewTabId st
  ∧ previewTabSource st' = previewTabSource st
  ∧ _version st' = _version st + 1.
Proof.
  intros Hidx Hne Hget. cbv zeta. unfold updateTabBySource. cbv zeta.
  rewrite Hidx. unfold truthy. rewrite bool_decide_eq_true_2 by done.
  cbn [mbind option_bind]. rewrite Hget. cbn [fmap option_fmap option_map].
  unfold incrementVersion. fields. split_and!; try done.
  - eexists. rewrite jsmap_get_set_eq. by split_and!.
  - intros t' Hne'. by apply jsmap_get_set_ne.
  - rewrite jsmap_keys_set, decide_True; [done|].
    apply jsmap_elem_of_keys. by eexists.
Qed.

Lemma updateTabBySource_changes_one_tab_witness :
  let st := store twoTabs in
  let st' := store (updateTabBySource "a" "request" markPreview twoTabs) in
  (∃ s', JsMap.get 1 (tabs st') = Some s'
         ∧ title s' = "Untitled request"
         ∧ preview s' = true
         ∧ icon s' = EmptyString
         ∧ unsaved s' = false
         ∧ id s' = 1 ∧ source s' = request "a"
         ∧ closable s' = true
         ∧ getActiveBlocker s' = None)
  ∧ (∀ t', t' ≠ 1 → JsMap.get t' (tabs st') = JsMap.get t' (tabs st))
  ∧ JsMap.keys (tabs st') = JsMap.keys (tabs st)
  ∧ tabOrder st' = tabOrder st
  ∧ tabsIndex st' = tabsIndex st
  ∧ activeTabId st' = activeTabId st
  ∧ previewTabId st' = previewTabId st
  ∧ previewTabSource st' = previewTabSource st
  ∧ _version st' = _version st + 1.
Proof.
  apply (updateTabBySource_changes_one_tab twoTabs "a" "request" markPreview 1
           (createTabStore 1 (request "a") "Untitled request" None)).
  - reflexivity.
  - lia.
  - reflexivity.
Defined.

(** X15. A source that is not indexed: [getTabStateBySource] finds no tab,
    and [updateTabBySource], [closeTabBySource] and [closeTab] return
    without touching the store or asking anything. *)
Theorem unindexed_source_is_left_alone
    (confirm : string → bool) (w : World) (sourceId : SourceId)
    (sourceName : SourceName) :
  getTabIdBySource sourceId sourceName (store w) = None →
  getTabStateBySource sourceId sourceName (store w) = None
  ∧ (∀ updates, updateTabBySource sourceId sourceName updates w = w)
  ∧ (∀ skip, closeTabBySource confirm sourceId sourceName skip w = w)
  ∧ (∀ src skip, getSourceId src = sourceId → getSourceName src = sourceName →
       closeTab confirm src skip w = w).
Proof.
  intros Hidx. split_and!.
  - unfold getTabStateBySource. by rewrite Hidx.
  - intros updates. unfold updateTabBySource. by rewrite Hidx.
  - intros skip. unfold closeTabBySource. by rewrite Hidx.
  - intros src skip <- <-. unfold closeTab. by rewrite Hidx.
Qed.

Lemma unindexed_source_is_left_alone_witness :
  getTabStateBySource "z" "request" (store twoTabs) = None
  ∧ (∀ updates, updateTabBySource "z" "request" updates twoTabs = twoTabs)
  ∧ (∀ skip, closeTabBySource (λ _, true) "z" "request" skip twoTabs = twoTabs)
  ∧ (∀ src skip, getSourceId src = "z" → getSourceName src = "request" →
       closeTab (λ _, true) src skip twoTabs = twoTabs).
Proof.
  apply (unindexed_source_is_left_alone (λ _, true) twoTabs "z" "request").
  reflexivity.
Defined.

(** X16. [closeTab] with the prompt skipped, in a state of the data model:
    afterwards the source is not indexed, so that closing it again, with
    or without prompt, does nothing; [closeTabBySource] with the source's
    id and name does the same. *)
Theorem closeTab_unindexes_source
    (confirm : string → bool) (w : World) (src : AbstractTabSource) :
  data_model (store w) →
  let w' := closeTab confirm src true w in
  getTabIdBySource (getSourceId src) (getSourceName src) (store w') = None
  ∧ (∀ confirm' skip, closeTab confirm' src skip w' = w')
  ∧ closeTabBySource confirm (getSourceId src) (getSourceName src) true w = w'.
Proof.
  intros (Ho & Hi & Hs & _). cbv zeta.
  assert (getTabIdBySource (getSourceId src) (getSourceName src)
            (store (closeTab confirm src true w)) = None) as Hnone.
  { unfold closeTab. cbv zeta.
    destruct (getTabIdBySource (getSourceId src) (getSourceName src) (store w))
      as [t|] eqn:Hidx; [|done].
    destruct (index_sound_resolves (store w) Hi Hs _ _ _ Hidx) as [Hne _].
    destruct (Hs _ _ _ Hidx) as (tabState & Hget & Hn & Hid).
    rewrite decide_False by done.
    rewrite (closeTabById_unblocked confirm t tabState true w Hget) by (by left).
    unfold getTabIdBySource. rewrite removeTab_tabsIndex, index_lookup_prune.
    rewrite Hn, Hid. apply index_lookup_delete_eq. }
  split_and!; [done| |done].
  intros confirm' skip. set (w' := closeTab confirm src true w) in *.
  unfold closeTab at 1. cbv zeta. by rewrite Hnone.
Qed.

Lemma closeTab_unindexes_source_witness :
  let w' := closeTab (λ _, false) (request "a") true twoTabs in
  JsMap.keys (tabs (store w')) = [2]
  ∧ getTabIdBySource "a" "request" (store w') = None
  ∧ (∀ confirm' skip, closeTab confirm' (request "a") skip w' = w')
  ∧ closeTabBySource (λ _, false) "a" "request" true twoTabs = w'.
Proof.
  split; [vm_compute; reflexivity|].
  apply (closeTab_unindexes_source (λ _, false) twoTabs (request "a")).
  apply reachable_data_model.
  apply (reachable_run [OpenTab (request "a") None; OpenTab (request "b") None]);
    [reflexivity|constructor].
Defined.



(** ** The store that keeps the tab order in the map itself *)

Lemma newActiveTabId_middle (t : TabId) (pre post : list TabId) :
  NoDup (pre ++ t :: post) →
  newActiveTabId t (Some t) (pre ++ t :: post) (pre ++ post)
  = match post with x :: _ => Some x | [] => last pre end.
Proof.
  intros Hnd. unfold newActiveTabId. rewrite decide_False by (by intros []).
  assert (t ∉ pre) as Hpre.
  { apply NoDup_app in Hnd as (_ & Hdis & _). intros Hin.
    apply (Hdis t Hin). by left. }
  rewrite indexOf_middle by done.
  destruct (decide (length (pre ++ post) = 0%nat)) as [Hlen|Hlen].
  { apply length_zero_iff_nil, app_eq_nil in Hlen as [-> ->]. done. }
  rewrite length_app in *. destruct post as [|x post].
  - rewrite (decide_False (P := _ < _)) by (cbn [length]; lia).
    cbn [length] in Hlen. rewrite decide_True by lia.
    rewrite app_nil_r, last_lookup. f_equal. lia.
  - rewrite (decide_True (P := _ < _)) by (cbn [length]; lia).
    rewrite decide_True by lia. rewrite Nat2Z.id. by apply list_lookup_middle.
Qed.

Lemma mo_store_noteContext s w :
  MapOrdered.store (MapOrdered.noteContext s w) = MapOrdered.store w.
Proof.
  unfold MapOrdered.noteContext. destruct (md_context_id (metadata s)); [|done].
  by case_decide.
Qed.

Lemma mo_store_setActiveTab i w :
  MapOrdered.store (MapOrdered.setActiveTab i w)
  = match i ≫= λ t, JsMap.get t (MapOrdered.tabs (MapOrdered.store w)) with
    | Some tabState =>
        MapOrdered.set_active i (Some (source tabState)) (MapOrdered.store w)
    | None => MapOrdered.set_active None None (MapOrdered.store w)
    end.
Proof.
  unfold MapOrdered.setActiveTab. destruct (i ≫= _); [|done].
  by rewrite mo_store_noteContext.
Qed.

Lemma mo_closeTabById_unblocked confirm tabId tabState skip w :
  JsMap.get tabId (MapOrdered.tabs (MapOrdered.store w)) = Some tabState →
  skip = true ∨ (getActiveBlocker tabState = None ∧ unsaved tabState = false) →
  MapOrdered.closeTabById confirm tabId skip w
  = MapOrdered.removeTab tabId tabState (MapOrdered.store w) w.
Proof.
  intros Hget Hok. unfold MapOrdered.closeTabById. cbv zeta. rewrite Hget.
  destruct Hok as [->|[Hb Hu]]; [done|]. rewrite Hb, Hu.
  by destruct skip.
Qed.

(** X18. In the store that orders the map itself, a close that goes
    through takes the tab out of the map and its source out of the index,
    and the other tabs keep their order; when the closed tab was the
    active one, the tab that followed it in the map becomes active, or the
    one before it when it was the last, or none when it was the only
    one. *)
Theorem map_order_close_activates_neighbour
    (confirm : string → bool) (w : MapOrdered.World) (tabId : TabId)
    (tabState : TabState) (skip : bool) (pre post : list TabId) :
  JsMap.get tabId (MapOrdered.tabs (MapOrdered.store w)) = Some tabState →
  MapOrdered.activeTabId (MapOrdered.store w) = Some tabId →
  skip = true ∨ (getActiveBlocker tabState = None ∧ unsaved tabState = false) →
  JsMap.keys (MapOrdered.tabs (MapOrdered.store w)) = pre ++ tabId :: post →
  NoDup (pre ++ tabId :: post) →
  let st' := MapOrdered.store (MapOrdered.closeTabById confirm tabId skip w) in
  JsMap.keys (MapOrdered.tabs st') = pre ++ post
  ∧ MapOrdered.activeTabId st'
    = match post with x :: _ => Some x | [] => last pre end
  ∧ JsMap.get tabId (MapOrdered.tabs st') = None
  ∧ (∀ t, t ≠ tabId →
       JsMap.get t (MapOrdered.tabs st')
       = JsMap.get t (MapOrdered.tabs (MapOrdered.store w)))
  ∧ MapOrdered.getTabIdBySource (getSourceId (source tabState))
      (getSourceName (source tabState)) st' = None
  ∧ MapOrdered.tabIdSequence st' = MapOrdered.tabIdSequence (MapOrdered.store w).
Proof.
  intros Hget Hact Hok Hkeys Hnd. cbv zeta.
  rewrite (mo_closeTabById_unblocked confirm tabId tabState skip w Hget Hok).
  unfold MapOrdered.removeTab. cbv zeta. rewrite mo_store_setActiveTab.
  cbn [MapOrdered.store MapOrdered.upd MapOrdered.tabs MapOrdered.set_tabs
       MapOrdered.set_tabsIndex].
  rewrite Hact, Hkeys, filter_drop_middle, newActiveTabId_middle by done.
  assert (JsMap.keys (JsMap.delete tabId (MapOrdered.tabs (MapOrdered.store w)))
          = pre ++ post) as Hkeys'.
  { by rewrite jsmap_keys_delete, Hkeys, filter_drop_middle. }
  set (next := match post with x :: _ => Some x | [] => last pre end).
  assert (match next ≫= λ t, JsMap.get t (JsMap.delete tabId
                                (MapOrdered.tabs (MapOrdered.store w))) with
          | Some _ => True
          | None => next = None
          end) as Hnext.
  { destruct next as [x|] eqn:Hx; [|done]. cbn [mbind option_bind].
    assert (x ∈ pre ++ post) as Hin.
    { unfold next in Hx. destruct post as [|y post].
      - apply last_Some in Hx as [l' ->]. rewrite app_nil_r.
        apply elem_of_app. right. by left.
      - injection Hx as ->. apply elem_of_app. right. by left. }
    rewrite <- Hkeys' in Hin. apply jsmap_elem_of_keys in Hin as [s ->]. done. }
  destruct (next ≫= _) as [s|];
    cbn [MapOrdered.tabs MapOrdered.set_active MapOrdered.set_tabs
         MapOrdered.set_tabsIndex MapOrdered.activeTabId MapOrdered.tabIdSequence
         MapOrdered.tabsIndex MapOrdered.getTabIdBySource];
    unfold MapOrdered.getTabIdBySource;
    cbn [MapOrdered.tabs MapOrdered.set_active MapOrdered.set_tabs
         MapOrdered.set_tabsIndex MapOrdered.activeTabId MapOrdered.tabIdSequence
         MapOrdered.tabsIndex];
    rewrite index_lookup_prune, index_lookup_delete_eq, jsmap_get_delete_eq;
    (split_and!; [done|done|done| |done|done]);
    intros t Hne; by apply jsmap_get_delete_ne.
Qed.

Lemma map_order_close_activates_neighbour_witness :
  let st' := MapOrdered.store
               (MapOrdered.closeTabById (λ _, false) 3 false MapOrdered.threeTabs) in
  JsMap.keys (MapOrdered.tabs st') = [1; 2] ++ []
  ∧ MapOrdered.activeTabId st' = last [1; 2]
  ∧ JsMap.get 3 (MapOrdered.tabs st') = None
  ∧ (∀ t, t ≠ 3 →
       JsMap.get t (MapOrdered.tabs st')
       = JsMap.get t (MapOrdered.tabs (MapOrdered.store MapOrdered.threeTabs)))
  ∧ MapOrdered.getTabIdBySource "c" "request" st' = None
  ∧ MapOrdered.tabIdSequence st'
    = MapOrdered.tabIdSequence (MapOrdered.store MapOrdered.threeTabs).
Proof.
  apply (map_order_close_activates_neighbour (λ _, false) MapOrdered.threeTabs 3
           (createTabStore 3 (request "c") "Untitled request" None) false [1; 2] []).
  - reflexivity.
  - reflexivity.
  - right. split; reflexivity.
  - reflexivity.
  - apply (bool_decide_unpack _). vm_compute. exact I.
Defined.

Lemma finalTabs_spec (tabs' : list (TabId * TabState)) (ids : list TabId) :
  NoDup ids → Forall (λ i, i ∈ JsMap.keys tabs') ids →
  JsMap.keys (MapOrdered.finalTabs tabs' ids) = ids
  ∧ ∀ i, JsMap.get i (MapOrdered.finalTabs tabs' ids)
         = if decide (i ∈ ids) then JsMap.get i tabs' else None.
Proof.
  unfold MapOrdered.finalTabs. intros Hnd Hall.
  assert (∀ m : list (TabId * TabState),
            NoDup (JsMap.keys m ++ ids) →
            let m' := foldl (λ m i, match JsMap.get i tabs' with
                                    | Some s => JsMap.set i s m
                                    | None => m
                                    end) m ids in
            JsMap.keys m' = JsMap.keys m ++ ids
            ∧ ∀ i, JsMap.get i m'
                   = if decide (i ∈ ids) then JsMap.get i tabs' else JsMap.get i m)
    as Hgen.
  { clear Hnd. induction Hall as [|i ids Hi _ IH]; intros m Hnd; cbv zeta.
    - cbn [foldl]. rewrite app_nil_r. split; [done|]. intros i.
      by rewrite decide_False by apply not_elem_of_nil.
    - cbn [foldl]. apply jsmap_elem_of_keys in Hi as [s Hs]. rewrite Hs.
      assert (i ∉ JsMap.keys m) as Hfresh.
      { apply NoDup_app in Hnd as (_ & Hdis & _). intros Hin.
        apply (Hdis i Hin). by left. }
      assert (i ∉ ids) as Hni.
      { apply NoDup_app in Hnd as (_ & _ & Hnd'). by apply NoDup_cons in Hnd' as [? _]. }
      assert (JsMap.keys (JsMap.set i s m) = JsMap.keys m ++ [i]) as Hks.
      { rewrite jsmap_set_fresh by done. unfold JsMap.keys. by rewrite fmap_app. }
      destruct (IH (JsMap.set i s m)) as [Hk Hg].
      { by rewrite Hks, <- app_assoc. }
      cbv zeta in Hk, Hg. split; [by rewrite Hk, Hks, <- app_assoc|].
      intros j. rewrite Hg. destruct (decide (j = i)) as [->|Hne].
      + rewrite decide_False by done. rewrite decide_True by (by left).
        by rewrite jsmap_get_set_eq.
      + destruct (decide (j ∈ ids)) as [Hin|Hnin].
        * by rewrite decide_True by (by right).
        * rewrite decide_False by (intros [?|?]%elem_of_cons; done).
          by rewrite jsmap_get_set_ne. }
  destruct (Hgen [] Hnd) as [Hk Hg]. split; [done|].
  intros i. rewrite Hg. by destruct (decide (i ∈ ids)).
Qed.

Lemma rmap_Ok_elem_l {A B} (f : A → Result B) (l : list A) (bs : list B) (a : A) :
  rmap f l = Ok bs → a ∈ l → ∃ b, b ∈ bs ∧ f a = Ok b.
Proof.
  intros Hall%rmap_Ok_inv Hin.
  induction Hall as [|a' b' l' bs' Hf _ IH]; [by apply elem_of_nil in Hin|].
  apply elem_of_cons in Hin as [->|Hin].
  - exists b'. split; [by left|done].
  - destruct (IH Hin) as (b & Hb & Hfb). exists b. split; [by right|done].
Qed.

Lemma mo_rebuildTab_keys
    (TAB_SOURCES_MAP : string → option (Metadata → AbstractTabSource))
    (l : list (TabId * MapOrdered.PersistedTab)) (entries : list (TabId * TabState)) :
  rmap (MapOrdered.rebuildTab TAB_SOURCES_MAP) l = Ok entries →
  JsMap.keys entries = JsMap.keys l.
Proof.
  intros Hall%rmap_Ok_inv. unfold JsMap.keys.
  induction Hall as [|a b l' bs' Hf _ IH]; [done|].
  cbn [fmap list_fmap]. rewrite IH. f_equal.
  unfold MapOrdered.rebuildTab in Hf. destruct (newSource _ _); [|done].
  cbn [rbind] in Hf. by injection Hf as <-.
Qed.

(** X19. In the store that orders the map itself, what [getItem] reads
    back from a stored value whose tabs and whose [tabIds] hold no
    identifier twice: the tabs of the rebuilt map come in the stored order,
    restricted to the tabs that exist, followed by the tabs the stored
    order does not name; and each tab comes back with its stored title and
    preview flag (not a preview when the flag is missing), closable unless
    stored otherwise, and never unsaved. *)
Theorem map_order_getItem_restores_flags_and_order
    (JSON_parse : string → Result MapOrdered.StoredValue)
    (TAB_SOURCES_MAP : string → option (Metadata → AbstractTabSource))
    (name : string) (storage : list (string * string))
    (stateString : string) (existingValue : MapOrdered.StoredValue)
    (h : MapOrdered.HydratedState) (version : option Z) :
  JsMap.get name storage = Some stateString →
  JSON_parse stateString = Ok existingValue →
  MapOrdered.getItem JSON_parse TAB_SOURCES_MAP name storage = Ok (Some (h, version)) →
  let ps := MapOrdered.sv_state existingValue in
  let stored := default [] (MapOrdered.p_tabIds ps) in
  let keys := JsMap.keys (MapOrdered.p_tabs ps) in
  NoDup stored → NoDup keys →
  JsMap.keys (MapOrdered.h_tabs h)
  = filter (λ i, i ∈ keys) stored ++ filter (λ i, i ∉ stored) keys
  ∧ ∀ i pt, (i, pt) ∈ MapOrdered.p_tabs ps →
      ∃ s, JsMap.get i (MapOrdered.h_tabs h) = Some s
           ∧ id s = i
           ∧ title s = MapOrdered.pt_title pt
           ∧ preview s = default false (MapOrdered.pt_preview pt)
           ∧ closable s = default true (MapOrdered.pt_closable pt)
           ∧ unsaved s = false.
Proof.
  intros Hget Hparse Hitem. cbv zeta. intros Hstored Hkeys.
  unfold MapOrdered.getItem in Hitem. rewrite Hget in Hitem.
  case_decide as Hempty; [done|]. rewrite Hparse in Hitem. cbn [rbind] in Hitem.
  cbv zeta in Hitem.
  destruct (rmap (MapOrdered.rebuildTab TAB_SOURCES_MAP)
              (MapOrdered.p_tabs (MapOrdered.sv_state existingValue)))
    as [entries|e] eqn:Hentries; [|done].
  cbn [rbind rethrow] in Hitem. injection Hitem as <- _.
  cbn [MapOrdered.h_tabs].
  pose proof (mo_rebuildTab_keys _ _ _ Hentries) as Hk.
  assert (NoDup (JsMap.keys entries)) as Hnd by (by rewrite Hk).
  rewrite (jsmap_of_entries_NoDup entries Hnd), Hk.
  set (stored := default [] (MapOrdered.p_tabIds (MapOrdered.sv_state existingValue))) in *.
  set (keys := JsMap.keys (MapOrdered.p_tabs (MapOrdered.sv_state existingValue))) in *.
  destruct (finalTabs_spec entries (finalTabOrder stored keys)) as [Hfk Hfg].
  { by apply finalTabOrder_NoDup. }
  { apply Forall_forall. intros i Hi. rewrite Hk. by apply finalTabOrder_elem in Hi. }
  split.
  - rewrite Hfk. unfold finalTabOrder, missingTabs, validTabOrder. f_equal.
    apply filter_elem_ext. intros i Hi. rewrite list_elem_of_filter. tauto.
  - intros i pt Hin.
    destruct (rmap_Ok_elem_l _ _ _ _ Hentries Hin) as ([i' s] & Hb & Hf).
    unfold MapOrdered.rebuildTab in Hf. destruct (newSource _ _) as [src|]; [|done].
    cbn [rbind fst snd] in Hf. injection Hf as <- <-.
    eexists. rewrite Hfg, decide_True.
    + rewrite (jsmap_elem_of_get _ _ _ Hnd Hb). by split_and!.
    + apply finalTabOrder_elem. unfold keys, JsMap.keys.
      apply list_elem_of_fmap. by exists (i, pt).
Qed.

Lemma map_order_getItem_restores_flags_and_order_witness :
  ∃ h,
    MapOrdered.getItem MapOrdered.sampleParse sampleSources storeName sampleStorage
    = Ok (Some (h, Some 0))
    ∧ JsMap.keys (MapOrdered.h_tabs h) = [4; 2; 5]
    ∧ JsMap.keys (MapOrdered.h_tabs h)
      = filter (λ i, i ∈ [2; 4; 5]) [4; 9; 2] ++ filter (λ i, i ∉ [4; 9; 2]) [2; 4; 5]
    ∧ ∀ i pt, (i, pt) ∈ MapOrdered.p_tabs (MapOrdered.sv_state MapOrdered.sampleStored) →
        ∃ s, JsMap.get i (MapOrdered.h_tabs h) = Some s
             ∧ id s = i
             ∧ title s = MapOrdered.pt_title pt
             ∧ preview s = default false (MapOrdered.pt_preview pt)
             ∧ closable s = default true (MapOrdered.pt_closable pt)
             ∧ unsaved s = false.
Proof.
  eexists. split; [vm_compute; reflexivity|]. split; [vm_compute; reflexivity|].
  apply (map_order_getItem_restores_flags_and_order MapOrdered.sampleParse
           sampleSources storeName sampleStorage "{sample}" MapOrdered.sampleStored
           _ (Some 0)).
  - reflexivity.
  - reflexivity.
  - vm_compute. reflexivity.
  - apply (bool_decide_unpack _). vm_compute. exact I.
  - apply (bool_decide_unpack _). vm_compute. exact I.
Defined.

Lemma jsmap_entries_by_key {K V} `{EqDecision K} (m : list (K * V)) :
  NoDup (JsMap.keys m) →
  (λ k, (Some k, JsMap.get k m)) <$> JsMap.keys m
  = (λ e, (Some e.1, Some e.2)) <$> m.
Proof.
  unfold JsMap.keys. induction m as [|[k v] m IH]; [done|].
  cbn [fmap list_fmap fst snd]. intros [Hk Hnd]%NoDup_cons.
  cbn [JsMap.get]. rewrite decide_True by done. f_equal.
  rewrite <- (IH Hnd). apply list_fmap_ext. intros i k' Hk'.
  cbn [JsMap.get]. rewrite decide_False; [done|].
  intros ->. apply Hk. by eapply list_elem_of_lookup_2.
Qed.

(** X20. Dragging a tab in the store that orders the map itself
    ([moveTab], then [setTabs]), with a source index inside the map whose
    keys are distinct: the map that is built has no undefined key or
    tab; its keys are the old keys with the dragged one moved, a
    permutation of them; every identifier is still mapped to the tab it
    had; and [setTabs] stores that map as it is and bumps the version. *)
Theorem map_order_moveTab_reorders_map
    (w : MapOrdered.World) (fromIndex toIndex : Z) :
  let m := MapOrdered.tabs (MapOrdered.store w) in
  NoDup (JsMap.keys m) →
  0 ≤ fromIndex → 0 ≤ toIndex → (Z.to_nat fromIndex < length m)%nat →
  ∃ newTabs,
    MapOrdered.movedTabs fromIndex toIndex m = (λ e, (Some e.1, Some e.2)) <$> newTabs
    ∧ Some <$> JsMap.keys newTabs = reorder fromIndex toIndex (JsMap.keys m)
    ∧ JsMap.keys newTabs ≡ₚ JsMap.keys m
    ∧ (∀ t, JsMap.get t newTabs = JsMap.get t m)
    ∧ MapOrdered.tabs (MapOrdered.store (MapOrdered.setTabs newTabs w)) = newTabs
    ∧ MapOrdered._version (MapOrdered.store (MapOrdered.setTabs newTabs w))
      = MapOrdered._version (MapOrdered.store w) + 1
    ∧ MapOrdered.activeTabId (MapOrdered.store (MapOrdered.setTabs newTabs w))
      = MapOrdered.activeTabId (MapOrdered.store w).
Proof.
  cbv zeta. set (m := MapOrdered.tabs (MapOrdered.store w)).
  intros Hnd Hfrom Hto Hlt.
  assert (Z.to_nat fromIndex < length (JsMap.keys m))%nat as Hlt'
    by (unfold JsMap.keys; by rewrite length_fmap).
  destruct (lookup_lt_is_Some_2 _ _ Hlt') as [x Hx].
  destruct (reorder_in_range fromIndex toIndex _ x Hfrom Hto Hx) as [Heq Hsplit].
  cbv zeta in Heq.
  set (a := Z.to_nat fromIndex) in *.
  set (rest := take a (JsMap.keys m) ++ drop (S a) (JsMap.keys m)) in *.
  set (b := (Z.to_nat toIndex `min` length rest)%nat) in *.
  set (l' := take b rest ++ x :: drop b rest) in *.
  assert (l' ≡ₚ JsMap.keys m) as Hperm.
  { unfold l'. rewrite <- Permutation_middle, take_drop. unfold rest.
    rewrite Permutation_middle. by rewrite <- Hsplit. }
  assert (NoDup l') as Hnd' by (by rewrite Hperm).
  destruct (finalTabs_spec m l' Hnd') as [Hfk Hfg].
  { apply Forall_forall. intros i Hi. by rewrite <- Hperm. }
  exists (MapOrdered.finalTabs m l'). split_and!; try done.
  - unfold MapOrdered.movedTabs. rewrite Heq, <- list_fmap_compose.
    rewrite jsmap_of_entries_NoDup.
    + rewrite <- jsmap_entries_by_key by (by rewrite Hfk). rewrite Hfk.
      apply list_fmap_ext. intros i t Ht. cbn [compose mbind option_bind].
      f_equal. rewrite Hfg, decide_True; [done|]. by eapply list_elem_of_lookup_2.
    + unfold JsMap.keys. rewrite <- list_fmap_compose.
      apply (NoDup_fmap_2 Some). done.
  - by rewrite Hfk.
  - by rewrite Hfk.
  - intros t. rewrite Hfg. destruct (decide (t ∈ l')) as [|Hnin]; [done|].
    symmetry. apply jsmap_get_None. by rewrite <- Hperm.
Qed.

Lemma map_order_moveTab_reorders_map_witness :
  let m := MapOrdered.tabs (MapOrdered.store MapOrdered.threeTabs) in
  reorder 2 0 (JsMap.keys m) = [Some 3; Some 1; Some 2]
  ∧ ∃ newTabs,
      MapOrdered.movedTabs 2 0 m = (λ e, (Some e.1, Some e.2)) <$> newTabs
      ∧ Some <$> JsMap.keys newTabs = reorder 2 0 (JsMap.keys m)
      ∧ JsMap.keys newTabs ≡ₚ JsMap.keys m
      ∧ (∀ t, JsMap.get t newTabs = JsMap.get t m)
      ∧ MapOrdered.tabs (MapOrdered.store (MapOrdered.setTabs newTabs MapOrdered.threeTabs))
        = newTabs
      ∧ MapOrdered._version
          (MapOrdered.store (MapOrdered.setTabs newTabs MapOrdered.threeTabs))
        = MapOrdered._version (MapOrdered.store MapOrdered.threeTabs) + 1
      ∧ MapOrdered.activeTabId
          (MapOrdered.store (MapOrdered.setTabs newTabs MapOrdered.threeTabs))
        = MapOrdered.activeTabId (MapOrdered.store MapOrdered.threeTabs).
Proof.
  split; [vm_compute; reflexivity|].
  apply (map_order_moveTab_reorders_map MapOrdered.threeTabs 2 0).
  - apply (bool_decide_unpack _). vm_compute. exact I.
  - lia.
  - lia.
  - vm_compute. lia.
Defined.

(** X21. [updateTabBySource] in the store that orders the map itself, on
    an indexed source whose tab exists: all four fields of the update are
    applied, the unsaved flag too; an index entry is followed whatever its
    identifier, zero included; the tab keeps its place in the map and the
    other tabs, the active tab and the preview slot are untouched; the
    version goes up by one. *)
Theorem map_order_updateTabBySource_applies_unsaved
    (w : MapOrdered.World) (sourceId : SourceId) (sourceName : SourceName)
    (updates : TabUpdates) (t : TabId) (tabState : TabState) :
  MapOrdered.getTabIdBySource sourceId sourceName (MapOrdered.store w) = Some t →
  JsMap.get t (MapOrdered.tabs (MapOrdered.store w)) = Some tabState →
  let st := MapOrdered.store w in
  let st' := MapOrdered.store
               (MapOrdered.updateTabBySource sourceId sourceName updates w) in
  (∃ s', JsMap.get t (MapOrdered.tabs st') = Some s'
         ∧ title s' = default (title tabState) (upd_title updates)
         ∧ preview s' = default (preview tabState) (upd_preview updates)
         ∧ icon s' = default (icon tabState) (upd_icon updates)
         ∧ unsaved s' = default (unsaved tabState) (upd_unsaved updates)
         ∧ id s' = id tabState ∧ source s' = source tabState
         ∧ closable s' = closable tabState)
  ∧ (∀ t', t' ≠ t →
       JsMap.get t' (MapOrdered.tabs st') = JsMap.get t' (MapOrdered.tabs st))
  ∧ JsMap.keys (MapOrdered.tabs st') = JsMap.keys (MapOrdered.tabs st)
  ∧ MapOrdered.tabsIndex st' = MapOrdered.tabsIndex st
  ∧ MapOrdered.activeTabId st' = MapOrdered.activeTabId st
  ∧ MapOrdered.previewTabId st' = MapOrdered.previewTabId st
  ∧ MapOrdered._version st' = MapOrdered._version st + 1.
Proof.
  intros Hidx Hget. cbv zeta. unfold MapOrdered.updateTabBySource.
  rewrite Hidx, Hget. cbv zeta. unfold MapOrdered.incrementVersion.
  cbn [MapOrdered.store MapOrdered.upd MapOrdered.tabs MapOrdered.set_tabs
       MapOrdered.set_version MapOrdered.tabsIndex MapOrdered.activeTabId
       MapOrdered.previewTabId MapOrdered._version].
  split_and!; try done.
  - eexists. rewrite jsmap_get_set_eq. by split_and!.
  - intros t' Hne'. by apply jsmap_get_set_ne.
  - rewrite jsmap_keys_set, decide_True; [done|].
    apply jsmap_elem_of_keys. by eexists.
Qed.

Lemma map_order_updateTabBySource_applies_unsaved_witness :
  let st := MapOrdered.store MapOrdered.threeTabs in
  let updates := {| upd_preview := None; upd_unsaved := Some true;
                    upd_title := Some "Renamed"; upd_icon := None |} in
  let st' := MapOrdered.store
               (MapOrdered.updateTabBySource "b" "request" updates
                  MapOrdered.threeTabs) in
  (∃ s', JsMap.get 2 (MapOrdered.tabs st') = Some s'
         ∧ title s' = "Renamed"
         ∧ preview s' = false
         ∧ icon s' = EmptyString
         ∧ unsaved s' = true
         ∧ id s' = 2 ∧ source s' = request "b"
         ∧ closable s' = true)
  ∧ (∀ t', t' ≠ 2 →
       JsMap.get t' (MapOrdered.tabs st') = JsMap.get t' (MapOrdered.tabs st))
  ∧ JsMap.keys (MapOrdered.tabs st') = JsMap.keys (MapOrdered.tabs st)
  ∧ MapOrdered.tabsIndex st' = MapOrdered.tabsIndex st
  ∧ MapOrdered.activeTabId st' = MapOrdered.activeTabId st
  ∧ MapOrdered.previewTabId st' = MapOrdered.previewTabId st
  ∧ MapOrdered._version st' = MapOrdered._version st + 1.
Proof.
  apply (map_order_updateTabBySource_applies_unsaved MapOrdered.threeTabs
           "b" "request"
           {| upd_preview := None; upd_unsaved := Some true;
              upd_title := Some "Renamed"; upd_icon := None |}
           2 (createTabStore 2 (request "b") "Untitled request" None)).
  - reflexivity.
  - reflexivity.
Defined.

(** ** What an action reports *)

Lemma effects_noteContext s w :
  effects (noteContext s w) = effects w ++ contextEffects s.
Proof.
  unfold noteContext, contextEffects.
  destruct (md_context_id (metadata s)); [|by rewrite app_nil_r].
  case_decide; [done|by rewrite app_nil_r].
Qed.

Lemma effects_setActiveTab i w :
  effects (setActiveTab i w) = effects w ++ activationEffects i (tabs (store w)).
Proof.
  unfold setActiveTab, activationEffects. destruct (i ≫= _).
  - by rewrite effects_noteContext.
  - by rewrite app_nil_r.
Qed.

Lemma effects_removeTab tabId tabState st w :
  effects (removeTab tabId tabState st w)
  = effects w
    ++ activationEffects
         (newActiveTabId tabId (activeTabId st) (tabOrder st)
            (filter (λ i, i ≠ tabId) (tabOrder st)))
         (JsMap.delete tabId (tabs st)).
Proof. unfold removeTab. cbv zeta. by rewrite effects_setActiveTab. Qed.

Lemma store_removeTab_ext tabId tabState st w1 w2 :
  store w1 = store w2 →
  store (removeTab tabId tabState st w1) = store (removeTab tabId tabState st w2).
Proof.
  intros Heq. unfold removeTab. cbv zeta. rewrite !store_setActiveTab. fields.
  by rewrite Heq.
Qed.

(** X22. [closeTabById] without [skipUnsavedPrompt].  On a tab with a
    blocker or unsaved changes, when the user confirms: the prompt is
    shown, the blocker's [onConfirm] is called if there is one, and from
    there on the close is the one made with the prompt skipped: same
    store, same reports.  On a tab with neither, nothing is asked: the
    close is the very one made with the prompt skipped. *)
Theorem closeTabById_confirmed_closes_as_skipped
    (confirm : string → bool) (w : World) (tabId : TabId) (tabState : TabState) :
  JsMap.get tabId (tabs (store w)) = Some tabState →
  let asked := closeTabById confirm tabId false w in
  let skipped := closeTabById confirm tabId true w in
  let message := promptMessage (getActiveBlocker tabState) in
  (is_Some (getActiveBlocker tabState) ∨ unsaved tabState = true →
   confirm message = true →
     store asked = store skipped
     ∧ ∃ tail,
         effects skipped = effects w ++ tail
         ∧ effects asked
           = effects w
             ++ WindowConfirm message
                :: match getActiveBlocker tabState ≫= onConfirm with
                   | Some cb => [Callback cb]
                   | None => []
                   end
             ++ tail)
  ∧ (getActiveBlocker tabState = None → unsaved tabState = false →
       asked = skipped ∧ ∃ tail, effects asked = effects w ++ tail
                                 ∧ existsb asksUser tail = false).
Proof.
  intros Hget. cbv zeta. unfold closeTabById. cbv zeta. rewrite Hget. split.
  - intros Hblocked Hconfirm.
    assert (bool_decide (is_Some (getActiveBlocker tabState)) || unsaved tabState = true)
      as ->.
    { destruct Hblocked as [Hb| ->]; [|by rewrite orb_true_r].
      by rewrite bool_decide_eq_true_2. }
    rewrite Hconfirm. split.
    + apply store_removeTab_ext. by rewrite store_call.
    + eexists. rewrite !effects_removeTab. split; [reflexivity|].
      destruct (getActiveBlocker tabState ≫= onConfirm); cbn [call emit effects];
        by rewrite <- !app_assoc.
  - intros Hb Hu. rewrite Hb, Hu. cbn [bool_decide orb]. split.
    + by rewrite bool_decide_eq_false_2 by (by intros [? ?]).
    + rewrite bool_decide_eq_false_2 by (by intros [? ?]). cbn [orb].
      eexists. rewrite effects_removeTab. split; [reflexivity|].
      unfold activationEffects, contextEffects.
      destruct (_ ≫= _) as [s|]; [|done].
      destruct (md_context_id (metadata (source s))); [|done]. by case_decide.
Qed.

Lemma closeTabById_confirmed_closes_as_skipped_witness :
  let asked := closeTabById (λ _, true) 1 false blockedWorld in
  let skipped := closeTabById (λ _, true) 1 true blockedWorld in
  let message := promptMessage (getActiveBlocker blockedTab) in
  effects asked = [WindowConfirm "Discard the unsaved request?"; Callback "discardDraft"]
  ∧ (is_Some (getActiveBlocker blockedTab) ∨ unsaved blockedTab = true →
     (λ _ : string, true) message = true →
       store asked = store skipped
       ∧ ∃ tail,
           effects skipped = effects blockedWorld ++ tail
           ∧ effects asked
             = effects blockedWorld
               ++ WindowConfirm message
                  :: match getActiveBlocker blockedTab ≫= onConfirm with
                     | Some cb => [Callback cb]
                     | None => []
                     end
               ++ tail)
  ∧ (getActiveBlocker blockedTab = None → unsaved blockedTab = false →
       asked = skipped ∧ ∃ tail, effects asked = effects blockedWorld ++ tail
                                 ∧ existsb asksUser tail = false).
Proof.
  split; [vm_compute; reflexivity|].
  apply (closeTabById_confirmed_closes_as_skipped (λ _, true) blockedWorld 1 blockedTab).
  reflexivity.
Defined.

Lemma nothingAsked_refl w : nothingAsked w w.
Proof. exists []. by rewrite app_nil_r. Qed.

Lemma nothingAsked_trans w1 w2 w3 :
  nothingAsked w1 w2 → nothingAsked w2 w3 → nothingAsked w1 w3.
Proof.
  intros (t1 & H1 & Hq1) (t2 & H2 & Hq2). exists (t1 ++ t2).
  rewrite H2, H1, <- app_assoc, existsb_app, Hq1, Hq2. done.
Qed.

Lemma nothingAsked_upd f w : nothingAsked w (upd f w).
Proof. exists []. by rewrite app_nil_r. Qed.

Lemma contextEffects_quiet s : existsb asksUser (contextEffects s) = false.
Proof.
  unfold contextEffects. destruct (md_context_id (metadata s)); [|done].
  by case_decide.
Qed.

Lemma nothingAsked_noteContext s w : nothingAsked w (noteContext s w).
Proof.
  exists (contextEffects s). split; [apply effects_noteContext|].
  apply contextEffects_quiet.
Qed.

Lemma nothingAsked_setActiveTab i w : nothingAsked w (setActiveTab i w).
Proof.
  exists (activationEffects i (tabs (store w))). split; [apply effects_setActiveTab|].
  unfold activationEffects. destruct (_ ≫= _); [apply contextEffects_quiet|done].
Qed.

Lemma nothingAsked_setPreviewTab i w : nothingAsked w (setPreviewTab i w).
Proof.
  unfold setPreviewTab, resetPreviewTab.
  destruct (JsMap.get i (tabs (store w))); apply nothingAsked_upd.
Qed.

Lemma nothingAsked_upsertTabSource t src config w :
  nothingAsked w (upsertTabSource t src config w).
Proof.
  unfold upsertTabSource. destruct t as [t|]; [|apply nothingAsked_refl].
  case_decide; [apply nothingAsked_refl|]. cbv zeta.
  eapply nothingAsked_trans; [|apply nothingAsked_setActiveTab].
  eapply nothingAsked_trans; apply nothingAsked_upd.
Qed.

Lemma nothingAsked_openTab src config w : nothingAsked w (openTab src config w).
Proof.
  unfold openTab. cbv zeta.
  eapply nothingAsked_trans; [apply (nothingAsked_noteContext src)|].
  destruct (truthy _); [apply nothingAsked_setActiveTab|].
  destruct (default false (config_preview config)).
  - eapply nothingAsked_trans; [|apply nothingAsked_setPreviewTab].
    eapply nothingAsked_trans; [|apply nothingAsked_upsertTabSource].
    eapply (nothingAsked_trans _ (evictPreviewSource _ _)).
    + unfold evictPreviewSource.
      destruct (previewTabId _); [|apply nothingAsked_refl].
      destruct (previewTabSource _); [|apply nothingAsked_refl].
      case_decide; [apply nothingAsked_refl|apply nothingAsked_upd].
    + unfold previewOrNewTabId.
      destruct (previewTabId _); [apply nothingAsked_refl|apply nothingAsked_upd].
  - eapply nothingAsked_trans; [|apply nothingAsked_upsertTabSource].
    apply nothingAsked_upd.
Qed.

Lemma nothingAsked_close_skipped confirm t w :
  nothingAsked w (closeTabById confirm t true w).
Proof.
  unfold closeTabById. cbv zeta.
  destruct (JsMap.get t (tabs (store w))) as [tabState|]; [|apply nothingAsked_refl].
  unfold removeTab. cbv zeta.
  eapply nothingAsked_trans; [|apply nothingAsked_setActiveTab].
  eapply nothingAsked_trans; apply nothingAsked_upd.
Qed.

Lemma nothingAsked_close_series {A} confirm (f : A → TabId) (l : list A) w :
  nothingAsked w (foldl (λ w' x, closeTabById confirm (f x) true w') w l).
Proof.
  revert w. induction l as [|x l IH]; intros w; [apply nothingAsked_refl|].
  cbn [foldl]. eapply nothingAsked_trans; [|apply IH].
  apply nothingAsked_close_skipped.
Qed.

Lemma nothingAsked_step (w : World) (op : Op) :
  mayAsk op = false → nothingAsked w (step w op).
Proof.
  intros Hop.
  destruct op; cbn [step mayAsk] in *;
    try (apply negb_false_iff in Hop; subst).
  - apply nothingAsked_openTab.
  - apply nothingAsked_close_skipped.
  - unfold closeTab. cbv zeta. destruct (getTabIdBySource _ _ _); [|apply nothingAsked_refl].
    case_decide; [apply nothingAsked_refl|apply nothingAsked_close_skipped].
  - unfold closeTabBySource. destruct (getTabIdBySource _ _ _); [|apply nothingAsked_refl].
    case_decide; [apply nothingAsked_refl|apply nothingAsked_close_skipped].
  - apply (nothingAsked_close_series _ (λ t, t)).
  - apply (nothingAsked_close_series _ id).
  - apply nothingAsked_setActiveTab.
  - apply nothingAsked_upd.
  - unfold updateTabBySource. cbv zeta. destruct (truthy _); [|apply nothingAsked_refl].
    destruct (_ ≫= _) as [[t tabState]|]; [|apply nothingAsked_refl].
    unfold incrementVersion. eapply nothingAsked_trans; apply nothingAsked_upd.
  - apply nothingAsked_upsertTabSource.
  - apply nothingAsked_setPreviewTab.
  - apply nothingAsked_upd.
  - apply nothingAsked_upd.
  - apply nothingAsked_upd.
  - exists [ClearStorage]. done.
Qed.

Lemma effects_cleanup (l : list BlockerDetails) (w : World) :
  let w' := foldl (λ w' blocker, call (onConfirm blocker) w') w l in
  store w' = store w ∧ effects w' = effects w ++ (Callback <$> omap onConfirm l).
Proof.
  revert w. induction l as [|b l IH]; intros w; cbv zeta.
  - cbn. by rewrite app_nil_r.
  - cbn [foldl omap list_omap]. destruct (IH (call (onConfirm b) w)) as [Hst Heff].
    cbv zeta in Hst, Heff. rewrite Hst, Heff, store_call. split; [done|].
    destruct (onConfirm b); cbn [call emit effects fmap list_fmap]; [|done].
    by rewrite <- app_assoc.
Qed.

Lemma callbacks_are_no_prompt (l : list string) :
  existsb isPrompt (Callback <$> l) = false.
Proof. by induction l. Qed.

Lemma quiet_is_no_prompt (l : list Effect) :
  existsb asksUser l = false → existsb isPrompt l = false.
Proof.
  induction l as [|e l IH]; [done|]. cbn [existsb].
  intros [He Hl]%orb_false_elim. rewrite (IH Hl). by destruct e.
Qed.

(** X23. Of all the calls the store offers, only a close made without
    [skipUnsavedPrompt] can show the prompt.  Blocker callbacks are called
    by such a close and by [cleanupCloseBlockers] only: the latter calls
    the [onConfirm] of each active blocker of each tab that has one, in
    the order of the tab map, asks nothing and leaves the state as it is;
    every other call shows no prompt and calls no callback, whatever its
    arguments and the state.  What a call reports is added after what was
    reported before. *)
Theorem only_unskipped_closes_prompt
    (getActiveBlockers : TabState → list BlockerDetails) (w : World) (c : StoreCall) :
  mayPrompt c = false →
  ∃ tail,
    effects (perform getActiveBlockers w c) = effects w ++ tail
    ∧ existsb isPrompt tail = false
    ∧ match c with
      | CleanupCloseBlockers =>
          store (perform getActiveBlockers w c) = store w
          ∧ tail = Callback <$> omap onConfirm
                                  (JsMap.values (tabs (store w)) ≫= getActiveBlockers)
      | _ => existsb asksUser tail = false
      end.
Proof.
  intros Hc. destruct c as [op| | |]; cbn [perform mayPrompt] in *.
  - destruct (nothingAsked_step w op Hc) as (tail & Heff & Hq).
    exists tail. split_and!; [done| |done]. by apply quiet_is_no_prompt.
  - unfold cleanupCloseBlockers. cbv zeta.
    destruct (effects_cleanup (JsMap.values (tabs (store w)) ≫= getActiveBlockers) w)
      as [Hst Heff].
    eexists. split_and!; [exact Heff| |exact Hst|done].
    apply callbacks_are_no_prompt.
  - exists []. rewrite app_nil_r. unfold consumeIgnorePath.
    by destruct (ignorePath (store w)).
  - exists []. by rewrite app_nil_r.
Qed.

Lemma only_unskipped_closes_prompt_witness :
  ∃ tail,
    effects (perform sampleBlockers blockedWorld CleanupCloseBlockers)
    = effects blockedWorld ++ tail
    ∧ existsb isPrompt tail = false
    ∧ store (perform sampleBlockers blockedWorld CleanupCloseBlockers)
      = store blockedWorld
    ∧ tail = [Callback "discardDraft"].
Proof.
  destruct (only_unskipped_closes_prompt sampleBlockers blockedWorld
              CleanupCloseBlockers) as (tail & Heff & Hp & Hst & Htail); [reflexivity|].
  exists tail. split_and!; [exact Heff|exact Hp|exact Hst|exact Htail].
Defined.

(** ** The items of the tab bar *)

Lemma tabItems_keys (m : list (TabId * TabState)) (order : list TabId) :
  Forall (λ t, t ∈ JsMap.keys m) order →
  (omap (λ tabId, (λ s, (tabId, s)) <$> JsMap.get tabId m) order).*1 = order.
Proof.
  induction 1 as [|t order Ht _ IH]; [done|].
  apply jsmap_elem_of_keys in Ht as [s Hs]. cbn [omap list_omap].
  rewrite Hs. cbn [fmap option_fmap option_map list_fmap fst]. by f_equal.
Qed.

Lemma tabItems_elem (m : list (TabId * TabState)) (order : list TabId)
    (item : TabId * TabState) :
  item ∈ omap (λ tabId, (λ s, (tabId, s)) <$> JsMap.get tabId m) order →
  item.1 ∈ order ∧ JsMap.get item.1 m = Some item.2.
Proof.
  intros (t & Ht & Hitem)%list_elem_of_omap.
  destruct (JsMap.get t m) as [s|] eqn:Hs; [|done].
  cbn in Hitem. by injection Hitem as <-.
Qed.

(** X24. The tab bar.  Its items are those memoized from the state in
    which [tabs] or [tabOrder] was last replaced; since then only the
    states of the tabs may have changed, so the store has that tab order
    and the same keys in its map.  If in the memoized state the order
    lists the keys of the map once each and every tab is stored under its
    own [id], then there is one item for each tab of the store, in the
    order of [tabOrder], so that the index of an item in the bar is the
    index of its tab in [tabOrder]; the state an item holds is the one its
    tab had when the items were memoized, not the present one; and a click
    on an item makes its tab the active one, with the source that tab has
    now. *)
Theorem tab_bar_lists_tabs_in_order (memo : TabServiceState) (w : World) :
  order_inv memo → keyed_by_id memo →
  tabOrder (store w) = tabOrder memo →
  JsMap.keys (tabs (store w)) = JsMap.keys (tabs memo) →
  let items := tabItems memo in
  items.*1 = tabOrder (store w)
  ∧ length items = length (tabs (store w))
  ∧ ∀ i item,
      items !! i = Some item →
      tabOrder (store w) !! i = Some item.1
      ∧ JsMap.get item.1 (tabs memo) = Some item.2
      ∧ id item.2 = item.1
      ∧ ∃ current,
          JsMap.get item.1 (tabs (store w)) = Some current
          ∧ activeTabId (store (onTabClick item w)) = Some item.1
          ∧ activeTabSource (store (onTabClick item w)) = Some (source current).
Proof.
  intros [Hnd Ho] Hk Hord Hkeys0. cbv zeta.
  assert ((tabItems memo).*1 = tabOrder memo) as Hkeys.
  { apply tabItems_keys, Forall_forall. intros t Ht. by apply Ho. }
  split_and!; [by rewrite Hord| |].
  - transitivity (length (tabOrder memo)).
    { rewrite <- Hkeys. by rewrite length_fmap. }
    transitivity (length (JsMap.keys (tabs (store w))));
      [|unfold JsMap.keys; by rewrite length_fmap].
    rewrite Hkeys0.
    apply Permutation_length, NoDup_Permutation; [done|apply Hk|done].
  - intros i item Hi.
    assert (item ∈ tabItems memo) as Hin by (by eapply list_elem_of_lookup_2).
    apply tabItems_elem in Hin as [Hmem Hget].
    pose proof (keyed_by_id_get _ _ _ Hk Hget) as Hid.
    assert (is_Some (JsMap.get item.1 (tabs (store w)))) as [current Hcur].
    { apply jsmap_elem_of_keys. rewrite Hkeys0. by apply Ho. }
    split_and!; [|done|done|].
    + rewrite Hord, <- Hkeys, list_lookup_fmap, Hi. done.
    + exists current. unfold onTabClick.
      rewrite store_setActiveTab, Hid. cbn [mbind option_bind]. by rewrite Hcur.
Qed.

Lemma tab_bar_lists_tabs_in_order_witness :
  let memo := store (updateTabOrder [3; 1; 2] threeTabs) in
  let w := updateTabBySource "a" "request" markPreview
             (updateTabOrder [3; 1; 2] threeTabs) in
  let items := tabItems memo in
  (preview <$> JsMap.get 1 (tabs memo)) = Some false
  ∧ (preview <$> JsMap.get 1 (tabs (store w))) = Some true
  ∧ items.*1 = tabOrder (store w)
  ∧ length items = length (tabs (store w))
  ∧ ∀ i item,
      items !! i = Some item →
      tabOrder (store w) !! i = Some item.1
      ∧ JsMap.get item.1 (tabs memo) = Some item.2
      ∧ id item.2 = item.1
      ∧ ∃ current,
          JsMap.get item.1 (tabs (store w)) = Some current
          ∧ activeTabId (store (onTabClick item w)) = Some item.1
          ∧ activeTabSource (store (onTabClick item w)) = Some (source current).
Proof.
  split; [vm_compute; reflexivity|]. split; [vm_compute; reflexivity|].
  apply (tab_bar_lists_tabs_in_order
           (store (updateTabOrder [3; 1; 2] threeTabs))
           (updateTabBySource "a" "request" markPreview
              (updateTabOrder [3; 1; 2] threeTabs))).
  - apply order_invb_sound. vm_compute. reflexivity.
  - split; [apply (bool_decide_unpack _); vm_compute; exact I|repeat constructor].
  - vm_compute. reflexivity.
  - vm_compute. reflexivity.
Defined.

(** X25. A double click on the title of an item whose tab is in the
    store.  The flag the handler tests is the one of the state the item
    holds, which may be out of date.  When that flag is set, the tab stays
    where it is, with its preview flag cleared whatever it was, the
    preview slot is emptied and the version goes up by one; nothing else
    changes.  If moreover only the tab of the preview slot carried the
    flag and the tab of the item still carried it, no tab carries it
    afterwards, so the next preview does not replace the tab.  When the
    flag the item holds is not set, the double click does nothing, also
    when the tab has become a preview since. *)
Theorem double_click_keeps_preview_tab
    (w : World) (item : TabId * TabState) (current : TabState) :
  JsMap.get item.1 (tabs (store w)) = Some current →
  let st := store w in
  let st' := store (onDoubleClick item w) in
  (preview item.2 = true →
     JsMap.get item.1 (tabs st') = Some (setPreview false current)
     ∧ (∀ t, t ≠ item.1 → JsMap.get t (tabs st') = JsMap.get t (tabs st))
     ∧ JsMap.keys (tabs st') = JsMap.keys (tabs st)
     ∧ tabOrder st' = tabOrder st
     ∧ tabsIndex st' = tabsIndex st
     ∧ activeTabId st' = activeTabId st
     ∧ previewTabId st' = None
     ∧ previewTabSource st' = None
     ∧ _version st' = _version st + 1
     ∧ (preview_slot_inv st → preview current = true →
          previewCount st' = 0%nat ∧ preview_slot_inv st'))
  ∧ (preview item.2 = false → onDoubleClick item w = w).
Proof.
  intros Hget. cbv zeta. unfold onDoubleClick. split; intros Hp; rewrite Hp; [|done].
  unfold resetPreviewTab, incrementVersion. fields. rewrite Hget.
  assert (JsMap.keys (JsMap.set item.1 (setPreview false current) (tabs (store w)))
          = JsMap.keys (tabs (store w))) as Hkeys.
  { rewrite jsmap_keys_set, decide_True; [done|].
    apply jsmap_elem_of_keys. by eexists. }
  split_and!; try done.
  - apply jsmap_get_set_eq.
  - intros t Hne. by apply jsmap_get_set_ne.
  - intros [Hnd Hslot] Hcur.
    assert (∀ t s, JsMap.get t (JsMap.set item.1 (setPreview false current)
                                  (tabs (store w))) = Some s →
                   preview s = false) as Hnone.
    { intros t s. destruct (decide (item.1 = t)) as [<-|Hne].
      - rewrite jsmap_get_set_eq. by intros [= <-].
      - rewrite jsmap_get_set_ne by done. intros Hs.
        destruct (preview s) eqn:Hps; [|done].
        pose proof (Hslot _ _ Hs Hps) as Ht.
        pose proof (Hslot _ _ Hget Hcur) as Ht'. congruence. }
    split.
    + unfold previewCount. fields. rewrite filter_none; [done|].
      intros s (e & -> & Hin)%list_elem_of_fmap Hps.
      destruct e as [t s]. cbn [snd] in Hps.
      rewrite (Hnone t s) in Hps; [done|].
      apply jsmap_elem_of_get; [by rewrite Hkeys|done].
    + split; fields; [by rewrite Hkeys|].
      intros t s Hs Hps. by rewrite (Hnone t s Hs) in Hps.
Qed.

Lemma double_click_keeps_preview_tab_witness :
  let item := (2, createTabStore 2 (request "b") "Untitled request" (Some true)) in
  let w := updateTabBySource "b" "request" unmarkPreview withPreview in
  let st := store w in
  let st' := store (onDoubleClick item w) in
  tabItems (store withPreview) !! 1%nat = Some item
  ∧ (preview <$> JsMap.get 2 (tabs st)) = Some false
  ∧ previewTabId st = Some 2
  ∧ (preview item.2 = true →
       JsMap.get item.1 (tabs st')
       = Some (setPreview false
                 (setPreview false
                    (createTabStore 2 (request "b") "Untitled request" (Some true))))
       ∧ (∀ t, t ≠ item.1 → JsMap.get t (tabs st') = JsMap.get t (tabs st))
       ∧ JsMap.keys (tabs st') = JsMap.keys (tabs st)
       ∧ tabOrder st' = tabOrder st
       ∧ tabsIndex st' = tabsIndex st
       ∧ activeTabId st' = activeTabId st
       ∧ previewTabId st' = None
       ∧ previewTabSource st' = None
       ∧ _version st' = _version st + 1
       ∧ (preview_slot_inv st →
          preview (setPreview false
                     (createTabStore 2 (request "b") "Untitled request" (Some true)))
          = true →
            previewCount st' = 0%nat ∧ preview_slot_inv st'))
  ∧ (preview item.2 = false → onDoubleClick item w = w).
Proof.
  split; [vm_compute; reflexivity|]. split; [vm_compute; reflexivity|].
  split; [vm_compute; reflexivity|].
  apply (double_click_keeps_preview_tab
           (updateTabBySource "b" "request" unmarkPreview withPreview)
           (2, createTabStore 2 (request "b") "Untitled request" (Some true))
           (setPreview false
              (createTabStore 2 (request "b") "Untitled request" (Some true)))).
  vm_compute. reflexivity.
Defined.

(** ** The store under [persist]: when every write succeeds

    While [setItem] accepts what it is given, an action of the store under
    [persist] returns, and the world it leaves is the one the action leaves
    in the model without storage. *)

Section writes_succeed.
Variable JSON_stringify : StoredValue → Result string.
Variable quotaExceeded : list (string * string) → bool.
Variable name : string.
Hypothesis stringify_ok : ∀ v, ∃ text, JSON_stringify v = Ok text.
Hypothesis quota_ok : ∀ storage, quotaExceeded storage = false.

Lemma returnsWorld_bind {A B} (m : Action A) (k : A → Action B) s a w b w' :
  returnsWorld (m s) a w →
  (∀ s', world s' = w → returnsWorld (k a s') b w') →
  returnsWorld ((m ≫= k) s) b w'.
Proof.
  intros [session' Hm] Hk. unfold mbind, action_bind. rewrite Hm. by apply Hk.
Qed.

Lemma returnsWorld_ret {A} (a : A) s w :
  world s = w → returnsWorld (mret (M := Action) a s) a w.
Proof. intros <-. exists (session s). by destruct s. Qed.

Lemma returnsWorld_getState s :
  returnsWorld (Persisted.getState s) (store (world s)) (world s).
Proof. exists (session s). by destruct s. Qed.

Lemma returnsWorld_lift f s :
  returnsWorld (Persisted.lift f s) tt (f (world s)).
Proof. by exists (session s). Qed.

Lemma returnsWorld_setState f s :
  returnsWorld (Persisted.setState JSON_stringify quotaExceeded name f s) tt
    (upd f (world s)).
Proof.
  unfold Persisted.setState, setItem, sessionStorage_setItem. cbv zeta.
  destruct (stringify_ok (serializable (partialize (store (upd f (world s)))) (Some 0)))
    as [text ->].
  cbn [rbind]. rewrite quota_ok. cbn [rethrow]. by eexists.
Qed.

Lemma returnsWorld_setActiveTab i s :
  returnsWorld (Persisted.setActiveTab JSON_stringify quotaExceeded name i s) tt
    (setActiveTab i (world s)).
Proof.
  unfold Persisted.setActiveTab, setActiveTab.
  eapply returnsWorld_bind; [apply returnsWorld_getState|]. intros s' Hs'.
  rewrite <- Hs'. destruct (i ≫= _) as [tabState|].
  - eapply returnsWorld_bind; [apply returnsWorld_setState|]. intros s'' Hs''.
    rewrite <- Hs''. apply returnsWorld_lift.
  - apply returnsWorld_setState.
Qed.

Lemma returnsWorld_generateNewTabId s :
  returnsWorld (Persisted._generateNewTabId JSON_stringify quotaExceeded name s)
    (_generateNewTabId (world s)).1 (_generateNewTabId (world s)).2.
Proof.
  unfold Persisted._generateNewTabId, _generateNewTabId. cbn [fst snd].
  eapply returnsWorld_bind; [apply returnsWorld_getState|]. intros s' Hs'.
  rewrite <- Hs'. cbv zeta.
  eapply returnsWorld_bind; [apply returnsWorld_setState|]. intros s'' Hs''.
  by apply returnsWorld_ret.
Qed.

Lemma returnsWorld_setPreviewTab i s :
  returnsWorld (Persisted.setPreviewTab JSON_stringify quotaExceeded name i s) tt
    (setPreviewTab i (world s)).
Proof.
  unfold Persisted.setPreviewTab, Persisted.resetPreviewTab, setPreviewTab,
    resetPreviewTab.
  eapply returnsWorld_bind; [apply returnsWorld_getState|]. intros s' Hs'.
  rewrite <- Hs'. destruct (JsMap.get i _); apply returnsWorld_setState.
Qed.

Lemma returnsWorld_upsertTabSource t src config s :
  returnsWorld
    (Persisted.upsertTabSource JSON_stringify quotaExceeded name t src config s) tt
    (upsertTabSource t src config (world s)).
Proof.
  unfold Persisted.upsertTabSource, upsertTabSource.
  destruct t as [t|]; [|by apply returnsWorld_ret].
  case_decide; [by apply returnsWorld_ret|].
  eapply returnsWorld_bind; [apply returnsWorld_getState|]. intros s1 Hs1.
  rewrite <- Hs1. cbv zeta.
  eapply returnsWorld_bind; [apply returnsWorld_lift|]. intros s2 Hs2.
  eapply returnsWorld_bind; [apply returnsWorld_lift|]. intros s3 Hs3.
  eapply returnsWorld_bind; [apply returnsWorld_setState|]. intros s4 Hs4.
  assert (world s4
          = upd (set_tabs
                   (JsMap.set t (createTabStore t src (getDefaultTitle src)
                                   (config_preview config)) (tabs (store (world s1))))
                   (if includes t (tabOrder (store (world s1)))
                    then tabOrder (store (world s1))
                    else tabOrder (store (world s1)) ++ [t]))
              (upd (set_tabsIndex
                      (index_set (getSourceName src) (getSourceId src) t
                         (tabsIndex (store (world s1))))) (world s1))) as Hw.
  { rewrite Hs4, Hs3, Hs2. by destruct (world s1) as [[] ?]. }
  rewrite <- Hw. apply returnsWorld_setActiveTab.
Qed.

Lemma returnsWorld_openTab src config s :
  returnsWorld (Persisted.openTab JSON_stringify quotaExceeded name src config s) tt
    (openTab src config (world s)).
Proof.
  unfold Persisted.openTab, openTab. cbv zeta.
  eapply returnsWorld_bind; [apply returnsWorld_lift|]. intros s1 Hs1.
  eapply returnsWorld_bind; [apply returnsWorld_getState|]. intros s2 Hs2.
  rewrite <- Hs1, <- Hs2. cbv zeta.
  destruct (truthy _); [apply returnsWorld_setActiveTab|].
  destruct (default false (config_preview config)).
  - eapply returnsWorld_bind; [apply returnsWorld_lift|]. intros s3 Hs3.
    unfold previewOrNewTabId.
    destruct (previewTabId (store (world s2))) as [p|].
    + eapply returnsWorld_bind; [by apply returnsWorld_ret|]. intros s4 Hs4.
      eapply returnsWorld_bind; [apply returnsWorld_upsertTabSource|]. intros s5 Hs5.
      cbn [fst snd]. rewrite <- Hs4, <- Hs5. apply returnsWorld_setPreviewTab.
    + eapply returnsWorld_bind; [apply returnsWorld_generateNewTabId|]. intros s4 Hs4.
      eapply returnsWorld_bind; [apply returnsWorld_upsertTabSource|]. intros s5 Hs5.
      rewrite <- Hs3, <- Hs4, <- Hs5. apply returnsWorld_setPreviewTab.
  - eapply returnsWorld_bind; [apply returnsWorld_generateNewTabId|]. intros s3 Hs3.
    rewrite <- Hs3. apply returnsWorld_upsertTabSource.
Qed.

Lemma returnsWorld_removeTab tabId tabState s :
  returnsWorld
    (Persisted.removeTab JSON_stringify quotaExceeded name tabId tabState
       (store (world s)) s) tt
    (removeTab tabId tabState (store (world s)) (world s)).
Proof.
  unfold Persisted.removeTab, removeTab. cbv zeta.
  eapply returnsWorld_bind; [apply returnsWorld_lift|]. intros s2 Hs2.
  eapply returnsWorld_bind; [apply returnsWorld_lift|]. intros s3 Hs3.
  eapply returnsWorld_bind; [apply returnsWorld_setState|]. intros s4 Hs4.
  assert (world s4
          = upd (set_tabs (JsMap.delete tabId (tabs (store (world s))))
                   (filter (λ i, i ≠ tabId) (tabOrder (store (world s)))))
              (upd (set_tabsIndex
                      (index_prune (getSourceName (source tabState))
                         (index_delete (getSourceName (source tabState))
                            (getSourceId (source tabState))
                            (tabsIndex (store (world s))))))
                 (world s))) as Hw.
  { rewrite Hs4, Hs3, Hs2. by destruct (world s) as [[] ?]. }
  rewrite <- Hw. apply returnsWorld_setActiveTab.
Qed.

Lemma returnsWorld_closeTabById confirm tabId skip s :
  returnsWorld
    (Persisted.closeTabById JSON_stringify quotaExceeded name confirm tabId skip s) tt
    (closeTabById confirm tabId skip (world s)).
Proof.
  unfold Persisted.closeTabById, closeTabById. cbv zeta.
  eapply returnsWorld_bind; [apply returnsWorld_getState|]. intros s1 Hs1.
  rewrite <- Hs1.
  destruct (JsMap.get tabId (tabs (store (world s1)))) as [tabState|];
    [|by apply returnsWorld_ret].
  destruct skip; [apply returnsWorld_removeTab|].
  destruct (bool_decide _ || unsaved tabState); [|apply returnsWorld_removeTab].
  eapply returnsWorld_bind; [apply returnsWorld_lift|]. intros s2 Hs2.
  destruct (confirm _).
  - eapply returnsWorld_bind; [apply returnsWorld_lift|]. intros s3 Hs3.
    assert (store (world s1) = store (world s3)) as Hst
      by (by rewrite Hs3, store_call, Hs2).
    rewrite <- Hs2, <- Hs3, Hst. apply returnsWorld_removeTab.
  - rewrite <- Hs2. apply returnsWorld_lift.
Qed.
End writes_succeed.

(** ** The store under [persist]: when a read or a write fails *)

(** C9. What a persistence failure does.  When the value cannot be
    serialized or stored, [setItem] throws an error with its own prefix to
    its caller; when the stored string fails to parse or a tab cannot be
    reconstructed, [getItem] throws instead of returning a partial state,
    and initialization hands the error to the rehydration callback, which
    reports it to Sentry and leaves the store in the state it was created
    with.  The caller of [setItem] is the [set] of the middleware, which
    does not catch: a write that fails ends the action that called [set],
    with the state change of that [set] made and the rest of the action
    not run.  [openTab] of a source that needs a new identifier then
    leaves the sequence advanced and nothing else changed; a close leaves
    the tab out of the map, the order and the index, and the active tab
    as it was. *)
Theorem persistence_failures_throw_and_are_reported
    (JSON_stringify : StoredValue → Result string)
    (JSON_parse : string → Result StoredValue)
    (quotaExceeded : list (string * string) → bool)
    (TAB_SOURCES_MAP : string → option (Metadata → AbstractTabSource))
    (name : string) :
  (∀ newValue version storage,
     (∃ e, JSON_stringify (serializable newValue version) = Throw e)
     ∨ (∃ s, JSON_stringify (serializable newValue version) = Ok s
             ∧ quotaExceeded (JsMap.set name s storage) = true) →
     ∃ e, setItem JSON_stringify quotaExceeded name newValue version storage
          = Throw (newError (setItemFailed +:+ e)))
  ∧ (∀ storage stateString,
       JsMap.get name storage = Some stateString → stateString ≠ EmptyString →
       (∃ e, JSON_parse stateString = Throw e)
       ∨ (∃ v t pt, JSON_parse stateString = Ok v
                    ∧ (t, pt) ∈ p_tabs (sv_state v)
                    ∧ TAB_SOURCES_MAP (ps_type (pt_source pt)) = None) →
       ∃ e, getItem JSON_parse TAB_SOURCES_MAP name storage
            = Throw (newError (getItemFailed +:+ e))
          ∧ (∀ w, hydrate JSON_parse TAB_SOURCES_MAP name storage w
                  = emit (SentryCaptureException "tabs_rehydration_failed"
                            (rehydrationFailed +:+ newError (getItemFailed +:+ e))) w)
          ∧ store (hydrate JSON_parse TAB_SOURCES_MAP name storage initialWorld)
            = initialState)
  ∧ (∀ w storage src config e,
       truthy (getTabIdBySource (getSourceId src) (getSourceName src) (store w))
       = false →
       default false (config_preview config) = false ∨ previewTabId (store w) = None →
       setItem JSON_stringify quotaExceeded name
         (partialize (set_tabIdSequence (tabIdSequence (store w) + 1) (store w)))
         (Some 0) storage = Throw e →
       Persisted.openTab JSON_stringify quotaExceeded name src config
         {| world := w; session := storage |}
       = Thrown e
           {| world := upd (set_tabIdSequence (tabIdSequence (store w) + 1))
                         (noteContext src w);
              session := storage |})
  ∧ (∀ confirm w storage tabId tabState e,
       JsMap.get tabId (tabs (store w)) = Some tabState →
       let st := store w in
       let sourceName := getSourceName (source tabState) in
       let sourceId := getSourceId (source tabState) in
       let cut :=
         upd (set_tabs (JsMap.delete tabId (tabs st))
                (filter (λ i, i ≠ tabId) (tabOrder st)))
           (upd (set_tabsIndex
                   (index_prune sourceName
                      (index_delete sourceName sourceId (tabsIndex st)))) w) in
       setItem JSON_stringify quotaExceeded name (partialize (store cut))
         (Some 0) storage = Throw e →
       ∃ w', Persisted.closeTabById JSON_stringify quotaExceeded name confirm tabId true
               {| world := w; session := storage |}
             = Thrown e {| world := w'; session := storage |}
             ∧ store w' = store cut
             ∧ effects w' = effects w
             ∧ activeTabId (store w') = activeTabId st
             ∧ activeTabSource (store w') = activeTabSource st
             ∧ JsMap.get tabId (tabs (store w')) = None).
Proof.
  split_and!.
  - intros newValue version storage [[e He]|(s & Hs & Hquota)];
      unfold setItem, rethrow, sessionStorage_setItem.
    + rewrite He. simpl. by eexists.
    + rewrite Hs. simpl. rewrite Hquota. by eexists.
  - intros storage stateString Hget Hne Hfail.
    assert (∃ e, getItem JSON_parse TAB_SOURCES_MAP name storage
                 = Throw (newError (getItemFailed +:+ e))) as [e He].
    { unfold getItem, rethrow. rewrite Hget, decide_False by done.
      destruct Hfail as [[e He]|(v & t & pt & Hv & Hin & Hctor)].
      - rewrite He. simpl. by eexists.
      - rewrite Hv. simpl.
        destruct (rmap_Throw (rebuildTab TAB_SOURCES_MAP) (p_tabs (sv_state v))
                    (t, pt) "TypeError: TAB_SOURCES_MAP[tabState.source.type] is not a constructor"
                    Hin) as [e' ->].
        { unfold rebuildTab, newSource. simpl. by rewrite Hctor. }
        simpl. by eexists. }
    exists e. split; [done|]. unfold hydrate. rewrite He. done.
  - intros w storage src config e Hidx Hnew Hwrite.
    assert (Persisted._generateNewTabId JSON_stringify quotaExceeded name
              {| world := noteContext src w; session := storage |}
            = Thrown e
                {| world := upd (set_tabIdSequence (tabIdSequence (store w) + 1))
                              (noteContext src w);
                   session := storage |}) as Hgen.
    { unfold Persisted._generateNewTabId, Persisted.getState, Persisted.setState,
        mbind, action_bind. cbn [world session store upd].
      rewrite store_noteContext, Hwrite. done. }
    unfold Persisted.openTab, Persisted.lift, Persisted.getState.
    unfold mbind at 1 2. unfold action_bind at 1 2. cbn [world session].
    rewrite store_noteContext, Hidx.
    destruct (default false (config_preview config)) eqn:Hp.
    + destruct Hnew as [Hnew|Hnone]; [done|].
      unfold mbind at 1 2 3. unfold action_bind at 1 2 3. cbn [world session].
      unfold evictPreviewSource at 1. rewrite Hnone. by rewrite Hgen.
    + unfold mbind at 1. unfold action_bind at 1. by rewrite Hgen.
  - intros confirm w storage tabId tabState e Hget. cbv zeta. intros Hwrite.
    eexists. split.
    + unfold Persisted.closeTabById, Persisted.getState.
      unfold mbind at 1. unfold action_bind at 1. cbn [world session].
      rewrite Hget. unfold Persisted.removeTab, Persisted.mutate, Persisted.lift,
        Persisted.setState, mbind, action_bind. cbn [world session].
      cbv zeta.
      assert (∀ m o o' (w0 : World), upd (set_tabs m o') (upd (set_tabs m o) w0)
                                     = upd (set_tabs m o') w0) as Htwice by done.
      rewrite Htwice, Hwrite. reflexivity.
    + fields. split_and!; try done. apply jsmap_get_delete_eq.
Qed.

Lemma persistence_failures_throw_and_are_reported_witness :
  (∃ e, setItem sampleStringify sampleQuota storeName
          (partialize (store twoTabs)) (Some 1) sampleStorage
        = Throw (newError (setItemFailed +:+ e)))
  ∧ (∃ e, setItem sampleStringify sampleQuota storeName
            (partialize (store twoTabs)) (Some 0)
            [("theme", "dark"); ("locale", "en")]
          = Throw (newError (setItemFailed +:+ e)))
  ∧ (∃ e, getItem sampleParse sampleSources storeName corruptStorage
          = Throw (newError (getItemFailed +:+ e))
        ∧ (∀ w, hydrate sampleParse sampleSources storeName corruptStorage w
                = emit (SentryCaptureException "tabs_rehydration_failed"
                          (rehydrationFailed +:+ newError (getItemFailed +:+ e))) w)
        ∧ store (hydrate sampleParse sampleSources storeName corruptStorage initialWorld)
          = initialState)
  ∧ (∃ e, getItem sampleParse sampleSources storeName staleStorage
          = Throw (newError (getItemFailed +:+ e))
        ∧ (∀ w, hydrate sampleParse sampleSources storeName staleStorage w
                = emit (SentryCaptureException "tabs_rehydration_failed"
                          (rehydrationFailed +:+ newError (getItemFailed +:+ e))) w)
        ∧ store (hydrate sampleParse sampleSources storeName staleStorage initialWorld)
          = initialState)
  ∧ Persisted.openTab sampleStringify fullQuota storeName (request "c") None
      {| world := twoTabs; session := [] |}
    = Thrown (newError (setItemFailed +:+ "QuotaExceededError"))
        {| world := upd (set_tabIdSequence 3) (noteContext (request "c") twoTabs);
           session := [] |}
  ∧ (∃ w', Persisted.closeTabById sampleStringify fullQuota storeName (λ _, false) 2 true
             {| world := twoTabs; session := [] |}
           = Thrown (newError (setItemFailed +:+ "QuotaExceededError"))
               {| world := w'; session := [] |}
           ∧ JsMap.keys (tabs (store w')) = [1]
           ∧ tabOrder (store w') = [1]
           ∧ activeTabId (store w') = Some 2).
Proof.
  destruct (persistence_failures_throw_and_are_reported
              sampleStringify sampleParse sampleQuota sampleSources storeName)
    as (Hwrite & Hread & _).
  destruct (persistence_failures_throw_and_are_reported
              sampleStringify sampleParse fullQuota sampleSources storeName)
    as (_ & _ & Hopen & Hclose).
  split_and!.
  - apply Hwrite. left. eexists. vm_compute. reflexivity.
  - apply Hwrite. right. exists "{sample}". split; vm_compute; reflexivity.
  - apply (Hread corruptStorage "{tabs:"); [reflexivity|done|].
    left. eexists. vm_compute. reflexivity.
  - apply (Hread staleStorage "{stale}"); [reflexivity|done|].
    right. exists staleStored, 1, (samplePersistedTab 1 "history" "h" false false).2.
    split_and!; [vm_compute; reflexivity| |vm_compute; reflexivity].
    apply list_elem_of_singleton. reflexivity.
  - apply (Hopen twoTabs [] (request "c") None); [reflexivity|by left|].
    vm_compute. reflexivity.
  - destruct (Hclose (λ _, false) twoTabs [] 2
                (createTabStore 2 (request "b") "Untitled request" None)
                (newError (setItemFailed +:+ "QuotaExceededError")))
      as (w' & Heq & Hst & _ & Hact & _ & _); [reflexivity|vm_compute; reflexivity|].
    exists w'. split; [exact Heq|]. rewrite Hst. split_and!; vm_compute; reflexivity.
Defined.

(** The failing instance of the claim as the specification words it: with
    a session storage that is full, [openTab] on the new store throws and
    leaves the sequence at 1 with no tab, where the action otherwise
    leaves a tab; and closing the active tab of two throws with the tab
    gone and still named as the active one. *)
Lemma failed_write_cuts_action_short :
  let writeFailed := newError (setItemFailed +:+ "QuotaExceededError") in
  Persisted.openTab sampleStringify fullQuota storeName (request "a") None
    {| world := initialWorld; session := [] |}
  = Thrown writeFailed
      {| world := {| store := set_tabIdSequence 1 initialState;
                     effects := [SetLastUsedContextId "workspace-1"] |};
         session := [] |}
  ∧ JsMap.keys (tabs (store (openTab (request "a") None initialWorld))) = [1]
  ∧ (∃ s', Persisted.closeTabById sampleStringify fullQuota storeName (λ _, false) 2 true
             {| world := twoTabs; session := [] |}
           = Thrown writeFailed s'
           ∧ activeTabId (store (world s')) = Some 2
           ∧ JsMap.get 2 (tabs (store (world s'))) = None
           ∧ ¬ active_linked (store (world s')))
  ∧ ¬ write_failures_do_not_corrupt_state.
Proof.
  cbv zeta. split; [vm_compute; reflexivity|]. split; [vm_compute; reflexivity|].
  split.
  - eexists. split; [vm_compute; reflexivity|].
    split; [vm_compute; reflexivity|]. split; [vm_compute; reflexivity|].
    unfold active_linked. cbn. intros (tabState & Hget & _). discriminate.
  - intros Hclaim.
    destruct (Hclaim sampleStringify fullQuota (request "a") None
                {| world := initialWorld; session := [] |}) as (s' & Heq & _).
    vm_compute in Heq. discriminate.
Qed.
